(** * Recommendation pipeline of the library application

    A shallow embedding of
    - [app/api/ai/web-recommend/route.ts]  (the WebRecommend request path),
    - [app/api/ai/recommend/route.ts]      (the Rank request path),
    - [components/ai-recommendations.tsx]  (the client-side dedup/exclusion
      filter, function [fetchWebRecommendations]),
    together with the properties the specification states about them,
    and of the code around them:
    - [cosineSimilarity] of the rank route, on doubles,
    - [app/api/ai/generate/route.ts]       (the route that writes the
      embeddings the rank route reads),
    - [fetchRecommendations] of the client (polling the rank route),
    - the search of [table-view.tsx] and [books-manager.tsx] and the form
      of [add-new.tsx].

    JavaScript values are modelled as the code uses them: numbers as
    [number] (NaN, the two infinities, and finite values carried as exact
    rationals), [Set<string>] as [gset string], arrays as lists living in a
    store when the code mutates them, exceptions as a result type. *)

From Stdlib Require Import ZArith QArith Qround Lia Lqa Ascii String List.
From Stdlib Require Floats Uint63.
From stdpp Require Import base option list sorting gmap sets strings.

Local Open Scope string_scope.
Local Open Scope list_scope.

(* [set_solver] clears hypotheses by name and warns when one is gone. *)
#[local] Set Warnings "-clear-no-such-hyp".

(** ** JavaScript numbers *)

Module JS.

(** A JavaScript number.  Every finite double is a rational, so [Fin]
    covers the finite ones; the sign of zero is not tracked. *)
Inductive number : Type :=
  | NaN
  | NegInf
  | Fin (q : Q)
  | PosInf.

Definition of_Z (z : Z) : number := Fin (inject_Z z).

(** [Number.isFinite] *)
Definition isFinite (x : number) : bool :=
  match x with Fin _ => true | _ => false end.

(** Truthiness of a number: [NaN] and zero are falsy. *)
Definition truthy (x : number) : bool :=
  match x with
  | NaN => false
  | Fin q => negb (Qeq_bool q 0)
  | _ => true
  end.

(** [x || y] on numbers *)
Definition or_else (x y : number) : number := if truthy x then x else y.

(** [x < y]; any comparison with NaN is false. *)
Definition ltb (x y : number) : bool :=
  match x, y with
  | NaN, _ | _, NaN => false
  | _, NegInf => false
  | NegInf, _ => true
  | PosInf, _ => false
  | Fin _, PosInf => true
  | Fin a, Fin b => negb (Qle_bool b a)
  end.

(** [x <= y] and [x === y] (the two zeros being one number). *)
Definition leb (x y : number) : bool :=
  match x, y with
  | NaN, _ | _, NaN => false
  | _, _ => negb (ltb y x)
  end.

Definition eqb (x y : number) : bool := leb x y && leb y x.

(** [Math.min] and [Math.max] of two arguments: NaN is contagious. *)
Definition Math_min (x y : number) : number :=
  match x, y with
  | NaN, _ | _, NaN => NaN
  | _, _ => if ltb y x then y else x
  end.

Definition Math_max (x y : number) : number :=
  match x, y with
  | NaN, _ | _, NaN => NaN
  | _, _ => if ltb x y then y else x
  end.

(** Arithmetic.  A finite result is the exact rational.  For the integers
    the routes compute with (counts and limits) that is the double; the
    difference of two scores is only inspected for its sign, which
    rounding to a double keeps. *)
Definition mul (x y : number) : number :=
  match x, y with
  | NaN, _ | _, NaN => NaN
  | Fin a, Fin b => Fin (a * b)
  | Fin a, PosInf | PosInf, Fin a =>
      match (a ?= 0)%Q with Eq => NaN | Lt => NegInf | Gt => PosInf end
  | Fin a, NegInf | NegInf, Fin a =>
      match (a ?= 0)%Q with Eq => NaN | Lt => PosInf | Gt => NegInf end
  | PosInf, PosInf | NegInf, NegInf => PosInf
  | PosInf, NegInf | NegInf, PosInf => NegInf
  end.

Definition sub (x y : number) : number :=
  match x, y with
  | NaN, _ | _, NaN => NaN
  | Fin a, Fin b => Fin (a - b)
  | PosInf, PosInf | NegInf, NegInf => NaN
  | PosInf, _ | _, NegInf => PosInf
  | NegInf, _ | _, PosInf => NegInf
  end.

(** [arr.slice(0, end)]: [end] goes through ToIntegerOrInfinity (NaN is 0,
    a fraction is truncated towards zero); a negative [end] counts from the
    end of the array. *)
Definition slice0 {A : Type} (arr : list A) (e : number) : list A :=
  match e with
  | NaN | NegInf => []
  | PosInf => arr
  | Fin q =>
      let k := Z.quot (Qnum q) (Zpos (Qden q)) in
      if (k <? 0)%Z
      then take (Z.to_nat (Z.max (Z.of_nat (length arr) + k) 0)) arr
      else take (Z.to_nat k) arr
  end.

(** [Array.prototype.sort(comparefn)].  The engine's algorithm is not part
    of the repository; ECMAScript requires it to be stable and, for a
    consistent comparator, to deliver the one stable ordering, which this
    insertion sort computes.  A comparator result of NaN counts as +0. *)
Section Sort.
Context {A : Type} (comparefn : A -> A -> number).

(** [comparefn x y > 0]: [x] has to come after [y]. *)
Definition sorts_after (x y : A) : bool := ltb (Fin 0) (comparefn x y).

Fixpoint sort_insert (x : A) (l : list A) : list A :=
  match l with
  | [] => [x]
  | y :: l' => if sorts_after x y then y :: sort_insert x l' else x :: y :: l'
  end.

Definition Array_sort (l : list A) : list A := foldr sort_insert [] l.
End Sort.

(** Strings.  The program normalises titles with
    [String(t).toLowerCase().trim()]; characters are modelled as bytes, so
    case folding and white space are those of ASCII. *)
Definition lower_char (c : ascii) : ascii :=
  let n := nat_of_ascii c in
  if (65 <=? n)%nat && (n <=? 90)%nat then ascii_of_nat (n + 32) else c.

Fixpoint toLowerCase (s : string) : string :=
  match s with
  | EmptyString => EmptyString
  | String c s' => String (lower_char c) (toLowerCase s')
  end.

Definition is_white_space (c : ascii) : bool :=
  let n := nat_of_ascii c in
  ((9 <=? n)%nat && (n <=? 13)%nat) || (n =? 32)%nat.

Fixpoint trimStart (s : string) : string :=
  match s with
  | EmptyString => EmptyString
  | String c s' => if is_white_space c then trimStart s' else s
  end.

Definition reverse_string (s : string) : string :=
  string_of_list_ascii (rev (list_ascii_of_string s)).

Definition trimEnd (s : string) : string :=
  reverse_string (trimStart (reverse_string s)).

Definition trim (s : string) : string := trimEnd (trimStart s).

(** [parts.join(sep)] *)
Fixpoint join (sep : string) (parts : list string) : string :=
  match parts with
  | [] => ""
  | [p] => p
  | p :: rest => p +:+ sep +:+ join sep rest
  end.

(** The dedup key of a title: [String(t).toLowerCase().trim()]. *)
Definition normalized (t : string) : string := trim (toLowerCase t).

(** A string is truthy when it is not empty. *)
Definition nonempty (s : string) : bool := negb (bool_decide (s = "")).

(** Exceptions: a computation returns or throws. *)
Inductive result (A : Type) : Type :=
  | Ok (a : A)
  | Throw (e : string).
Arguments Ok {A} a.
Arguments Throw {A} e.

(** What [String(err)] is for the TypeError that
    [const { bookId, ... } = body] throws when [body] is [null].  The
    wording is the engine's (here that of V8, for the source as
    written); the statements below say that this answer has status 500,
    not what its text is. *)
Definition destructuring_null : string :=
  "TypeError: Cannot destructure property 'bookId' of 'body' as it is null.".

End JS.

(** ** The deterministic shuffler (web-recommend/route.ts, step 6) *)

Module Shuffler.
Import JS.

Local Open Scope Z_scope.

(** ToUint32 of an integral number, and [Math.imul].  32-bit values are
    kept as their unsigned representatives: [^], [|], [>>>] and [Math.imul]
    act on the bit patterns, and the signed sum [t + Math.imul(..)] is
    converted back with ToInt32 by the [^=] that consumes it. *)
Definition wrap32 (z : Z) : Z := z mod 2 ^ 32.

Definition imul (x y : Z) : Z := wrap32 (x * y).

(** The double nearest to an integer (ties to even): what [a += c] stores
    when the exact sum needs more than 53 bits. *)
Definition round53 (z : Z) : Z :=
  let m := Z.abs z in
  if m <? 2 ^ 53 then z
  else
    let e := Z.log2 m - 52 in
    let q := m / 2 ^ e in
    let r := m mod 2 ^ e in
    let half := 2 ^ (e - 1) in
    let q' := if r <? half then q
              else if half <? r then q + 1
              else if Z.even q then q else q + 1 in
    Z.sgn z * (q' * 2 ^ e).

(** One call of the closure returned by [mulberry32(a)]: the captured
    variable [a] is the state, the result is the draw and the new [a]. *)
Definition mulberry32_call (a : Z) : Q * Z :=
  let a := round53 (a + 0x6d2b79f5) in
  let t := wrap32 a in
  let t := imul (Z.lxor t (Z.shiftr t 15)) (Z.lor t 1) in
  let t := Z.lxor t (wrap32 (t + imul (Z.lxor t (Z.shiftr t 7)) (Z.lor t 61))) in
  (Qmake (wrap32 (Z.lxor t (Z.shiftr t 14))) (2 ^ 32), a).

(** A [() => number] closure: hidden state and the call that advances it. *)
Record generator : Type := Generator {
  gen_state : Type;
  gen_current : gen_state;
  gen_call : gen_state -> Q * gen_state
}.

Definition mulberry32 (a : Z) : generator :=
  {| gen_state := Z; gen_current := a; gen_call := mulberry32_call |}.

(** [Math.random]: the engine's source of randomness is an unknown stream of
    numbers; a call takes the head of the stream. *)
Definition Math_random (entropy : nat -> Q) : generator :=
  {| gen_state := nat -> Q;
     gen_current := entropy;
     gen_call := fun w => (w O, fun n => w (S n)) |}.

(** The values of the first [n] calls of a generator. *)
Fixpoint draws {G : Type} (call : G -> Q * G) (n : nat) (g : G) : list Q :=
  match n with
  | O => []
  | S n' => let '(r, g') := call g in r :: draws call n' g'
  end.

(** The state of the closure after [n] calls. *)
Fixpoint state_after {G : Type} (call : G -> Q * G) (n : nat) (g : G) : G :=
  match n with
  | O => g
  | S n' => state_after call n' (snd (call g))
  end.

(** [Math.floor(rand() * (i + 1))] for a draw [r].  The product is taken
    exactly.  For a draw of [mulberry32] (a multiple of 2^-32) the double
    product is exact as long as the array has fewer than 2^21 elements (the
    route shuffles at most 300).  For a draw of [Math.random] the double
    product may round up to the next integer; the index stays in [0, i],
    so the indices the engine picks are those of some stream here. *)
Definition pick (r : Q) (i : nat) : nat :=
  Z.to_nat (Qfloor (r * inject_Z (Z.of_nat i + 1))).

Section Arrays.
Context {T : Type}.

(** Array objects live in a store, addressed by reference. *)
Abbreviation store := (gmap nat (list T)).

(** [arr.slice()]: a new array object with the elements of [arr]. *)
Definition slice (arr : nat) (σ : store) : nat * store :=
  let a := fresh (dom σ) in
  (a, <[a := default [] (σ !! arr)]> σ).

(** [tmp = a[i]; a[i] = a[j]; a[j] = tmp].  Both indices are inside the
    array whenever the draw is in [0, 1), which is all the program's
    generators deliver; outside, the store is left as it is. *)
Definition swap (a : nat) (i j : nat) (σ : store) : store :=
  match σ !! a with
  | Some l =>
      match l !! i, l !! j with
      | Some x, Some y => <[a := <[j := x]> (<[i := y]> l)]> σ
      | _, _ => σ
      end
  | None => σ
  end.

(** The loop [for (let i = a.length - 1; i > 0; i--)], entered with the
    current value of [i]. *)
Fixpoint shuffle_loop {G : Type} (call : G -> Q * G) (a : nat) (i : nat)
    (σ : store) (g : G) : store * G :=
  match i with
  | O => (σ, g)
  | S i' =>
      let '(r, g') := call g in
      let j := pick r i in
      shuffle_loop call a i' (swap a i j σ) g'
  end.

(** [shuffleArray(arr, rand)]: returns the reference of the new array. *)
Definition shuffleArray (arr : nat) (rand : generator) (σ : store)
    : nat * store :=
  let '(a, σ) := slice arr σ in
  let n := length (default [] (σ !! a)) in
  (a, fst (shuffle_loop (gen_call rand) a (n - 1) σ (gen_current rand))).

(** The client's [shuffle(arr)] (ai-recommendations.tsx): the same loop,
    drawing from [Math.random]. *)
Definition shuffle (arr : nat) (entropy : nat -> Q) (σ : store)
    : nat * store :=
  let '(a, σ) := slice arr σ in
  let n := length (default [] (σ !! a)) in
  (a, fst (shuffle_loop (gen_call (Math_random entropy)) a (n - 1) σ entropy)).

(** The contents of the array a call returns, for an argument array
    holding [l]. *)
Definition shuffled_with (rand : generator) (l : list T) : list T :=
  let '(a, σ) := shuffleArray O rand {[ O := l ]} in
  default [] (σ !! a).

Definition client_shuffled (entropy : nat -> Q) (l : list T) : list T :=
  let '(a, σ) := shuffle O entropy {[ O := l ]} in
  default [] (σ !! a).
End Arrays.

End Shuffler.

(** ** POST /api/ai/web-recommend (web-recommend/route.ts) *)

Module WebRecommend.
Import JS.

Inductive SeedValue : Type :=
  | SeedNumber (n : number)
  | SeedString (s : string).

(** The request body; [None] is a field that is absent (or null). *)
Record WebRecommendRequest : Type := {
  bookId : option string;
  topK : option number;
  seed : option SeedValue
}.

(** The body [{}], which is also what the route takes for a request whose
    body [request.json()] cannot read ([.catch(() => ({}))]). *)
Definition empty_body : WebRecommendRequest :=
  {| bookId := None; topK := None; seed := None |}.

(** A row of the [books] table, as selected by the route. *)
Record Book : Type := {
  book_title : option string;
  book_assignee : option string;
  book_notes : option string
}.

(** What a Supabase query resolves to: [{ data, error }], the error given
    by its message. *)
Record QueryResult (A : Type) : Type := {
  data : option A;
  error : option string
}.
Arguments data {A} _.
Arguments error {A} _.

Record Supabase : Type := {
  target_query : QueryResult Book;
  (** [select("title")] over all books: [None] when the data is not an
      array; a row gives its title, if it has one. *)
  titles_query : QueryResult (list (option string))
}.

(** A document of Open Library's [docs] array. *)
Inductive AuthorName : Type :=
  | AuthorArray (names : list string)
  | AuthorOther (name : option string).

Record Doc : Type := {
  doc_title : option string;
  doc_author_name : AuthorName;
  doc_key : option string
}.

(** The outcome of one [fetch(url)]: the promise rejects (network failure),
    or a response arrives with its [ok] flag and a body; [None] is a body
    that [resp.json()] fails to parse, [Some None] a parsed body whose
    [docs] is not an array. *)
Inductive FetchOutcome : Type :=
  | Rejected (e : string)
  | Responded (ok : bool) (json : option (option (list Doc))).

(** A fetch is identified by the query text and the limit of its URL. *)
Definition FetchCall : Type := string * number.

Record Candidate : Type := {
  title : string;
  author : string;
  key : option string;
  source : string
}.

Inductive Response : Type :=
  | Json (recommendations : list Candidate)
  | ErrorJson (status : nat) (message : string).

(** Everything a request meets: its body as the route has it after
    [request.json().catch(() => ({}))] ([None] when it is the JSON value
    [null]; otherwise the fields read from it, [Some empty_body] when it
    is [{}], has none of the fields, or could not be read), the
    database client, the network (the outcome of the n-th fetch of the
    request, for its query and limit) and the stream behind
    [Math.random]. *)
Record Env : Type := {
  body : option WebRecommendRequest;
  createClient : result Supabase;
  network : nat -> string -> number -> FetchOutcome;
  entropy : nat -> Q
}.

(** Computations that fetch: the log of the fetches issued so far is
    threaded through, and a rejected fetch throws. *)
Definition M (A : Type) : Type := list FetchCall -> result A * list FetchCall.

Definition ret {A : Type} (a : A) : M A := fun log => (Ok a, log).

Definition bind {A B : Type} (m : M A) (k : A -> M B) : M B :=
  fun log =>
    match m log with
    | (Ok a, log') => k a log'
    | (Throw e, log') => (Throw e, log')
    end.

Notation "'let*' x ':=' m 'in' k" := (bind m (fun x => k))
  (at level 10, x name, m at level 100, k at level 200).

Definition fetch (net : nat -> string -> number -> FetchOutcome)
    (q : string) (limit : number)
    : M (bool * option (option (list Doc))) :=
  fun log =>
    (match net (length log) q limit with
     | Rejected e => Throw e
     | Responded ok json => Ok (ok, json)
     end, log ++ [(q, limit)]).

(** The dedup key of a candidate, and the set of keys of a list. *)
Definition normalized_title (d : Candidate) : string := normalized (title d).

Definition titles (l : list Candidate) : gset string :=
  list_to_set (map normalized_title l).

(** Whether a loop that keeps first-seen titles pushes [d], once the titles
    in [seen] and the candidates of [l] have gone before it. *)
Definition unseen_after (seen : gset string) (l : list Candidate)
    (d : Candidate) : bool :=
  negb (bool_decide (normalized_title d ∈ seen))
  && negb (bool_decide (normalized_title d ∈ map normalized_title l)).

(** The [docs.map(...)] of [queryOpenLibrary]. *)
Definition to_candidate (d : Doc) : Candidate :=
  {| title := default "" (doc_title d);
     author := match doc_author_name d with
               | AuthorArray names => join ", " names
               | AuthorOther name => default "Unknown" name
               end;
     key := doc_key d;
     source := "openlibrary" |}.

(** The [.filter(...)] of [queryOpenLibrary]. *)
Definition keep_doc (localTitles : gset string) (d : Candidate) : bool :=
  nonempty (title d) && negb (bool_decide (normalized (title d) ∈ localTitles)).

Definition queryOpenLibrary (net : nat -> string -> number -> FetchOutcome)
    (localTitles : gset string) (q : string) (limit : number)
    : M (list Candidate) :=
  let* resp := fetch net q limit in
  if negb (fst resp) then ret []
  else
    let json := default None (snd resp) in
    let docs := default [] json in
    ret (List.filter (keep_doc localTitles) (map to_candidate docs)).

(** [Math.max(1, Math.min(Number(topK) || 5, 50))], with [topK = 5] for a
    missing field. *)
Definition requestedTopK (b : WebRecommendRequest) : number :=
  Math_max (of_Z 1)
    (Math_min (or_else (default (of_Z 5) (topK b)) (of_Z 5)) (of_Z 50)).

(** [Math.min(Math.max(requestedTopK * 6, 20), 100)] *)
Definition fetchLimit (k : number) : number :=
  Math_min (Math_max (mul k (of_Z 6)) (of_Z 20)) (of_Z 100).

(** [[title, assignee, notes].filter(Boolean).join(" ").trim()] *)
Definition queryText (b : Book) : string :=
  trim (join " "
    (List.filter nonempty
       (omap id [book_title b; book_assignee b; book_notes b]))).

(** Step 2: the normalised local titles. *)
Definition localTitles (q : QueryResult (list (option string))) : gset string :=
  match error q, data q with
  | None, Some rows =>
      list_to_set (map normalized (List.filter nonempty (omap id rows)))
  | _, _ => ∅
  end.

(** Step 4, the loop over [titleOnlyDocs]: [recommendations.push(d)] for
    every document whose normalised title has not been seen. *)
Fixpoint merge_unique (seen : gset string) (recommendations : list Candidate)
    (docs : list Candidate) : list Candidate :=
  match docs with
  | [] => recommendations
  | d :: rest =>
      let t := normalized (title d) in
      if bool_decide (t ∈ seen) then merge_unique seen recommendations rest
      else merge_unique ({[ t ]} ∪ seen) (recommendations ++ [d]) rest
  end.

Definition widening_needed (recommendations : list Candidate) (k : number)
    (b : Book) : bool :=
  ltb (of_Z (Z.of_nat (length recommendations))) (Math_min (of_Z 2) k)
  && nonempty (default "" (book_title b)).

Definition widen (net : nat -> string -> number -> FetchOutcome)
    (locals : gset string) (k : number) (b : Book)
    (recommendations : list Candidate) : M (list Candidate) :=
  if widening_needed recommendations k b then
    let* titleOnlyDocs :=
      queryOpenLibrary net locals (default "" (book_title b))
        (Math_min (mul (fetchLimit k) (of_Z 2)) (of_Z 200)) in
    let seen := list_to_set (map (fun r => normalized (title r)) recommendations) in
    ret (merge_unique seen recommendations titleOnlyDocs)
  else ret recommendations.

(** Step 5: the dedup loop. *)
Fixpoint dedup_loop (normalizedSeen : gset string) (deduped : list Candidate)
    (recommendations : list Candidate) : list Candidate :=
  match recommendations with
  | [] => deduped
  | d :: rest =>
      let t := normalized (title d) in
      if negb (nonempty t) then dedup_loop normalizedSeen deduped rest
      else if bool_decide (t ∈ normalizedSeen)
      then dedup_loop normalizedSeen deduped rest
      else dedup_loop ({[ t ]} ∪ normalizedSeen) (deduped ++ [d]) rest
  end.

Definition dedupe (recommendations : list Candidate) : list Candidate :=
  dedup_loop ∅ [] recommendations.

Section Route.
(** [Number(s)] on a string is the engine's StringToNumber. *)
Variable StringToNumber : string -> number.

(** [seed != null ? Number(seed) : NaN] *)
Definition numericSeed (b : WebRecommendRequest) : number :=
  match seed b with
  | Some (SeedNumber n) => n
  | Some (SeedString s) => StringToNumber s
  | None => NaN
  end.

(** [Number.isFinite(numericSeed) ? mulberry32(Math.floor(numericSeed))
    : Math.random] *)
Definition randFn (b : WebRecommendRequest) (random : nat -> Q)
    : Shuffler.generator :=
  match numericSeed b with
  | Fin q => Shuffler.mulberry32 (Qfloor q)
  | _ => Shuffler.Math_random random
  end.

(** Steps 3 to 5: the candidates before the shuffle. *)
Definition candidates (env : Env) (db : Supabase) (b : WebRecommendRequest)
    (target : Book) : M (list Candidate) :=
  let locals := localTitles (titles_query db) in
  let k := requestedTopK b in
  let* primaryDocs :=
    queryOpenLibrary (network env) locals (queryText target) (fetchLimit k) in
  let* recommendations := widen (network env) locals k target primaryDocs in
  ret (dedupe recommendations).

(** The body of the [try] block.  Destructuring a body that is [null]
    throws. *)
Definition handle (env : Env) : M Response :=
  match body env with
  | None => fun log => (Throw destructuring_null, log)
  | Some b =>
      let k := requestedTopK b in
      if negb (nonempty (default "" (bookId b)))
      then ret (ErrorJson 400 "Missing bookId")
      else
        match createClient env with
        | Throw e => fun log => (Throw e, log)
        | Ok db =>
            match error (target_query db), data (target_query db) with
            | Some msg, _ => ret (ErrorJson 404 msg)
            | None, None => ret (ErrorJson 404 "Book not found")
            | None, Some target =>
                if negb (nonempty (queryText target)) then ret (Json [])
                else
                  let* deduped := candidates env db b target in
                  let shuffled :=
                    Shuffler.shuffled_with (randFn b (entropy env)) deduped in
                  ret (Json (slice0 shuffled k))
            end
        end
  end.

(** [POST]: the response and the fetches issued; whatever the body throws
    is answered with status 500. *)
Definition POST (env : Env) : Response * list FetchCall :=
  match handle env [] with
  | (Ok r, log) => (r, log)
  | (Throw e, log) => (ErrorJson 500 e, log)
  end.
End Route.

End WebRecommend.

(** ** POST /api/ai/recommend (recommend/route.ts) *)

Module Recommend.
Import JS.

Record RecommendRequest : Type := {
  bookId : option string;
  topK : option number
}.

(** The body [{}], also taken for a body that cannot be read. *)
Definition empty_body : RecommendRequest := {| bookId := None; topK := None |}.

Record QueryResult (A : Type) : Type := {
  data : option A;
  error : option string
}.
Arguments data {A} _.
Arguments error {A} _.

(** A row of [book_ai]; an [embedding] that is null or not an array is
    [None]. *)
Record AiRow : Type := {
  book_id : string;
  embedding : option (list number);
  tags : option (list string);
  summary : option string
}.

(** A row of [books] with the selected columns. *)
Record BookRecord : Type := {
  id : string;
  columns : list (string * string)
}.

Record Supabase : Type := {
  target_query : QueryResult AiRow;
  rows_query : QueryResult (list AiRow);
  (** [.in("id", ids)] *)
  books_query : list string -> QueryResult (list BookRecord)
}.

Record Scored : Type := {
  scored_book_id : string;
  score : number;
  scored_tags : list string;
  scored_summary : string
}.

(** The two shapes of a recommendation in the response. *)
Inductive Recommendation : Type :=
  | WithoutBook (bookId : string) (score : number) (tags : list string)
      (summary : string)
  | WithBook (score : number) (tags : list string) (summary : string)
      (book : option BookRecord).

Inductive Response : Type :=
  | Json (recommendations : list Recommendation)
  | ErrorJson (status : nat) (message : string).

(** The body as the route has it after
    [request.json().catch(() => ({}))]: [None] when it is the JSON value
    [null]; otherwise the fields read from it, [Some empty_body] when it
    is [{}], has none of the fields, or could not be read. *)
Record Env : Type := {
  body : option RecommendRequest;
  createClient : result Supabase
}.

(** [validRows]: the rows whose embedding is a non-empty array. *)
Definition valid_row (r : AiRow) : bool :=
  match embedding r with
  | Some (_ :: _) => true
  | _ => false
  end.

(** The comparator [(a, b) => b.score - a.score]. *)
Definition by_score (a b : Scored) : number := sub (score b) (score a).

(** [a] may stand before [b] in a list that descends by score. *)
Definition descends (a b : Scored) : Prop := leb (score b) (score a) = true.

(** The entries of a list that have the score [s], in their order. *)
Definition with_score (s : number) (l : list Scored) : list Scored :=
  List.filter (fun e => eqb (score e) s) l.

Definition recommendation_score (r : Recommendation) : number :=
  match r with
  | WithoutBook _ s _ _ => s
  | WithBook s _ _ _ => s
  end.

Section Route.
(** [cosineSimilarity(a, b)] is floating-point arithmetic (a dot product
    divided by the product of the norms plus an epsilon); the route only
    orders its results, so it is taken as it comes. *)
Variable cosineSimilarity : list number -> list number -> number.

Definition to_scored (targetEmbedding : list number) (r : AiRow) : Scored :=
  {| scored_book_id := book_id r;
     score := cosineSimilarity targetEmbedding (default [] (embedding r));
     scored_tags := default [] (tags r);
     scored_summary := default "" (summary r) |}.

(** Step 3, before the truncation: filter, map and sort. *)
Definition ranked (targetEmbedding : list number) (rows : list AiRow)
    : list Scored :=
  Array_sort by_score
    (map (to_scored targetEmbedding) (List.filter valid_row rows)).

(** [scored]: the ranking cut by [.slice(0, topK)], [topK] as it came in
    the body, 5 when missing. *)
Definition scored (b : RecommendRequest) (targetEmbedding : list number)
    (rows : list AiRow) : list Scored :=
  slice0 (ranked targetEmbedding rows) (default (of_Z 5) (topK b)).

Definition find_book (books : list BookRecord) (s : Scored) : option BookRecord :=
  List.find (fun b => bool_decide (id b = scored_book_id s)) books.

(** The body of the [try] block.  Destructuring a body that is [null]
    throws. *)
Definition handle (env : Env) : result Response :=
  match body env with
  | None => Throw destructuring_null
  | Some b =>
  if negb (nonempty (default "" (bookId b)))
  then Ok (ErrorJson 400 "Missing bookId")
  else
    match createClient env with
    | Throw e => Throw e
    | Ok db =>
        match error (target_query db), data (target_query db) with
        | Some msg, _ => Ok (ErrorJson 404 msg)
        | None, None => Ok (ErrorJson 404 "No AI data found for target book")
        | None, Some targetRow =>
            match embedding targetRow with
            | None => Ok (ErrorJson 404 "Target embedding not available")
            | Some targetEmbedding =>
                match error (rows_query db) with
                | Some msg => Ok (ErrorJson 500 msg)
                | None =>
                    let rows := default [] (data (rows_query db)) in
                    let scored := scored b targetEmbedding rows in
                    if bool_decide (length scored = 0%nat) then Ok (Json [])
                    else
                      let ids := map scored_book_id scored in
                      let q := books_query db ids in
                      match error q with
                      | Some _ =>
                          Ok (Json (map (fun s =>
                                WithoutBook (scored_book_id s) (score s)
                                  (scored_tags s) (scored_summary s)) scored))
                      | None =>
                          let books := default [] (data q) in
                          Ok (Json (map (fun s =>
                                WithBook (score s) (scored_tags s)
                                  (scored_summary s) (find_book books s)) scored))
                      end
                end
            end
        end
    end
  end.

Definition POST (env : Env) : Response :=
  match handle env with
  | Ok r => r
  | Throw e => ErrorJson 500 e
  end.
End Route.

End Recommend.

(** ** The client-side filter (ai-recommendations.tsx,
       [fetchWebRecommendations]) *)

Module Client.
Import JS.

Record BookBrief : Type := {
  id : string;
  brief_title : string
}.

Record Recommendation : Type := {
  score : option number;
  tags : option (list string);
  summary : option string;
  book : option BookBrief;
  title : option string;
  author : option string;
  source : option string
}.

(** An element of the server's [recommendations]. *)
Record ServerItem : Type := {
  item_title : option string;
  item_author : option string;
  item_source : option string;
  item_summary : option string
}.

Record ServerJson : Type := {
  json_recommendations : option (list ServerItem);
  json_error : option string
}.

Definition empty_json : ServerJson :=
  {| json_recommendations := None; json_error := None |}.

(** The outcome of the call to [/api/ai/web-recommend]. *)
Inductive FetchOutcome : Type :=
  | Rejected (e : string)
  | Responded (ok : bool) (json : option ServerJson).

(** The body the component posts. *)
Record ServerRequest : Type := {
  req_bookId : string;
  req_topK : number;
  req_seed : option WebRecommend.SeedValue
}.

Record Props : Type := {
  bookId : string;
  topK : option number
}.

(** The component state the function reads and sets. *)
Record State : Type := {
  recs : option (list Recommendation);
  loading : bool;
  error : option string;
  onlyWeb : bool
}.

Definition MAX_WEB_RECS : nat := 3.

(** [Math.max(12, (topK ?? 5) * 6)], the prop defaulting to 5. *)
Definition FETCH_LIMIT (p : Props) : number :=
  Math_max (of_Z 12) (mul (default (of_Z 5) (topK p)) (of_Z 6)).

Definition request (p : Props) (seed : option WebRecommend.SeedValue)
    : ServerRequest :=
  {| req_bookId := bookId p;
     req_topK := Math_min (FETCH_LIMIT p) (of_Z 50);
     req_seed := seed |}.

Definition to_recommendation (r : ServerItem) : Recommendation :=
  {| score := None;
     title := item_title r;
     author := item_author r;
     source := item_source r;
     summary := if nonempty (default "" (item_author r))
                then Some ("Author: " +:+ default "" (item_author r))
                else item_summary r;
     book := None;
     tags := None |}.

(** The titles on display, used when no exclusion set is passed (or an
    empty one). *)
Definition displayed_titles (recs : option (list Recommendation)) : gset string :=
  list_to_set
    (map normalized
       (List.filter nonempty
          (map (fun r => default "" (title r)) (default [] recs)))).

Definition currentTitles (excludeTitles : option (gset string))
    (recs : option (list Recommendation)) : gset string :=
  match excludeTitles with
  | Some s => if bool_decide (s = ∅) then displayed_titles recs else s
  | None => displayed_titles recs
  end.

(** The dedup key of a candidate; a candidate is usable when it has a
    title whose key is not empty. *)
Definition normalized_title (r : Recommendation) : string :=
  normalized (default "" (title r)).

Definition usable (r : Recommendation) : bool :=
  nonempty (default "" (title r)) && nonempty (normalized_title r).

(** The keys of the usable candidates of a pool. *)
Definition usable_titles (pool : list Recommendation) : gset string :=
  list_to_set (map normalized_title (List.filter usable pool)).

(** First pass: skip candidates without a title, duplicates within the
    pool, and titles of the exclusion set; stop at [MAX_WEB_RECS]. *)
Fixpoint strict_pass (currentTitles : gset string) (pool : list Recommendation)
    (chosen : list Recommendation) (seen : gset string)
    : list Recommendation * gset string :=
  match pool with
  | [] => (chosen, seen)
  | candidate :: rest =>
      let t := normalized (default "" (title candidate)) in
      if negb (nonempty (default "" (title candidate)))
      then strict_pass currentTitles rest chosen seen
      else if negb (nonempty t) then strict_pass currentTitles rest chosen seen
      else if bool_decide (t ∈ seen) then strict_pass currentTitles rest chosen seen
      else if bool_decide (t ∈ currentTitles)
      then strict_pass currentTitles rest chosen seen
      else
        let chosen := chosen ++ [candidate] in
        let seen := {[ t ]} ∪ seen in
        if (MAX_WEB_RECS <=? length chosen)%nat then (chosen, seen)
        else strict_pass currentTitles rest chosen seen
  end.

(** Second pass: the same loop without the exclusion set. *)
Fixpoint relaxed_loop (pool : list Recommendation)
    (chosen : list Recommendation) (seen : gset string)
    : list Recommendation * gset string :=
  match pool with
  | [] => (chosen, seen)
  | candidate :: rest =>
      let t := normalized (default "" (title candidate)) in
      if negb (nonempty (default "" (title candidate)))
      then relaxed_loop rest chosen seen
      else if negb (nonempty t) || bool_decide (t ∈ seen)
      then relaxed_loop rest chosen seen
      else
        let chosen := chosen ++ [candidate] in
        let seen := {[ t ]} ∪ seen in
        if (MAX_WEB_RECS <=? length chosen)%nat then (chosen, seen)
        else relaxed_loop rest chosen seen
  end.

Definition relaxed_pass (pool : list Recommendation)
    (chosen : list Recommendation) (seen : gset string)
    : list Recommendation * gset string :=
  if (length chosen <? MAX_WEB_RECS)%nat then relaxed_loop pool chosen seen
  else (chosen, seen).

(** The fallback: with nothing chosen and recommendations on display, the
    displayed list rotated by one ([first] is an object, hence truthy). *)
Definition rotate_fallback (recs : option (list Recommendation))
    (chosen : list Recommendation) : list Recommendation :=
  match chosen, recs with
  | [], Some (first :: rotated) =>
      chosen ++ take MAX_WEB_RECS (rotated ++ [first])
  | _, _ => chosen
  end.

(** From the shuffled pool to [finalRecs]. *)
Definition select (excludeTitles : option (gset string))
    (recs : option (list Recommendation)) (shuffled : list Recommendation)
    : list Recommendation :=
  let current := currentTitles excludeTitles recs in
  let '(chosen, seen) := strict_pass current shuffled [] ∅ in
  let '(chosen, seen) := relaxed_pass shuffled chosen seen in
  let chosen := rotate_fallback recs chosen in
  take MAX_WEB_RECS chosen.

(** [fetchWebRecommendations(excludeTitles, seed)]: the state it leaves,
    given the props, the state it was created with, the server and the
    stream behind [Math.random]. *)
Definition fetchWebRecommendations (p : Props) (st : State)
    (server : ServerRequest -> FetchOutcome) (entropy : nat -> Q)
    (excludeTitles : option (gset string))
    (seed : option WebRecommend.SeedValue) : State :=
  let failed (msg : string) :=
    {| recs := Some []; loading := false; error := Some msg;
       onlyWeb := onlyWeb st |} in
  match server (request p seed) with
  | Rejected e => failed e
  | Responded ok json =>
      let json := default empty_json json in
      if negb ok then
        failed (if nonempty (default "" (json_error json))
                then default "" (json_error json)
                else "Failed to fetch web recommendations")
      else
        let mapped := map to_recommendation (default [] (json_recommendations json)) in
        let shuffled := Shuffler.client_shuffled entropy mapped in
        {| recs := Some (select excludeTitles (recs st) shuffled);
           loading := false; error := None; onlyWeb := true |}
  end.

End Client.

(** ** Concrete requests

    Small environments on which the routes are run in the statements
    below. *)

Module Scenario.
Import JS.

(** A [Number(s)] that reads decimal digits and is NaN on anything else. *)
Fixpoint digits (s : string) (acc : Z) : option Z :=
  match s with
  | EmptyString => Some acc
  | String c s' =>
      let n := nat_of_ascii c in
      if (48 <=? n)%nat && (n <=? 57)%nat
      then digits s' (10 * acc + Z.of_nat (n - 48))%Z
      else None
  end.

Definition StringToNumber (s : string) : number :=
  match s with
  | EmptyString => of_Z 0
  | _ => match digits s 0 with Some z => of_Z z | None => NaN end
  end.

(** *** The rank route *)

Definition constant_similarity (a b : list number) : number := of_Z 1.

Definition ai_row (name : string) : Recommend.AiRow :=
  {| Recommend.book_id := name;
     Recommend.embedding := Some [of_Z 1; of_Z 0];
     Recommend.tags := None;
     Recommend.summary := None |}.

(** A database with a target row and 51 other rows with embeddings. *)
Definition rank_db : Recommend.Supabase :=
  {| Recommend.target_query :=
       {| Recommend.data := Some (ai_row "target"); Recommend.error := None |};
     Recommend.rows_query :=
       {| Recommend.data := Some (repeat (ai_row "other") 51);
          Recommend.error := None |};
     Recommend.books_query := fun _ =>
       {| Recommend.data := Some []; Recommend.error := None |} |}.

Definition rank_request (k : Z) : Recommend.Env :=
  {| Recommend.body :=
       Some {| Recommend.bookId := Some "target";
               Recommend.topK := Some (of_Z k) |};
     Recommend.createClient := Ok rank_db |}.

(** A similarity that can be read off the rows: the first component of
    the candidate's embedding. *)
Definition first_component (a b : list number) : number :=
  match b with
  | [] => of_Z 0
  | x :: _ => x
  end.

Definition scored_row (name : string) (s : Z) : Recommend.AiRow :=
  {| Recommend.book_id := name;
     Recommend.embedding := Some [of_Z s];
     Recommend.tags := None;
     Recommend.summary := None |}.

(** Four rows, two of them with the same score. *)
Definition tied_rows : list Recommend.AiRow :=
  [scored_row "a" 1; scored_row "b" 3; scored_row "c" 1; scored_row "d" 2].

Definition rank_count (r : Recommend.Response) : option nat :=
  match r with
  | Recommend.Json recommendations => Some (length recommendations)
  | Recommend.ErrorJson _ _ => None
  end.

(** *** The web route *)

Definition dune : WebRecommend.Book :=
  {| WebRecommend.book_title := Some "Dune";
     WebRecommend.book_assignee := Some "Frank Herbert";
     WebRecommend.book_notes := None |}.

Definition web_db : WebRecommend.Supabase :=
  {| WebRecommend.target_query :=
       {| WebRecommend.data := Some dune; WebRecommend.error := None |};
     WebRecommend.titles_query :=
       {| WebRecommend.data := Some [Some "Dune"]; WebRecommend.error := None |} |}.

Definition web_body (k : Z) (seed : option WebRecommend.SeedValue)
    : WebRecommend.WebRecommendRequest :=
  {| WebRecommend.bookId := Some "b1";
     WebRecommend.topK := Some (of_Z k);
     WebRecommend.seed := seed |}.

Definition doc (t : string) : WebRecommend.Doc :=
  {| WebRecommend.doc_title := Some t;
     WebRecommend.doc_author_name := WebRecommend.AuthorArray ["F. Herbert"];
     WebRecommend.doc_key := None |}.

(** The network is down: every fetch rejects. *)
Definition network_down (n : nat) (q : string) (limit : number)
    : WebRecommend.FetchOutcome :=
  WebRecommend.Rejected "TypeError: fetch failed".

(** The primary search finds one book, the title-only search three more
    (and the first one again). *)
Definition primary_docs : list WebRecommend.Doc := [doc "Dune Messiah"].

Definition widened_docs : list WebRecommend.Doc :=
  [doc "dune messiah "; doc "Children of Dune"; doc "Emma"; doc "Hamlet"].

Definition sparse_network (n : nat) (q : string) (limit : number)
    : WebRecommend.FetchOutcome :=
  match n with
  | O => WebRecommend.Responded true (Some (Some primary_docs))
  | _ => WebRecommend.Responded true (Some (Some widened_docs))
  end.

Definition web_request
    (net : nat -> string -> number -> WebRecommend.FetchOutcome)
    (k : Z) (seed : option WebRecommend.SeedValue) (random : nat -> Q)
    : WebRecommend.Env :=
  {| WebRecommend.body := Some (web_body k seed);
     WebRecommend.createClient := Ok web_db;
     WebRecommend.network := net;
     WebRecommend.entropy := random |}.

(** *** The client *)

Definition shown (t : string) : Client.Recommendation :=
  {| Client.score := None; Client.tags := None;
     Client.summary := None; Client.book := None;
     Client.title := Some t; Client.author := None;
     Client.source := Some "openlibrary" |}.

Definition three_books : list Client.Recommendation :=
  [shown "Emma"; shown "Hamlet"; shown "Ulysses"].

Definition three_titles : gset string :=
  {[ "emma"; "hamlet"; "ulysses" ]}.

Definition item (t : string) : Client.ServerItem :=
  {| Client.item_title := Some t; Client.item_author := None;
     Client.item_source := Some "openlibrary"; Client.item_summary := None |}.

(** A server that answers with the given items. *)
Definition server_with (items : list Client.ServerItem)
    (r : Client.ServerRequest) : Client.FetchOutcome :=
  Client.Responded true
    (Some {| Client.json_recommendations := Some items;
             Client.json_error := None |}).

Definition showing (recs : list Client.Recommendation) : Client.State :=
  {| Client.recs := Some recs; Client.loading := false;
     Client.error := None; Client.onlyWeb := true |}.

Definition props (k : Z) : Client.Props :=
  {| Client.bookId := "b1"; Client.topK := Some (of_Z k) |}.

End Scenario.

(** ** Cosine similarity (recommend/route.ts)

    [cosineSimilarity] is arithmetic on doubles, which are the kernel's
    binary64 floats: [+], [*], [/] and [Math.sqrt] round to nearest, ties
    to even, in both. *)

Module Cosine.
Import JS PrimFloat.

(** [Number.EPSILON], 2^-52. *)
Definition EPSILON : float := 0x1p-52%float.

(** The three accumulators of the loop. *)
Record Sums : Type := {
  dot : float;
  na : float;
  nb : float
}.

(** One turn of the loop, at index [i]; [a[i] ?? 0] is 0 where the array
    has no element. *)
Definition step (a b : list float) (s : Sums) (i : nat) : Sums :=
  let va := default 0%float (a !! i) in
  let vb := default 0%float (b !! i) in
  {| dot := (dot s + va * vb)%float;
     na := (na s + va * va)%float;
     nb := (nb s + vb * vb)%float |}.

(** The loop [for (let i = 0; i < n; i++)], [n] the shorter length. *)
Definition sums (a b : list float) : Sums :=
  let n := Nat.min (length a) (length b) in
  foldl (step a b) {| dot := 0%float; na := 0%float; nb := 0%float |} (seq 0 n).

Definition cosineSimilarity (a b : list float) : float :=
  let s := sums a b in
  let denom := (sqrt (na s) * sqrt (nb s) + EPSILON)%float in
  (dot s / denom)%float.

(** The number a double stands for (the two zeros being one number). *)
Definition to_number (x : float) : number :=
  match FloatOps.Prim2SF x with
  | SpecFloat.S754_zero _ => Fin 0
  | SpecFloat.S754_infinity s => if s then NegInf else PosInf
  | SpecFloat.S754_nan => NaN
  | SpecFloat.S754_finite s m e =>
      Fin ((if s then -1 else 1) * (inject_Z (Zpos m) * Qpower 2 e))
  end.

(** The double nearest to an integer, and the double of a number: the
    quotient of the doubles of its numerator and denominator, which is
    the number itself when it is a double [m / 2^k] with [k] below 1024
    (both convert exactly, and so does the division). *)
Definition of_integer (z : Z) : float :=
  FloatOps.SF2Prim
    (SpecFloat.binary_normalize FloatOps.prec FloatOps.emax z 0 false).

Definition of_number (x : number) : float :=
  match x with
  | NaN => nan
  | NegInf => neg_infinity
  | PosInf => infinity
  | Fin q => (of_integer (Qnum q) / of_integer (Zpos (Qden q)))%float
  end.

(** [cosineSimilarity] as the rank route uses it, on embeddings given as
    numbers. *)
Definition similarity (a b : list number) : number :=
  to_number (cosineSimilarity (map of_number a) (map of_number b)).

End Cosine.

(** ** POST /api/ai/generate (generate/route.ts)

    The route that writes the rows of [book_ai] the rank route reads:
    a summary, tags and an embedding, from OpenAI when a key is
    configured and the calls succeed, and from the book itself
    otherwise. *)

Module Generate.
Import JS.
Import PrimFloat.

Record GenerateRequest : Type := {
  bookId : option string
}.

(** What comes of the chat completion: the call or the parsing of its
    body threw (which the route logs and ignores), or the body was read
    and [choices[0].message.content ?? ""] is [text]. *)
Inductive SummaryOutcome : Type :=
  | SummaryFailed
  | SummaryContent (text : string).

(** What comes of the embedding call: it threw, or the body was read and
    [data[0].embedding ?? null] is the value ([None] for null). *)
Inductive EmbeddingOutcome : Type :=
  | EmbeddingFailed
  | EmbeddingValue (embedding : option (list float)).

(** The payload of the upsert. *)
Record Row : Type := {
  book_id : string;
  summary : string;
  tags : list string;
  embedding : list float;
  updated_at : string
}.

Inductive Response : Type :=
  | Success (summary : string) (tags : list string)
  | ErrorJson (status : nat) (message : string).

Record Supabase : Type := {
  book_query : WebRecommend.QueryResult WebRecommend.Book;
  (** the error of [.upsert(payload, { onConflict: "book_id" })] *)
  upsert : Row -> option string
}.

(** Everything a request meets: its body ([Throw] when [request.json()]
    rejects), the database client, whether [OPENAI_API_KEY] is set, the
    two OpenAI calls by the text they are sent, and the clock. *)
Record Env : Type := {
  body : result GenerateRequest;
  createClient : result Supabase;
  OPENAI_KEY : bool;
  summary_call : string -> SummaryOutcome;
  embedding_call : string -> EmbeddingOutcome;
  now : string
}.

(** [s.split(sep)] for a separator of one character. *)
Fixpoint split_at (sep : ascii) (s : string) (piece : string) : list string :=
  match s with
  | EmptyString => [piece]
  | String c s' =>
      if bool_decide (c = sep) then piece :: split_at sep s' ""
      else split_at sep s' (piece +:+ String c "")
  end.

Definition split (sep : ascii) (s : string) : list string := split_at sep s "".

(** [s.split(/\s+/)]: the separators are the maximal runs of white space;
    [after_space] tells that the character before was one. *)
Fixpoint split_runs (s : string) (piece : string) (after_space : bool)
    : list string :=
  match s with
  | EmptyString => [piece]
  | String c s' =>
      if is_white_space c
      then if after_space then split_runs s' "" true
           else piece :: split_runs s' "" true
      else split_runs s' (piece +:+ String c "") false
  end.

Definition split_white_space (s : string) : list string := split_runs s "" false.

(** [s.includes(c)] for a string [c] of one character. *)
Fixpoint includes_char (c : ascii) (s : string) : bool :=
  match s with
  | EmptyString => false
  | String c' s' => bool_decide (c' = c) || includes_char c s'
  end.

Definition newline : ascii := ascii_of_nat 10.
Definition comma : ascii := ascii_of_nat 44.
Definition quote : ascii := ascii_of_nat 34.

(** [[title, assignee, notes].filter(Boolean).join("\n\n")] *)
Definition textToSummarize (b : WebRecommend.Book) : string :=
  join (String newline (String newline ""))
    (List.filter nonempty
       (omap id [WebRecommend.book_title b; WebRecommend.book_assignee b;
                 WebRecommend.book_notes b])).

(** [x || y] on strings that may be missing. *)
Definition or_string (x : option string) (y : string) : string :=
  if nonempty (default "" x) then default "" x else y.

(** The summary and the tags read from the completion: the trimmed text,
    and the pieces of its last line if that has a comma. *)
Definition parsed_tags (summary : string) : list string :=
  let lastLine := default "" (last (split newline summary)) in
  if includes_char comma lastLine
  then List.filter nonempty (map trim (take 6 (split comma lastLine)))
  else [].

Definition generated (o : SummaryOutcome) : string * list string :=
  match o with
  | SummaryFailed => ("", [])
  | SummaryContent text => (trim text, parsed_tags (trim text))
  end.

(** The fallbacks.  A missing title prints as [null] in the template. *)
Definition fallback_summary (b : WebRecommend.Book) : string :=
  let notes := default "" (WebRecommend.book_notes b) in
  if nonempty notes && nonempty (substring 0 200 notes)
  then substring 0 200 notes
  else "A book titled " +:+ String quote (default "null" (WebRecommend.book_title b))
       +:+ String quote "".

Definition fallback_tags (b : WebRecommend.Book) : list string :=
  List.filter nonempty
    (map toLowerCase
       (take 4 (split_white_space (default "" (WebRecommend.book_title b))))).

(** The mock embedding.  [v] is a sum of integers below 97, exact in a
    double; [(v % 100) / 100] is the double nearest to that many
    hundredths, which [toFixed(4)] prints with its two decimals and
    [Number] reads back. *)
Definition charCodeAt (s : string) (j : nat) : option Z :=
  (fun c => Z.of_nat (nat_of_ascii c)) <$> String.get j s.

Definition mock_sum (seed : string) (i : nat) : Z :=
  foldl (fun v j => v + default 0 (charCodeAt seed j) mod 97)%Z 0%Z
        (seq i (String.length seed - i)).

Definition hundredths (k : Z) : float :=
  (of_uint63 (Uint63.of_Z k) / 100)%float.

Definition mock_component (seed : string) (i : nat) : float :=
  hundredths (mock_sum seed i mod 100).

Definition mock_embedding (seed : string) : list float :=
  map (mock_component seed) (seq 0 153).

(** [String(textToSummarize || bookData.title || "")] *)
Definition mock_seed (b : WebRecommend.Book) : string :=
  or_string (Some (or_string (Some (textToSummarize b))
                             (default "" (WebRecommend.book_title b)))) "".

(** The payload the route builds for a book. *)
Definition payload (env : Env) (id : string) (b : WebRecommend.Book) : Row :=
  let text := textToSummarize b in
  let '(summary, tags) :=
    if OPENAI_KEY env then generated (summary_call env text) else ("", []) in
  let embedding :=
    if OPENAI_KEY env
    then match embedding_call env
                 (or_string (Some text) (default "" (WebRecommend.book_title b))) with
         | EmbeddingFailed => None
         | EmbeddingValue e => e
         end
    else None in
  let summary := if nonempty summary then summary else fallback_summary b in
  let tags := match tags with [] => fallback_tags b | _ => tags end in
  let embedding := default (mock_embedding (mock_seed b)) embedding in
  {| book_id := id; summary := summary; tags := tags; embedding := embedding;
     updated_at := now env |}.

(** The body of the [try] block: the response, and the row written when
    the upsert went through. *)
Definition handle (env : Env) : result (Response * option Row) :=
  match body env with
  | Throw e => Throw e
  | Ok b =>
      if negb (nonempty (default "" (bookId b)))
      then Ok (ErrorJson 400 "Missing bookId", None)
      else
        match createClient env with
        | Throw e => Throw e
        | Ok db =>
            match WebRecommend.error (book_query db),
                  WebRecommend.data (book_query db) with
            | Some msg, _ => Ok (ErrorJson 500 msg, None)
            | None, None => Ok (ErrorJson 404 "Book not found", None)
            | None, Some book =>
                let row := payload env (default "" (bookId b)) book in
                match upsert db row with
                | Some msg => Ok (ErrorJson 500 msg, None)
                | None => Ok (Success (summary row) (tags row), Some row)
                end
            end
        end
  end.

Definition POST (env : Env) : Response * option Row :=
  match handle env with
  | Ok r => r
  | Throw e => (ErrorJson 500 e, None)
  end.

(** The row as the rank route reads it back from [book_ai]. *)
Definition to_ai_row (r : Row) : Recommend.AiRow :=
  {| Recommend.book_id := book_id r;
     Recommend.embedding := Some (map Cosine.to_number (embedding r));
     Recommend.tags := Some (tags r);
     Recommend.summary := Some (summary r) |}.

End Generate.

(** ** The client: recommendations from the rank route
       (ai-recommendations.tsx, [fetchRecommendations]) *)

Module ClientRank.
Import JS Client.

(** [hay.includes(needle)] *)
Fixpoint includes (needle hay : string) : bool :=
  String.prefix needle hay
  || match hay with
     | EmptyString => false
     | String _ rest => includes needle rest
     end.

(** The body of an answer of [/api/ai/recommend]; its error is [None]
    when the field is missing or not a string. *)
Record RankJson : Type := {
  rank_recommendations : option (list Recommendation);
  rank_error : option string
}.

Definition empty_rank_json : RankJson :=
  {| rank_recommendations := None; rank_error := None |}.

(** The outcome of one call: the promise of [fetch] rejects, or a
    response arrives with its [ok] flag and a body ([None] when
    [res.json()] fails, which the component reads as [{}]). *)
Inductive RankOutcome : Type :=
  | RankRejected (e : string)
  | RankResponded (ok : bool) (json : option RankJson).

(** The outcome of the call to [/api/ai/generate], the body given by its
    [error] field. *)
Inductive GenerateOutcome : Type :=
  | GenerateRejected (e : string)
  | GenerateResponded (ok : bool) (error : option string).

(** The servers the component talks to: the answer to the n-th call to
    the rank route, the answer of the generate route, and the web
    route. *)
Record Server : Type := {
  recommend : nat -> RankOutcome;
  generate : GenerateOutcome;
  web : ServerRequest -> FetchOutcome
}.

(** What the function does towards the outside, in order. *)
Inductive Action : Type :=
  | PostRecommend (bookId : string) (topK : number)
  | PostGenerate (bookId : string)
  | PostWebRecommend (r : ServerRequest)
  | Sleep (ms : Z).

(** [/no ai data|target embedding|not available/i.test(e)] *)
Definition matches_missing_data (e : string) : bool :=
  let l := toLowerCase e in
  includes "no ai data" l || includes "target embedding" l
  || includes "not available" l.

Definition needsGeneration (ok : bool) (error : option string) : bool :=
  negb ok
  && match error with
     | Some e => matches_missing_data e
     | None => false
     end.

Definition backoff : list Z := [500; 1000; 2000; 4000; 8000]%Z.

(** The body [{ bookId, topK }], the prop [topK] defaulting to 5. *)
Definition post (p : Props) : Action :=
  PostRecommend (bookId p) (default (of_Z 5) (topK p)).

Definition in_progress : string :=
  "AI metadata generation is in progress. Please try again in a few seconds.".

(** The polling loop over the remaining delays; [n] calls to the rank
    route went before.  It returns the body of the first answer that is
    ok, and throws when a call is rejected or the delays run out. *)
Fixpoint poll (p : Props) (server : Server) (delays : list Z) (n : nat)
    : result RankJson * list Action :=
  match delays with
  | [] =>
      (Throw in_progress, [])
  | ms :: rest =>
      match recommend server n with
      | RankRejected e => (Throw e, [Sleep ms; post p])
      | RankResponded ok json =>
          if ok then (Ok (default empty_rank_json json), [Sleep ms; post p])
          else
            let '(r, log) := poll p server rest (S n) in
            (r, Sleep ms :: post p :: log)
      end
  end.

(** The state the [catch] and the success path leave. *)
Definition failed (st : State) (msg : string) : State :=
  {| recs := Some []; loading := false; error := Some msg;
     onlyWeb := onlyWeb st |}.

Definition succeeded (st : State) (json : RankJson) : State :=
  {| recs := Some (default [] (rank_recommendations json)); loading := false;
     error := None; onlyWeb := onlyWeb st |}.

(** [fetchRecommendations()]: the state it leaves and what it did, given
    the props and the state it was created with. *)
Definition fetchRecommendations (p : Props) (st : State) (server : Server)
    (entropy : nat -> Q) : State * list Action :=
  if onlyWeb st
  then (fetchWebRecommendations p st (web server) entropy None None,
        [PostWebRecommend (request p None)])
  else
    match recommend server 0 with
    | RankRejected e => (failed st e, [post p])
    | RankResponded ok json =>
        let json := default empty_rank_json json in
        if needsGeneration ok (rank_error json) then
          match generate server with
          | GenerateRejected e => (failed st e, [post p; PostGenerate (bookId p)])
          | GenerateResponded gok gerr =>
              if negb gok
              then (failed st (Generate.or_string gerr "Failed to generate AI metadata"),
                    [post p; PostGenerate (bookId p)])
              else
                match poll p server backoff 1 with
                | (Throw e, log) =>
                    (failed st e, post p :: PostGenerate (bookId p) :: log)
                | (Ok json, log) =>
                    (succeeded st json, post p :: PostGenerate (bookId p) :: log)
                end
          end
        else if negb ok
        then (failed st (Generate.or_string (rank_error json)
                           "Failed to fetch recommendations"),
              [post p])
        else (succeeded st json, [post p])
    end.



Definition sleeps (log : list Action) : list Z :=
  omap (fun a => match a with Sleep ms => Some ms | _ => None end) log.

(** What the component reads of an answer of the rank route: whether the
    status is one of 200 to 299, and the error of the body. *)
Definition answer_ok (r : Recommend.Response) : bool :=
  match r with
  | Recommend.Json _ => true
  | Recommend.ErrorJson status _ => (200 <=? status)%nat && (status <=? 299)%nat
  end.

Definition answer_error (r : Recommend.Response) : option string :=
  match r with
  | Recommend.Json _ => None
  | Recommend.ErrorJson _ message => Some message
  end.

End ClientRank.

(** ** The catalogue: search and creation
       (table-view.tsx, books-manager.tsx, add-new.tsx) *)

Module Catalog.
Import JS.

Record Book : Type := {
  id : string;
  title : option string;
  assignee : option string;
  book_type : option string;
  bookType : option string;
  status : option string;
  notes : option string
}.

(** [b.book_type ?? b.bookType ?? ""] *)
Definition type_of (b : Book) : string :=
  match book_type b with
  | Some t => t
  | None => default "" (bookType b)
  end.

(** The predicate both components filter with, [q] the query. *)
Definition matches (q : string) (b : Book) : bool :=
  ClientRank.includes q (toLowerCase (default "" (title b)))
  || ClientRank.includes q (toLowerCase (default "" (assignee b)))
  || ClientRank.includes q (toLowerCase (type_of b))
  || ClientRank.includes q (toLowerCase (default "" (notes b))).

(** [filteredBooks] of the table; the prop [search] may be missing. *)
Definition filteredBooks (search : option string) (books : list Book)
    : list Book :=
  if nonempty (default "" search) && nonempty (trim (default "" search))
  then List.filter (matches (toLowerCase (trim (default "" search)))) books
  else books.

(** [filteredCount] of the manager. *)
Definition filteredCount (search : string) (books : list Book) : nat :=
  let q := toLowerCase (trim search) in
  if negb (nonempty q) then length books
  else length (List.filter (matches q) books).

(** The form of [AddNew] and the row [handleCreate] inserts; [None] when
    it stops with "Title is required". *)
Record Form : Type := {
  form_title : string;
  form_bookType : string;
  form_assignee : string;
  form_status : string;
  form_dueDate : string;
  form_notes : string
}.

Record NewBook : Type := {
  new_title : string;
  new_assignee : string;
  new_book_type : string;
  new_status : string;
  new_due_date : option string;
  new_notes : string
}.

Definition payload (f : Form) : option NewBook :=
  if negb (nonempty (trim (form_title f))) then None
  else
    Some {| new_title := trim (form_title f);
            new_assignee := if nonempty (trim (form_assignee f))
                            then trim (form_assignee f) else "N/A";
            new_book_type := form_bookType f;
            new_status := form_status f;
            new_due_date := if nonempty (form_dueDate f)
                            then Some (form_dueDate f) else None;
            new_notes := form_notes f |}.

(** The inserted row as the routes select it from [books]. *)
Definition as_book (b : NewBook) : WebRecommend.Book :=
  {| WebRecommend.book_title := Some (new_title b);
     WebRecommend.book_assignee := Some (new_assignee b);
     WebRecommend.book_notes := Some (new_notes b) |}.

End Catalog.

(** ** Further requests *)

Module Cases.
Import JS.

(** The web route asked for three recommendations with the seed 7, on the
    network of [Scenario.sparse_network]. *)
Definition seeded_request : WebRecommend.Env :=
  Scenario.web_request Scenario.sparse_network 3
    (Some (WebRecommend.SeedNumber (of_Z 7))) (fun _ => 0%Q).

(** The same request while the network is down. *)
Definition offline_request : WebRecommend.Env :=
  Scenario.web_request Scenario.network_down 3 None (fun _ => 0%Q).

Definition recommendations_of (r : WebRecommend.Response)
    : list WebRecommend.Candidate :=
  match r with
  | WebRecommend.Json recommendations => recommendations
  | WebRecommend.ErrorJson _ _ => []
  end.

(** The database of [Scenario.rank_db] when the query for the book
    details fails. *)
Definition rank_db_without_details : Recommend.Supabase :=
  {| Recommend.target_query := Recommend.target_query Scenario.rank_db;
     Recommend.rows_query := Recommend.rows_query Scenario.rank_db;
     Recommend.books_query := fun _ =>
       {| Recommend.data := None; Recommend.error := Some "timeout" |} |}.

Definition rank_request_without_details (k : Z) : Recommend.Env :=
  {| Recommend.body := Recommend.body (Scenario.rank_request k);
     Recommend.createClient := Ok rank_db_without_details |}.

(** Whether a string has a white-space character. *)
Fixpoint has_white_space (s : string) : bool :=
  match s with
  | EmptyString => false
  | String c s' => is_white_space c || has_white_space s'
  end.

(** The generate route asked for the book of [Scenario.dune], without an
    OpenAI key; the upsert goes through. *)
Definition generate_db : Generate.Supabase :=
  {| Generate.book_query := WebRecommend.target_query Scenario.web_db;
     Generate.upsert := fun _ => None |}.

Definition generate_request : Generate.Env :=
  {| Generate.body := Ok {| Generate.bookId := Some "b1" |};
     Generate.createClient := Ok generate_db;
     Generate.OPENAI_KEY := false;
     Generate.summary_call := fun _ => Generate.SummaryFailed;
     Generate.embedding_call := fun _ => Generate.EmbeddingFailed;
     Generate.now := "2024-01-01T00:00:00.000Z" |}.

(** The row that request writes. *)
Definition generated_row : Generate.Row :=
  Generate.payload generate_request "b1" Scenario.dune.

(** A database whose query for the book fails, for both routes. *)
Definition failing_query : WebRecommend.QueryResult WebRecommend.Book :=
  {| WebRecommend.data := None; WebRecommend.error := Some "connection reset" |}.

Definition failing_web_request : WebRecommend.Env :=
  {| WebRecommend.body := Some (Scenario.web_body 3 None);
     WebRecommend.createClient :=
       Ok {| WebRecommend.target_query := failing_query;
             WebRecommend.titles_query :=
               WebRecommend.titles_query Scenario.web_db |};
     WebRecommend.network := Scenario.network_down;
     WebRecommend.entropy := fun _ => 0%Q |}.

Definition failing_generate_request : Generate.Env :=
  {| Generate.body := Ok {| Generate.bookId := Some "b1" |};
     Generate.createClient :=
       Ok {| Generate.book_query := failing_query;
             Generate.upsert := fun _ => None |};
     Generate.OPENAI_KEY := false;
     Generate.summary_call := fun _ => Generate.SummaryFailed;
     Generate.embedding_call := fun _ => Generate.EmbeddingFailed;
     Generate.now := "2024-01-01T00:00:00.000Z" |}.

(** The rank route asked about a book whose row of [book_ai] is [row]. *)
Definition rank_request_for (row : Recommend.AiRow) : Recommend.Env :=
  {| Recommend.body :=
       Some {| Recommend.bookId := Some "b1"; Recommend.topK := None |};
     Recommend.createClient :=
       Ok {| Recommend.target_query :=
               {| Recommend.data := Some row; Recommend.error := None |};
             Recommend.rows_query := Recommend.rows_query Scenario.rank_db;
             Recommend.books_query := Recommend.books_query Scenario.rank_db |} |}.

(** The component in the mode that shows local recommendations. *)
Definition rank_mode : Client.State :=
  {| Client.recs := None; Client.loading := false;
     Client.error := None; Client.onlyWeb := false |}.

Definition missing (msg : string) : ClientRank.RankOutcome :=
  ClientRank.RankResponded false
    (Some {| ClientRank.rank_recommendations := None;
             ClientRank.rank_error := Some msg |}).

(** A rank route that has no data for the book until its fourth call. *)
Definition warming_server : ClientRank.Server :=
  {| ClientRank.recommend := fun n =>
       if (n <? 3)%nat then missing "No AI data found for target book"
       else ClientRank.RankResponded true
              (Some {| ClientRank.rank_recommendations :=
                         Some [Scenario.shown "Emma"];
                       ClientRank.rank_error := None |});
     ClientRank.generate := ClientRank.GenerateResponded true None;
     ClientRank.web := Scenario.server_with [] |}.

(** A rank route that never has an embedding for the book. *)
Definition cold_server : ClientRank.Server :=
  {| ClientRank.recommend := fun _ => missing "Target embedding not available";
     ClientRank.generate := ClientRank.GenerateResponded true None;
     ClientRank.web := Scenario.server_with [] |}.

(** The rank route asked about a book that has no row in [book_ai]. *)
Definition rank_request_without_row : Recommend.Env :=
  {| Recommend.body :=
       Some {| Recommend.bookId := Some "b1"; Recommend.topK := None |};
     Recommend.createClient :=
       Ok {| Recommend.target_query :=
               {| Recommend.data := None; Recommend.error := None |};
             Recommend.rows_query := Recommend.rows_query Scenario.rank_db;
             Recommend.books_query := Recommend.books_query Scenario.rank_db |} |}.

(** The form filled in for a new book. *)
Definition dune_form : Catalog.Form :=
  {| Catalog.form_title := "  Dune ";
     Catalog.form_bookType := "other";
     Catalog.form_assignee := " ";
     Catalog.form_status := "checked-in";
     Catalog.form_dueDate := EmptyString;
     Catalog.form_notes := EmptyString |}.

Definition dune_row : Catalog.NewBook :=
  {| Catalog.new_title := "Dune";
     Catalog.new_assignee := "N/A";
     Catalog.new_book_type := "other";
     Catalog.new_status := "checked-in";
     Catalog.new_due_date := None;
     Catalog.new_notes := EmptyString |}.

(** Embeddings with large components: the products of the second row
    with the target overflow. *)
Definition large_target : list number := [of_Z (2 ^ 500); of_Z 0].

Definition large_row (name : string) (x y : Z) : Recommend.AiRow :=
  {| Recommend.book_id := name;
     Recommend.embedding := Some [of_Z x; of_Z y];
     Recommend.tags := None;
     Recommend.summary := None |}.

Definition large_rows : list Recommend.AiRow :=
  [large_row "b" 0 1; large_row "y" (2 ^ 600) 0; large_row "a" (2 ^ 500) 0].

(** The primary search finds one book whose title is a blank, the
    title-only search three books. *)
Definition blank_docs : list WebRecommend.Doc := [Scenario.doc " "].

Definition three_new_docs : list WebRecommend.Doc :=
  [Scenario.doc "Children of Dune"; Scenario.doc "Emma"; Scenario.doc "Hamlet"].

Definition blank_network (n : nat) (q : string) (limit : number)
    : WebRecommend.FetchOutcome :=
  match n with
  | O => WebRecommend.Responded true (Some (Some blank_docs))
  | _ => WebRecommend.Responded true (Some (Some three_new_docs))
  end.

End Cases.

(** * Properties *)

(** ** Numbers *)

Section NumberFacts.
Import JS.

Lemma ltb_Fin (a b : Q) : ltb (Fin a) (Fin b) = true <-> (a < b)%Q.
Proof.
  unfold ltb. rewrite negb_true_iff.
  destruct (Qle_bool b a) eqn:E.
  - apply Qle_bool_iff in E. split; [discriminate | intros H; lra].
  - split; [intros _ | reflexivity].
    destruct (Qlt_le_dec a b) as [L | L]; [exact L |].
    apply Qle_bool_iff in L. congruence.
Qed.

Lemma ltb_Fin_false (a b : Q) : ltb (Fin a) (Fin b) = false <-> (b <= a)%Q.
Proof.
  destruct (ltb (Fin a) (Fin b)) eqn:E.
  - apply ltb_Fin in E. split; [discriminate | intros H; lra].
  - split; [intros _ | reflexivity].
    destruct (Qlt_le_dec a b) as [L | L]; [| exact L].
    apply ltb_Fin in L. congruence.
Qed.

(** [Math.max(lo, Math.min(x, hi))] of a number that is not NaN lies
    between the finite bounds. *)
Lemma clamp_range (lo hi : Q) (x : number) :
  (lo <= hi)%Q -> x <> NaN ->
  exists q, Math_max (Fin lo) (Math_min x (Fin hi)) = Fin q /\ (lo <= q <= hi)%Q.
Proof.
  intros Hlh Hx. destruct x as [| | q |]; [congruence | | |].
  - unfold Math_min, Math_max. change (ltb (Fin hi) NegInf) with false.
    change (ltb (Fin lo) NegInf) with false. exists lo. split; [reflexivity | lra].
  - unfold Math_min. destruct (ltb (Fin hi) (Fin q)) eqn:E1; unfold Math_max.
    + destruct (ltb (Fin lo) (Fin hi)) eqn:E2.
      * exists hi. split; [reflexivity | lra].
      * apply ltb_Fin_false in E2. exists lo. split; [reflexivity | lra].
    + apply ltb_Fin_false in E1.
      destruct (ltb (Fin lo) (Fin q)) eqn:E2.
      * apply ltb_Fin in E2. exists q. split; [reflexivity | lra].
      * exists lo. split; [reflexivity | lra].
  - unfold Math_min. change (ltb (Fin hi) PosInf) with true. unfold Math_max.
    destruct (ltb (Fin lo) (Fin hi)) eqn:E2.
    + exists hi. split; [reflexivity | lra].
    + apply ltb_Fin_false in E2. exists lo. split; [reflexivity | lra].
Qed.

Lemma or_else_not_NaN (x : number) (q : Q) : or_else x (Fin q) <> NaN.
Proof. unfold or_else. destruct x; simpl; try congruence. destruct (negb _); congruence. Qed.

(** A slice from the start is a prefix of the array. *)
Lemma slice0_take {A : Type} (arr : list A) (e : number) :
  exists n, slice0 arr e = take n arr.
Proof.
  destruct e as [| | q |]; simpl.
  - exists 0%nat. reflexivity.
  - exists 0%nat. reflexivity.
  - destruct (_ <? 0)%Z; eauto.
  - exists (length arr). symmetry. apply firstn_all.
Qed.

(** For a bound [q >= 0] the slice has at most [q] elements. *)
Lemma slice0_length_le {A : Type} (arr : list A) (q : Q) (n : nat) :
  (0 <= q)%Q -> (q <= inject_Z (Z.of_nat n))%Q ->
  (length (slice0 arr (Fin q)) <= n)%nat.
Proof.
  intros H0 Hn. simpl.
  assert (Hk : (0 <= Qnum q ÷ Z.pos (Qden q) <= Z.of_nat n)%Z).
  { destruct q as [num den]. unfold Qle in *. simpl in *.
    assert (0 <= num)%Z by lia.
    rewrite Z.quot_div_nonneg by lia. split.
    - apply Z.div_pos; lia.
    - apply Z.div_le_upper_bound; lia. }
  destruct (_ <? 0)%Z eqn:E; [apply Z.ltb_lt in E; lia |].
  rewrite length_take. lia.
Qed.

End NumberFacts.

(** ** The shuffler *)

Section ShufflerFacts.
Import JS Shuffler.

(** The seeded generator started at 12345: its first draws, and the order
    it gives to ten items. *)
Lemma mulberry32_12345_draws :
  draws mulberry32_call 3 12345%Z
  = [(0xfacf78c5 # 2 ^ 32)%Q; (0x4e875100 # 2 ^ 32)%Q; (0x7bf4e2f2 # 2 ^ 32)%Q].
Proof. vm_compute. reflexivity. Qed.

Lemma mulberry32_12345_shuffle :
  shuffled_with (mulberry32 12345) [1; 2; 3; 4; 5; 6; 7; 8; 9; 10]%nat
  = [7; 5; 9; 1; 2; 8; 6; 4; 3; 10]%nat.
Proof. vm_compute. reflexivity. Qed.

(** A draw in [0, 1) selects an index in [0, i]. *)
Lemma pick_le (r : Q) (i : nat) : (0 <= r)%Q -> (r < 1)%Q -> (pick r i <= i)%nat.
Proof.
  intros H0 H1. unfold pick.
  set (m := (Z.of_nat i + 1)%Z).
  assert (Hm : (0 < inject_Z m)%Q).
  { change 0%Q with (inject_Z 0). rewrite <- Zlt_Qlt. lia. }
  assert (Hlt : (inject_Z (Qfloor (r * inject_Z m)) < inject_Z m)%Q).
  { eapply Qle_lt_trans; [apply Qfloor_le |]. nra. }
  rewrite <- Zlt_Qlt in Hlt. lia.
Qed.

(** Every draw of the seeded generator is in [0, 1). *)
Lemma mulberry32_call_range (a : Z) :
  (0 <= fst (mulberry32_call a))%Q /\ (fst (mulberry32_call a) < 1)%Q.
Proof.
  unfold mulberry32_call. cbv zeta. cbn [fst].
  match goal with |- context [wrap32 ?z # _] => generalize z end.
  intros z. unfold wrap32.
  pose proof (Z.mod_pos_bound z (2 ^ 32) ltac:(lia)) as Hb.
  unfold Qle, Qlt. cbn [Qnum Qden].
  change (Z.pos (2 ^ 32)) with (2 ^ 32)%Z. lia.
Qed.

(** The state of the seeded generator advances by the mixing constant at
    every call (rounded to a double once it exceeds 53 bits). *)
Lemma mulberry32_state_step (a : Z) (n : nat) :
  state_after mulberry32_call (S n) a
  = round53 (state_after mulberry32_call n a + 0x6d2b79f5)%Z.
Proof.
  revert a. induction n as [| n IH]; intros a.
  - reflexivity.
  - change (state_after mulberry32_call (S (S n)) a)
      with (state_after mulberry32_call (S n) (snd (mulberry32_call a))).
    rewrite IH. reflexivity.
Qed.

Lemma round53_small (z : Z) : (Z.abs z < 2 ^ 53)%Z -> round53 z = z.
Proof.
  intros H. unfold round53. destruct (Z.abs z <? 2 ^ 53)%Z eqn:E; [reflexivity |].
  apply Z.ltb_ge in E. lia.
Qed.

(** While the state fits in 53 bits it is the seed plus one constant per
    call. *)
Lemma mulberry32_state_exact (a : Z) (n : nat) :
  (0 <= a)%Z -> (a + Z.of_nat n * 0x6d2b79f5 < 2 ^ 53)%Z ->
  state_after mulberry32_call n a = (a + Z.of_nat n * 0x6d2b79f5)%Z.
Proof.
  intros Ha. induction n as [| n IH]; intros Hb.
  - simpl. lia.
  - rewrite mulberry32_state_step, IH by lia.
    rewrite round53_small by lia. lia.
Qed.

Section Arrays.
Context {T : Type}.
Implicit Types (l : list T) (σ : gmap nat (list T)).

(** Exchanging two positions of a list permutes it. *)
Lemma exchange_Permutation l (i j : nat) (x y : T) :
  l !! i = Some x -> l !! j = Some y -> <[j := x]> (<[i := y]> l) ≡ₚ l.
Proof.
  intros Hi Hj.
  pose proof (lookup_lt_Some _ _ _ Hi) as Li.
  pose proof (lookup_lt_Some _ _ _ Hj) as Lj.
  apply Permutation_inj. split; [by rewrite !length_insert |].
  exists (fun n => if decide (n = i) then j else if decide (n = j) then i else n).
  split.
  - intros n m. repeat case_decide; lia.
  - intros n. destruct (decide (n = j)) as [-> | Hnj].
    + rewrite list_lookup_insert_eq by (by rewrite length_insert).
      repeat case_decide; subst; congruence.
    + rewrite list_lookup_insert_ne by done.
      destruct (decide (n = i)) as [-> | Hni].
      * by rewrite list_lookup_insert_eq.
      * by rewrite list_lookup_insert_ne.
Qed.

(** Inside the array, [swap] does exchange the two elements. *)
Lemma swap_in_range σ (a i j : nat) l :
  σ !! a = Some l -> (i < length l)%nat -> (j <= i)%nat ->
  exists x y, l !! i = Some x /\ l !! j = Some y
    /\ swap a i j σ = <[a := <[j := x]> (<[i := y]> l)]> σ.
Proof.
  intros Ha Hi Hj.
  destruct (lookup_lt_is_Some_2 l i Hi) as [x Hx].
  destruct (lookup_lt_is_Some_2 l j ltac:(lia)) as [y Hy].
  exists x, y. unfold swap. by rewrite Ha, Hx, Hy.
Qed.

(** A step of the loop on a draw in [0, 1) exchanges two elements of the
    array: the branch of [swap] that leaves the store alone is not taken. *)
Lemma shuffle_loop_step_in_range {G : Type} (call : G -> Q * G) (a i : nat)
    σ (g : G) l :
  σ !! a = Some l -> (S i < length l)%nat ->
  (0 <= fst (call g))%Q -> (fst (call g) < 1)%Q ->
  exists x y,
    l !! S i = Some x /\ l !! pick (fst (call g)) (S i) = Some y
    /\ shuffle_loop call a (S i) σ g
       = shuffle_loop call a i
           (<[a := <[pick (fst (call g)) (S i) := x]> (<[S i := y]> l)]> σ)
           (snd (call g)).
Proof.
  intros Ha Hi H0 H1.
  destruct (swap_in_range σ a (S i) (pick (fst (call g)) (S i)) l Ha Hi
              (pick_le _ _ H0 H1)) as (x & y & Hx & Hy & E).
  exists x, y. split_and!; [done | done |].
  cbn [shuffle_loop]. destruct (call g) as [r g']. cbn [fst snd] in *. by rewrite E.
Qed.

Lemma swap_spec σ (a i j : nat) l :
  σ !! a = Some l -> exists l', swap a i j σ = <[a := l']> σ /\ l' ≡ₚ l.
Proof.
  intros Ha. unfold swap. rewrite Ha.
  destruct (l !! i) as [x |] eqn:Hx; [destruct (l !! j) as [y |] eqn:Hy |].
  - eexists. split; [reflexivity |]. by apply exchange_Permutation.
  - exists l. by rewrite insert_id.
  - exists l. by rewrite insert_id.
Qed.

(** The loop touches the array [a] only, and permutes it. *)
Lemma shuffle_loop_spec {G : Type} (call : G -> Q * G) (a i : nat) σ (g : G) l :
  σ !! a = Some l ->
  exists l', fst (shuffle_loop call a i σ g) = <[a := l']> σ /\ l' ≡ₚ l.
Proof.
  revert σ g l. induction i as [| i IH]; intros σ g l Ha.
  - exists l. simpl. by rewrite insert_id.
  - simpl. destruct (call g) as [r g'].
    destruct (swap_spec σ a (S i) (pick r (S i)) l Ha) as (l1 & -> & P1).
    destruct (IH (<[a := l1]> σ) g' l1) as (l2 & -> & P2).
    { apply lookup_insert_eq. }
    exists l2. rewrite insert_insert_eq. split; [done | by etrans].
Qed.

(** [shuffleArray] allocates a new array, fills it with a permutation of
    the argument, and leaves the rest of the store as it was. *)
Lemma shuffleArray_spec (arr : nat) (rand : generator) σ l :
  σ !! arr = Some l ->
  exists a l', shuffleArray arr rand σ = (a, <[a := l']> σ)
    /\ σ !! a = None /\ l' ≡ₚ l.
Proof.
  intros Harr. unfold shuffleArray, slice. rewrite Harr. cbn [from_option id].
  set (a := fresh (dom σ)).
  assert (Hfresh : σ !! a = None).
  { apply not_elem_of_dom. apply is_fresh. }
  rewrite lookup_insert_eq. cbn [from_option id].
  destruct (shuffle_loop_spec (gen_call rand) a (length l - 1)
              (<[a := l]> σ) (gen_current rand) l) as (l' & E & P).
  { apply lookup_insert_eq. }
  exists a, l'. rewrite E, insert_insert_eq. done.
Qed.

Lemma shuffle_shuffleArray (arr : nat) (entropy : nat -> Q) σ :
  shuffle arr entropy σ = shuffleArray arr (Math_random entropy) σ.
Proof. reflexivity. Qed.

Lemma shuffled_with_Permutation (rand : generator) l :
  shuffled_with rand l ≡ₚ l.
Proof.
  unfold shuffled_with.
  destruct (shuffleArray_spec 0 rand {[ 0%nat := l ]} l) as (a & l' & -> & _ & P).
  { apply lookup_singleton_eq. }
  rewrite lookup_insert_eq. done.
Qed.

Lemma client_shuffled_Permutation (entropy : nat -> Q) l :
  client_shuffled entropy l ≡ₚ l.
Proof. apply (shuffled_with_Permutation (Math_random entropy)). Qed.

End Arrays.
End ShufflerFacts.

(** ** Dedup and merge of the web route *)

Section DedupFacts.
Import JS WebRecommend.
Implicit Types (l docs : list Candidate) (seen : gset string) (d : Candidate).

Lemma nonempty_true (s : string) : nonempty s = true <-> s <> "".
Proof. unfold nonempty. rewrite negb_true_iff, bool_decide_eq_false. done. Qed.

Lemma nonempty_false (s : string) : nonempty s = false <-> s = "".
Proof. unfold nonempty. rewrite negb_false_iff, bool_decide_eq_true. done. Qed.

Lemma titles_nil : titles [] = ∅.
Proof. reflexivity. Qed.

Lemma titles_cons d l : titles (d :: l) = {[ normalized_title d ]} ∪ titles l.
Proof. reflexivity. Qed.

Lemma titles_app l1 l2 : titles (l1 ++ l2) = titles l1 ∪ titles l2.
Proof. unfold titles. rewrite map_app, list_to_set_app_L. done. Qed.

Lemma elem_of_titles (t : string) l :
  t ∈ titles l <-> t ∈ map normalized_title l.
Proof. unfold titles. apply elem_of_list_to_set. Qed.

(** The pushes of the dedup loop go to the end of what was there. *)
Lemma dedup_loop_acc seen (acc : list Candidate) l :
  dedup_loop seen acc l = acc ++ dedup_loop seen [] l.
Proof.
  revert seen acc. induction l as [| d l IH]; intros seen acc; simpl.
  - by rewrite app_nil_r.
  - destruct (negb _); [apply IH |].
    destruct (bool_decide _); [apply IH |].
    rewrite (IH _ (acc ++ [d])), (IH _ [d]). by rewrite <- app_assoc.
Qed.

Lemma dedup_loop_cons seen d l :
  dedup_loop seen [] (d :: l)
  = if nonempty (normalized_title d)
       && negb (bool_decide (normalized_title d ∈ seen))
    then d :: dedup_loop ({[ normalized_title d ]} ∪ seen) [] l
    else dedup_loop seen [] l.
Proof.
  cbn [dedup_loop]. fold (normalized_title d).
  destruct (nonempty (normalized_title d)); cbn [negb andb]; [| done].
  destruct (bool_decide _); cbn [negb]; [done |].
  by rewrite dedup_loop_acc.
Qed.

(** What the loop keeps has a title that is neither empty nor seen. *)
Lemma dedup_loop_elem seen l d :
  d ∈ dedup_loop seen [] l ->
  d ∈ l /\ normalized_title d <> "" /\ normalized_title d ∉ seen.
Proof.
  revert seen. induction l as [| x l IH]; intros seen; [by intros ?%elem_of_nil |].
  rewrite dedup_loop_cons.
  destruct (nonempty (normalized_title x)) eqn:Hne; cbn [andb].
  - destruct (bool_decide (normalized_title x ∈ seen)) eqn:Hseen; cbn [negb].
    + intros H. apply IH in H as (? & ? & ?). split_and!; [by right | done | done].
    + apply bool_decide_eq_false in Hseen. apply nonempty_true in Hne.
      intros H. apply elem_of_cons in H as [-> | H].
      * split_and!; [by left | done | done].
      * apply IH in H as (? & ? & ?). split_and!; [by right | done | set_solver].
  - intros H. apply IH in H as (? & ? & ?). split_and!; [by right | done | done].
Qed.

Lemma dedup_loop_NoDup seen l :
  NoDup (map normalized_title (dedup_loop seen [] l)).
Proof.
  revert seen. induction l as [| x l IH]; intros seen; [constructor |].
  rewrite dedup_loop_cons. destruct (_ && _); [| apply IH].
  cbn [map]. constructor; [| apply IH].
  intros Hin. apply list_elem_of_In, in_map_iff in Hin as (d & Hd & Hin).
  apply list_elem_of_In, dedup_loop_elem in Hin as (_ & _ & Hn). set_solver.
Qed.

Lemma dedup_loop_sublist seen l : dedup_loop seen [] l `sublist_of` l.
Proof.
  revert seen. induction l as [| x l IH]; intros seen; [constructor |].
  rewrite dedup_loop_cons. destruct (_ && _).
  - apply sublist_skip, IH.
  - apply sublist_cons, IH.
Qed.

(** Every title that is neither empty nor seen is kept once. *)
Lemma dedup_loop_covers seen l d :
  d ∈ l -> normalized_title d <> "" -> normalized_title d ∉ seen ->
  normalized_title d ∈ map normalized_title (dedup_loop seen [] l).
Proof.
  revert seen. induction l as [| x l IH]; intros seen; [by intros ?%elem_of_nil |].
  intros Hin Hne Hseen. rewrite dedup_loop_cons.
  destruct (decide (normalized_title x = normalized_title d)) as [E | E].
  - rewrite E. apply nonempty_true in Hne. rewrite Hne.
    rewrite bool_decide_eq_false_2 by done. cbn [negb andb map]. rewrite E. left.
  - apply elem_of_cons in Hin as [-> | Hin]; [done |].
    destruct (_ && _).
    + cbn [map]. right. apply IH; [done | done | set_solver].
    + by apply IH.
Qed.

(** Passing over [x] first is the same as having seen its title. *)
Lemma unseen_after_cons seen x l d :
  unseen_after seen (x :: l) d = unseen_after ({[ normalized_title x ]} ∪ seen) l d.
Proof.
  unfold unseen_after. cbn [map]. apply Bool.eq_iff_eq_true.
  rewrite !andb_true_iff, !negb_true_iff, !bool_decide_eq_false.
  rewrite elem_of_cons, elem_of_union, elem_of_singleton. tauto.
Qed.

Lemma unseen_after_seen seen x l d :
  normalized_title x ∈ seen ->
  unseen_after seen (x :: l) d = unseen_after seen l d.
Proof.
  intros H. rewrite unseen_after_cons.
  replace ({[normalized_title x]} ∪ seen) with seen by set_solver. done.
Qed.

Lemma unseen_after_empty seen x l d :
  normalized_title x = "" ->
  nonempty (normalized_title d) && unseen_after seen (x :: l) d
  = nonempty (normalized_title d) && unseen_after seen l d.
Proof.
  intros Hx. destruct (nonempty (normalized_title d)) eqn:Hd; [| done].
  apply nonempty_true in Hd. cbn [andb]. unfold unseen_after. cbn [map].
  f_equal. f_equal. apply bool_decide_ext. rewrite elem_of_cons.
  split; [intros [E | H]; [congruence | exact H] | by right].
Qed.

(** The loop run on a list extended by [d]: [d] is pushed exactly when its
    title is not empty and occurs neither in [seen] nor before it. *)
Lemma dedup_loop_snoc seen l d :
  dedup_loop seen [] (l ++ [d])
  = dedup_loop seen [] l
    ++ (if nonempty (normalized_title d) && unseen_after seen l d then [d] else []).
Proof.
  revert seen. induction l as [| x l IH]; intros seen.
  - cbn [app]. rewrite dedup_loop_cons. unfold unseen_after. cbn [map].
    rewrite (bool_decide_eq_false_2 (_ ∈ [])) by apply not_elem_of_nil.
    rewrite andb_true_r. by destruct (_ && _).
  - rewrite <- app_comm_cons, !dedup_loop_cons.
    destruct (nonempty (normalized_title x)) eqn:Hne; cbn [andb].
    + destruct (bool_decide (normalized_title x ∈ seen)) eqn:Hseen; cbn [negb].
      * apply bool_decide_eq_true in Hseen.
        by rewrite IH, unseen_after_seen.
      * by rewrite IH, <- unseen_after_cons.
    + apply nonempty_false in Hne. by rewrite IH, unseen_after_empty.
Qed.

(** The number of candidates kept is the number of titles that are neither
    empty nor seen. *)
Lemma dedup_loop_length seen l :
  length (dedup_loop seen [] l) = size (titles l ∖ ({[ "" ]} ∪ seen)).
Proof.
  revert seen. induction l as [| x l IH]; intros seen.
  - rewrite titles_nil. replace (∅ ∖ _) with (∅ : gset string) by set_solver.
    by rewrite size_empty.
  - rewrite dedup_loop_cons, titles_cons.
    destruct (nonempty (normalized_title x)) eqn:Hne; cbn [andb].
    + apply nonempty_true in Hne.
      destruct (bool_decide (normalized_title x ∈ seen)) eqn:Hseen; cbn [negb].
      * apply bool_decide_eq_true in Hseen. rewrite IH. f_equal. set_solver.
      * apply bool_decide_eq_false in Hseen. cbn [length]. rewrite IH.
        replace (({[normalized_title x]} ∪ titles l) ∖ ({[""]} ∪ seen))
          with ({[normalized_title x]}
                ∪ titles l ∖ ({[""]} ∪ ({[normalized_title x]} ∪ seen))).
        -- rewrite (size_union (C:=gset string) {[normalized_title x]})
             by set_solver.
           by rewrite size_singleton.
        -- apply set_eq. intros t.
           destruct (decide (t = normalized_title x)); set_solver.
    + apply nonempty_false in Hne. rewrite IH. f_equal. set_solver.
Qed.

(** The merge loop of the widening pass. *)
Lemma merge_unique_acc seen (acc : list Candidate) docs :
  merge_unique seen acc docs = acc ++ merge_unique seen [] docs.
Proof.
  revert seen acc. induction docs as [| d docs IH]; intros seen acc; simpl.
  - by rewrite app_nil_r.
  - destruct (bool_decide _); [apply IH |].
    rewrite (IH _ (acc ++ [d])), (IH _ [d]). by rewrite <- app_assoc.
Qed.

Lemma merge_unique_cons seen d docs :
  merge_unique seen [] (d :: docs)
  = if bool_decide (normalized_title d ∈ seen) then merge_unique seen [] docs
    else d :: merge_unique ({[ normalized_title d ]} ∪ seen) [] docs.
Proof.
  cbn [merge_unique]. fold (normalized_title d).
  destruct (bool_decide _); [done |]. by rewrite merge_unique_acc.
Qed.

Lemma merge_unique_sublist seen docs : merge_unique seen [] docs `sublist_of` docs.
Proof.
  revert seen. induction docs as [| x l IH]; intros seen; [constructor |].
  rewrite merge_unique_cons. destruct (bool_decide _).
  - apply sublist_cons, IH.
  - apply sublist_skip, IH.
Qed.

Lemma merge_unique_snoc seen docs d :
  merge_unique seen [] (docs ++ [d])
  = merge_unique seen [] docs ++ (if unseen_after seen docs d then [d] else []).
Proof.
  revert seen. induction docs as [| x l IH]; intros seen.
  - cbn [app]. rewrite merge_unique_cons. unfold unseen_after. cbn [map].
    rewrite (bool_decide_eq_false_2 (_ ∈ [])) by apply not_elem_of_nil.
    rewrite andb_true_r. by destruct (bool_decide _).
  - rewrite <- app_comm_cons, !merge_unique_cons.
    destruct (bool_decide (normalized_title x ∈ seen)) eqn:Hseen.
    + apply bool_decide_eq_true in Hseen. by rewrite IH, unseen_after_seen.
    + by rewrite IH, <- unseen_after_cons.
Qed.

Lemma merge_unique_titles seen docs :
  titles (merge_unique seen [] docs) ∪ seen = titles docs ∪ seen.
Proof.
  revert seen. induction docs as [| x l IH]; intros seen; [done |].
  rewrite merge_unique_cons, titles_cons.
  destruct (bool_decide (normalized_title x ∈ seen)) eqn:Hseen.
  - apply bool_decide_eq_true in Hseen. rewrite IH. set_solver.
  - rewrite titles_cons.
    transitivity (titles (merge_unique ({[normalized_title x]} ∪ seen) [] l)
                  ∪ ({[normalized_title x]} ∪ seen)); [set_solver |].
    rewrite IH. set_solver.
Qed.

End DedupFacts.

(** ** Sorting by score *)

Section SortFacts.
Import JS Recommend.
Implicit Types (x y z : number) (a b c : Scored) (l : list Scored).

Lemma leb_refl x : x <> NaN -> leb x x = true.
Proof.
  destruct x as [| | q |]; intros H; try done.
  unfold leb. rewrite negb_true_iff. apply ltb_Fin_false. lra.
Qed.

Lemma leb_total x y : x <> NaN -> y <> NaN -> ltb x y = false -> leb y x = true.
Proof.
  intros Hx Hy H. destruct x, y; try done. unfold leb. by rewrite H.
Qed.

Lemma ltb_leb x y : ltb x y = true -> leb x y = true.
Proof.
  destruct x as [| | p |], y as [| | q |]; try done.
  intros H%ltb_Fin. unfold leb. rewrite negb_true_iff. apply ltb_Fin_false. lra.
Qed.

Lemma leb_trans x y z : leb x y = true -> leb y z = true -> leb x z = true.
Proof.
  destruct x as [| | p |], y as [| | q |], z as [| | r |]; try done.
  unfold leb. rewrite !negb_true_iff, !ltb_Fin_false. lra.
Qed.

Lemma eqb_trans_ltb x y s : eqb x s = true -> eqb y s = true -> ltb x y = false.
Proof.
  unfold eqb. rewrite !andb_true_iff. intros [Hxs Hsx] [Hys Hsy].
  pose proof (leb_trans _ _ _ Hys Hsx) as H.
  destruct x, y; try done. unfold leb in H. by apply negb_true_iff in H.
Qed.

(** The comparator puts [a] after [b] exactly when [a] scores less. *)
Lemma sorts_after_by_score a b :
  sorts_after by_score a b = ltb (score a) (score b).
Proof.
  unfold sorts_after, by_score.
  destruct (score a) as [| | p |], (score b) as [| | q |]; try reflexivity.
  cbn [sub]. destruct (ltb (Fin p) (Fin q)) eqn:E.
  - apply ltb_Fin in E. apply ltb_Fin. lra.
  - apply ltb_Fin_false in E. apply ltb_Fin_false. lra.
Qed.

Lemma sort_insert_Permutation a l : sort_insert by_score a l ≡ₚ a :: l.
Proof.
  induction l as [| b l IH]; [done |]. cbn [sort_insert].
  destruct (sorts_after by_score a b); [| done].
  rewrite IH. apply Permutation_swap.
Qed.

Lemma Array_sort_Permutation l : Array_sort by_score l ≡ₚ l.
Proof.
  induction l as [| a l IH]; [done |]. cbn [Array_sort foldr].
  fold (Array_sort by_score l). rewrite sort_insert_Permutation. by f_equiv.
Qed.

Lemma sort_insert_sorted a l :
  score a <> NaN -> Forall (fun b => score b <> NaN) l ->
  StronglySorted descends l -> StronglySorted descends (sort_insert by_score a l).
Proof.
  intros Ha Hl Hs. induction l as [| b l IH]; cbn [sort_insert].
  - repeat constructor.
  - apply Forall_cons in Hl as [Hb Hl]. apply StronglySorted_cons in Hs as [Hbl Hs].
    rewrite sorts_after_by_score. destruct (ltb (score a) (score b)) eqn:E.
    + apply StronglySorted_cons. split; [| by apply IH].
      rewrite sort_insert_Permutation. constructor; [| done].
      by apply ltb_leb.
    + assert (Hab : descends a b) by (by apply leb_total).
      apply StronglySorted_cons. split; [| by apply StronglySorted_cons].
      constructor; [done |].
      eapply Forall_impl; [exact Hbl |]. intros c Hbc. unfold descends in *.
      by eapply leb_trans.
Qed.

Lemma Array_sort_sorted l :
  Forall (fun b => score b <> NaN) l -> StronglySorted descends (Array_sort by_score l).
Proof.
  induction l as [| a l IH]; intros Hl; [constructor |].
  apply Forall_cons in Hl as [Ha Hl]. cbn [Array_sort foldr].
  fold (Array_sort by_score l). apply sort_insert_sorted; [done | | by apply IH].
  by rewrite Array_sort_Permutation.
Qed.

(** Stability: inserting does not move an entry past one of equal score. *)
Lemma with_score_insert s a l :
  with_score s (sort_insert by_score a l) = with_score s (a :: l).
Proof.
  unfold with_score. induction l as [| b l IH]; [done |]. cbn [sort_insert].
  rewrite sorts_after_by_score. destruct (ltb (score a) (score b)) eqn:E; [| done].
  cbn [List.filter] in *. rewrite IH.
  destruct (eqb (score a) s) eqn:Ea, (eqb (score b) s) eqn:Eb; try done.
  by rewrite (eqb_trans_ltb _ _ _ Ea Eb) in E.
Qed.

Lemma with_score_sort s l : with_score s (Array_sort by_score l) = with_score s l.
Proof.
  induction l as [| a l IH]; [done |]. cbn [Array_sort foldr].
  fold (Array_sort by_score l). rewrite with_score_insert.
  unfold with_score in *. cbn [List.filter]. by rewrite IH.
Qed.

Lemma with_score_take s (n : nat) l :
  with_score s (take n l) `prefix_of` with_score s l.
Proof.
  unfold with_score. revert n. induction l as [| a l IH]; intros [| n]; cbn;
    try apply prefix_nil.
  destruct (eqb (score a) s); [apply prefix_cons |]; apply IH.
Qed.

End SortFacts.

(** ** The passes of the client-side filter *)

Section ClientFacts.
Import JS Client.
Implicit Types (pool chosen : list Recommendation) (seen : gset string)
  (c : Recommendation).

Lemma usable_titles_cons c pool :
  usable_titles (c :: pool)
  = if usable c then {[ normalized_title c ]} ∪ usable_titles pool
    else usable_titles pool.
Proof. unfold usable_titles. cbn [List.filter]. by destruct (usable c). Qed.

(** One step of the strict pass. *)
Lemma strict_pass_cons (current : gset string) c pool chosen seen :
  strict_pass current (c :: pool) chosen seen
  = if usable c
       && negb (bool_decide (normalized_title c ∈ seen))
       && negb (bool_decide (normalized_title c ∈ current))
    then if (MAX_WEB_RECS <=? length (chosen ++ [c]))%nat
         then (chosen ++ [c], {[ normalized_title c ]} ∪ seen)
         else strict_pass current pool (chosen ++ [c])
                ({[ normalized_title c ]} ∪ seen)
    else strict_pass current pool chosen seen.
Proof.
  cbn [strict_pass]. unfold usable. fold (normalized_title c).
  destruct (nonempty (default "" (title c))); cbn [negb andb]; [| done].
  destruct (nonempty (normalized_title c)); cbn [negb andb]; [| done].
  destruct (bool_decide (normalized_title c ∈ seen)); cbn [negb andb]; [done |].
  by destruct (bool_decide (normalized_title c ∈ current)).
Qed.

(** One step of the relaxed pass. *)
Lemma relaxed_loop_cons c pool chosen seen :
  relaxed_loop (c :: pool) chosen seen
  = if usable c && negb (bool_decide (normalized_title c ∈ seen))
    then if (MAX_WEB_RECS <=? length (chosen ++ [c]))%nat
         then (chosen ++ [c], {[ normalized_title c ]} ∪ seen)
         else relaxed_loop pool (chosen ++ [c]) ({[ normalized_title c ]} ∪ seen)
    else relaxed_loop pool chosen seen.
Proof.
  cbn [relaxed_loop]. unfold usable. fold (normalized_title c).
  destruct (nonempty (default "" (title c))); cbn [negb andb]; [| done].
  destruct (nonempty (normalized_title c)); cbn [negb andb orb]; [| done].
  by destruct (bool_decide (normalized_title c ∈ seen)).
Qed.

(** The relaxed pass is the strict pass run with an empty exclusion set. *)
Lemma relaxed_loop_strict pool chosen seen :
  relaxed_loop pool chosen seen = strict_pass ∅ pool chosen seen.
Proof.
  revert chosen seen. induction pool as [| c pool IH]; intros chosen seen; [done |].
  rewrite relaxed_loop_cons, strict_pass_cons.
  rewrite (bool_decide_eq_false_2 (_ ∈ ∅)) by set_solver.
  rewrite andb_true_r, !IH. done.
Qed.

(** When every usable title is excluded the strict pass chooses nothing. *)
Lemma strict_pass_all_excluded (current : gset string) pool chosen seen :
  (forall c, c ∈ pool -> usable c = true -> normalized_title c ∈ current) ->
  strict_pass current pool chosen seen = (chosen, seen).
Proof.
  revert chosen seen. induction pool as [| c pool IH]; intros chosen seen H; [done |].
  rewrite strict_pass_cons.
  destruct (usable c) eqn:Hu; cbn [andb].
  - rewrite (bool_decide_eq_true_2 (_ ∈ current)) by (apply H; [left | done]).
    rewrite andb_false_r. apply IH. intros c' Hc'. apply H. by right.
  - apply IH. intros c' Hc'. apply H. by right.
Qed.

(** What the relaxed pass adds to the candidates already chosen. *)
Lemma relaxed_loop_spec pool chosen seen :
  (length chosen < MAX_WEB_RECS)%nat ->
  exists picked,
    fst (relaxed_loop pool chosen seen) = chosen ++ picked
    /\ picked `sublist_of` pool
    /\ Forall (fun c => usable c = true /\ normalized_title c ∉ seen) picked
    /\ NoDup (map normalized_title picked)
    /\ length picked
       = Nat.min (MAX_WEB_RECS - length chosen) (size (usable_titles pool ∖ seen)).
Proof.
  revert chosen seen. induction pool as [| c pool IH]; intros chosen seen Hlen.
  - exists []. cbn [relaxed_loop fst]. rewrite app_nil_r. split_and!; try done.
    + constructor.
    + unfold usable_titles. cbn.
      replace (∅ ∖ seen) with (∅ : gset string) by set_solver.
      rewrite size_empty. lia.
  - rewrite relaxed_loop_cons, usable_titles_cons.
    destruct (usable c) eqn:Hu; cbn [andb].
    + destruct (bool_decide (normalized_title c ∈ seen)) eqn:Hs; cbn [negb].
      * apply bool_decide_eq_true in Hs.
        destruct (IH chosen seen Hlen) as (picked & E & Hsub & Hall & Hnd & Hn).
        exists picked. split_and!; try done; [by apply sublist_cons |].
        rewrite Hn. f_equal. f_equal. set_solver.
      * apply bool_decide_eq_false in Hs.
        assert (Hsize : size (({[normalized_title c]} ∪ usable_titles pool) ∖ seen)
                 = S (size (usable_titles pool ∖ ({[normalized_title c]} ∪ seen)))).
        { replace (({[normalized_title c]} ∪ usable_titles pool) ∖ seen)
            with ({[normalized_title c]}
                  ∪ usable_titles pool ∖ ({[normalized_title c]} ∪ seen)).
          - rewrite (size_union (C:=gset string) {[normalized_title c]})
              by set_solver.
            by rewrite size_singleton.
          - apply set_eq. intros t.
            destruct (decide (t = normalized_title c)); set_solver. }
        rewrite Hsize. rewrite length_app. cbn [length].
        destruct (MAX_WEB_RECS <=? length chosen + 1)%nat eqn:Hfull.
        -- apply Nat.leb_le in Hfull. exists [c]. cbn [fst].
           split_and!; try done.
           ++ apply sublist_skip, sublist_nil_l.
           ++ by repeat constructor.
           ++ repeat constructor. by intros ?%elem_of_nil.
           ++ cbn [length]. unfold MAX_WEB_RECS in *. lia.
        -- apply Nat.leb_gt in Hfull.
           destruct (IH (chosen ++ [c]) ({[normalized_title c]} ∪ seen))
             as (picked & E & Hsub & Hall & Hnd & Hn).
           { rewrite length_app. cbn [length]. lia. }
           exists (c :: picked). rewrite E, <- app_assoc.
           split_and!; try done.
           ++ by apply sublist_skip.
           ++ constructor; [done |].
              eapply Forall_impl; [exact Hall |]. intros c' [? ?]. set_solver.
           ++ cbn [map]. constructor; [| done].
              intros Hin. apply list_elem_of_In, in_map_iff in Hin as (c' & Ec & Hin).
              apply list_elem_of_In in Hin.
              rewrite Forall_forall in Hall. destruct (Hall c' Hin) as [_ Hc'].
              set_solver.
           ++ cbn [length]. rewrite Hn, length_app. cbn [length].
              unfold MAX_WEB_RECS in *. lia.
    + destruct (IH chosen seen Hlen) as (picked & E & Hsub & Hall & Hnd & Hn).
      exists picked. split_and!; try done. by apply sublist_cons.
Qed.

End ClientFacts.

(** ** The result count *)

Section TopK.
Import JS.

(** The web route clamps: whatever the body holds, [requestedTopK] is a
    finite number between 1 and 50. *)
Lemma requestedTopK_range (b : WebRecommend.WebRecommendRequest) :
  exists q, WebRecommend.requestedTopK b = Fin q /\ (1 <= q <= 50)%Q.
Proof.
  unfold WebRecommend.requestedTopK, of_Z.
  apply clamp_range; [done | apply or_else_not_NaN].
Qed.

Lemma requestedTopK_missing (b : WebRecommend.WebRecommendRequest) :
  WebRecommend.topK b = None -> WebRecommend.requestedTopK b = of_Z 5.
Proof. unfold WebRecommend.requestedTopK. intros ->. reflexivity. Qed.

Lemma requestedTopK_examples :
  WebRecommend.requestedTopK (Scenario.web_body 1000 None) = of_Z 50
  /\ WebRecommend.requestedTopK (Scenario.web_body 0 None) = of_Z 5
  /\ WebRecommend.requestedTopK (Scenario.web_body (-7) None) = of_Z 1.
Proof. split_and!; reflexivity. Qed.

(** A successful answer of the web route never has more than 50 items. *)
Lemma web_POST_at_most_50 (StringToNumber : string -> number)
    (env : WebRecommend.Env) recs calls :
  WebRecommend.POST StringToNumber env = (WebRecommend.Json recs, calls) ->
  (length recs <= 50)%nat.
Proof.
  unfold WebRecommend.POST, WebRecommend.handle.
  destruct (WebRecommend.body env) as [b |]; [| discriminate].
  destruct (requestedTopK_range b) as (q & -> & Hq).
  destruct (negb (nonempty _)); [discriminate |].
  destruct (WebRecommend.createClient env) as [db | e]; [| discriminate].
  destruct (WebRecommend.error _); [discriminate |].
  destruct (WebRecommend.data _) as [target |]; [| discriminate].
  destruct (negb (nonempty _)).
  - intros [= <- _]. cbn. lia.
  - unfold WebRecommend.bind at 1.
    destruct (WebRecommend.candidates _ _ _ _ _) as [[deduped | e] log]; [| discriminate].
    intros [= <- _]. apply slice0_length_le; [lra |]. apply Hq.
Qed.

(** C1.  The rank route hands [topK] to [slice] as it came in the body:
    with 51 ranked rows a request for 1000 is answered with 51
    recommendations, a request for 0 with none, and a request for -1 with
    all but the last; the web route answers the same three requests within
    its clamp. *)
Theorem C1_rank_path_does_not_clamp :
  Scenario.rank_count
    (Recommend.POST Scenario.constant_similarity (Scenario.rank_request 1000))
  = Some 51%nat
  /\ Scenario.rank_count
       (Recommend.POST Scenario.constant_similarity (Scenario.rank_request 0))
     = Some 0%nat
  /\ Scenario.rank_count
       (Recommend.POST Scenario.constant_similarity (Scenario.rank_request (-1)))
     = Some 50%nat
  /\ WebRecommend.requestedTopK (Scenario.web_body 1000 None) = of_Z 50.
Proof. split_and!; vm_compute; reflexivity. Qed.

End TopK.

(** ** Failures of the external fetch *)

Section FetchFailures.
Import JS WebRecommend.

(** A response that is not ok, or whose body does not parse, or has no
    [docs] array, gives an empty list. *)
Lemma queryOpenLibrary_degrades net (locals : gset string) q limit log ok json :
  net (length log) q limit = Responded ok json ->
  (ok = false \/ json = None \/ json = Some None) ->
  queryOpenLibrary net locals q limit log = (Ok [], log ++ [(q, limit)]).
Proof.
  intros Hnet H. unfold queryOpenLibrary, bind, fetch. rewrite Hnet. cbn [fst snd].
  destruct ok; cbn [negb]; [| done].
  destruct H as [[=] | [-> | ->]]; reflexivity.
Qed.

(** A rejected fetch makes [queryOpenLibrary] throw. *)
Lemma queryOpenLibrary_throws net (locals : gset string) q limit log e :
  net (length log) q limit = Rejected e ->
  queryOpenLibrary net locals q limit log = (Throw e, log ++ [(q, limit)]).
Proof.
  intros Hnet. unfold queryOpenLibrary, bind, fetch. by rewrite Hnet.
Qed.

(** When the primary fetch is rejected the request is answered with
    status 500. *)
Lemma primary_rejection_is_raised StringToNumber env db target e :
  nonempty (default "" (bookId (default empty_body (body env)))) = true ->
  createClient env = Ok db ->
  target_query db = {| data := Some target; error := None |} ->
  nonempty (queryText target) = true ->
  network env 0%nat (queryText target)
    (fetchLimit (requestedTopK (default empty_body (body env)))) = Rejected e ->
  fst (POST StringToNumber env) = ErrorJson 500 e.
Proof.
  intros Hid Hdb Htarget Hq Hnet. unfold POST, handle.
  destruct (body env) as [b |]; [| discriminate Hid].
  cbn [default from_option id] in Hid, Hnet.
  rewrite Hid, Hdb, Htarget. cbn [negb error data]. rewrite Hq. cbn [negb].
  unfold bind at 1, candidates. unfold bind at 1.
  rewrite (queryOpenLibrary_throws _ _ _ _ [] e) by exact Hnet. reflexivity.
Qed.

(** C2.  With the network down the fetch of the primary search rejects;
    nothing in [queryOpenLibrary] catches it, and the request is answered
    with status 500 after that one fetch rather than with a list. *)
Theorem C2_network_failure_is_raised :
  POST Scenario.StringToNumber
    (Scenario.web_request Scenario.network_down 5 None (fun _ => 0%Q))
  = (ErrorJson 500 "TypeError: fetch failed",
     [("Dune Frank Herbert", of_Z 30)]).
Proof. vm_compute. reflexivity. Qed.

End FetchFailures.

(** ** The client-side filter *)

Section ClientFilter.
Import JS Client.

(** C3, as the specification words it, fails: the passes stop at the
    constant [MAX_WEB_RECS] = 3 and never look at [topK].  A component
    with [topK] = 2 whose pool holds three titles, all of them excluded,
    chooses nothing in the strict pass and three candidates, more than
    [topK], in the relaxed pass. *)
Lemma C3_relaxed_pass_exceeds_topK :
  let pool := Scenario.three_books in
  let excluded := Scenario.three_titles in
  (forall c, c ∈ pool -> normalized_title c ∈ excluded)
  /\ fst (strict_pass excluded pool [] ∅) = []
  /\ ltb (default (of_Z 5) (topK (Scenario.props 2)))
         (of_Z (Z.of_nat (length (fst (relaxed_pass pool [] ∅))))) = true
  /\ recs (fetchWebRecommendations (Scenario.props 2)
             (Scenario.showing Scenario.three_books)
             (Scenario.server_with
                [Scenario.item "Emma"; Scenario.item "Hamlet"; Scenario.item "Ulysses"])
             (fun _ => 0%Q) (Some excluded) None)
     = Some [Scenario.shown "Hamlet"; Scenario.shown "Ulysses"; Scenario.shown "Emma"].
Proof.
  cbv zeta. split_and!.
  - intros c Hc. unfold Scenario.three_books in Hc.
    repeat (apply elem_of_cons in Hc as [-> | Hc]); [| | | by apply elem_of_nil in Hc];
      vm_compute; set_solver.
  - vm_compute. reflexivity.
  - vm_compute. reflexivity.
  - vm_compute. reflexivity.
Qed.

(** C3, amended.  When every usable title of the pool is in the exclusion
    set, the strict pass chooses nothing; the relaxed pass then runs as
    the strict pass would without an exclusion set, and chooses
    candidates of that pool, in pool order, with distinct normalised
    titles: as many as there are distinct usable titles, up to
    [MAX_WEB_RECS] = 3. *)
Theorem C3_strict_empty_relaxed_refills (excluded : gset string)
    (pool : list Recommendation) :
  (forall c, c ∈ pool -> usable c = true -> normalized_title c ∈ excluded) ->
  strict_pass excluded pool [] ∅ = ([], ∅)
  /\ relaxed_pass pool [] ∅ = strict_pass ∅ pool [] ∅
  /\ fst (relaxed_pass pool [] ∅) `sublist_of` pool
  /\ NoDup (map normalized_title (fst (relaxed_pass pool [] ∅)))
  /\ Forall (fun c => usable c = true) (fst (relaxed_pass pool [] ∅))
  /\ length (fst (relaxed_pass pool [] ∅))
     = Nat.min MAX_WEB_RECS (size (usable_titles pool))
  /\ (length (fst (relaxed_pass pool [] ∅)) <= MAX_WEB_RECS)%nat.
Proof.
  intros Hex.
  assert (Hrel : relaxed_pass pool [] ∅ = relaxed_loop pool [] ∅) by reflexivity.
  destruct (relaxed_loop_spec pool [] ∅) as (picked & E & Hsub & Hall & Hnd & Hn).
  { cbn. unfold MAX_WEB_RECS. lia. }
  rewrite Hrel, E. cbn [app length] in *. rewrite Nat.sub_0_r in Hn.
  replace (usable_titles pool ∖ ∅) with (usable_titles pool) in Hn by set_solver.
  split_and!.
  - by apply strict_pass_all_excluded.
  - apply relaxed_loop_strict.
  - done.
  - done.
  - eapply Forall_impl; [exact Hall |]. by intros c [? _].
  - done.
  - rewrite Hn. lia.
Qed.

Lemma C3_strict_empty_relaxed_refills_witness :
  strict_pass Scenario.three_titles Scenario.three_books [] ∅ = ([], ∅)
  /\ length (fst (relaxed_pass Scenario.three_books [] ∅))
     = Nat.min MAX_WEB_RECS (size (usable_titles Scenario.three_books)).
Proof.
  destruct (C3_strict_empty_relaxed_refills Scenario.three_titles
              Scenario.three_books) as (H1 & _ & _ & _ & _ & H6 & _).
  - intros c Hc _. unfold Scenario.three_books in Hc.
    repeat (apply elem_of_cons in Hc as [-> | Hc]); [| | | by apply elem_of_nil in Hc];
      vm_compute; set_solver.
  - split; [exact H1 | exact H6].
Defined.

(** C9.  With recommendations on display, when both passes choose nothing
    the function shows the displayed list rotated by one place and cut to
    [MAX_WEB_RECS]: its first element moves to the end, and the result is
    not empty. *)
Theorem C9_rotate_fallback (p : Props) (st : State)
    (server : ServerRequest -> FetchOutcome) (entropy : nat -> Q)
    (excludeTitles : option (gset string)) (seed : option WebRecommend.SeedValue)
    (json : option ServerJson) (first : Recommendation)
    (rest : list Recommendation) :
  let mapped := map to_recommendation
                  (default [] (json_recommendations (default empty_json json))) in
  let shuffled := Shuffler.client_shuffled entropy mapped in
  let strict := strict_pass (currentTitles excludeTitles (recs st)) shuffled [] ∅ in
  server (request p seed) = Responded true json ->
  recs st = Some (first :: rest) ->
  fst strict = [] ->
  fst (relaxed_pass shuffled (fst strict) (snd strict)) = [] ->
  recs (fetchWebRecommendations p st server entropy excludeTitles seed)
  = Some (take MAX_WEB_RECS (rest ++ [first]))
  /\ take MAX_WEB_RECS (rest ++ [first]) <> []
  /\ select excludeTitles (recs st) shuffled
     = rotate_fallback (recs st) [].
Proof.
  cbv zeta. intros Hserver Hrecs Hstrict Hrelaxed.
  assert (Hsel : select excludeTitles (recs st)
                   (Shuffler.client_shuffled entropy
                      (map to_recommendation
                         (default [] (json_recommendations (default empty_json json)))))
                 = take MAX_WEB_RECS (rest ++ [first])).
  { unfold select.
    destruct (strict_pass _ _ _ _) as [chosen seen] eqn:Es.
    cbn [fst snd] in Hstrict, Hrelaxed. subst chosen.
    destruct (relaxed_pass _ _ _) as [chosen' seen'] eqn:Er.
    cbn [fst] in Hrelaxed. subst chosen'.
    rewrite Hrecs. cbn [rotate_fallback app].
    rewrite take_take. reflexivity. }
  split_and!.
  - unfold fetchWebRecommendations. rewrite Hserver. cbn [negb]. cbn [recs].
    by rewrite Hsel.
  - destruct rest; discriminate.
  - rewrite Hsel, Hrecs. cbn [rotate_fallback app]. reflexivity.
Qed.

Lemma C9_rotate_fallback_witness :
  recs (fetchWebRecommendations (Scenario.props 5)
          (Scenario.showing Scenario.three_books)
          (Scenario.server_with []) (fun _ => 0%Q) None None)
  = Some (take MAX_WEB_RECS
            ([Scenario.shown "Hamlet"; Scenario.shown "Ulysses"]
             ++ [Scenario.shown "Emma"])).
Proof.
  apply (C9_rotate_fallback (Scenario.props 5)
           (Scenario.showing Scenario.three_books) (Scenario.server_with [])
           (fun _ => 0%Q) None None
           (Some {| json_recommendations := Some []; json_error := None |})
           (Scenario.shown "Emma")
           [Scenario.shown "Hamlet"; Scenario.shown "Ulysses"]);
    vm_compute; reflexivity.
Defined.

End ClientFilter.

(** ** The shuffle *)

Section ShuffleClaims.
Import JS Shuffler.

(** With a finite seed the generator is the seeded one, whatever
    [Math.random] would have delivered. *)
Lemma randFn_finite (StringToNumber : string -> number)
    (b : WebRecommend.WebRecommendRequest) (q : Q) (random : nat -> Q) :
  WebRecommend.numericSeed StringToNumber b = Fin q ->
  WebRecommend.randFn StringToNumber b random = mulberry32 (Qfloor q).
Proof. unfold WebRecommend.randFn. by intros ->. Qed.

(** Without a finite seed it is [Math.random]. *)
Lemma randFn_not_finite (StringToNumber : string -> number)
    (b : WebRecommend.WebRecommendRequest) (random : nat -> Q) :
  isFinite (WebRecommend.numericSeed StringToNumber b) = false ->
  WebRecommend.randFn StringToNumber b random = Math_random random.
Proof.
  unfold WebRecommend.randFn.
  by destruct (WebRecommend.numericSeed StringToNumber b).
Qed.

(** C4.  Two requests that differ at most in what [Math.random] would
    deliver, and carry a seed that is a finite number, get the same
    answer, and on any list the order the shuffle produces does not
    depend on [Math.random].  The generator the route shuffles with is
    the closure of [mulberry32] whose state starts at the floor of the
    seed, and the recommendations of the answer are the candidates
    shuffled with that closure and cut to [requestedTopK]; each call adds
    0x6D2B79F5 to the state (rounded to a double), so that after [n]
    calls the state is the floor of the seed plus [n] times the constant,
    as long as that fits in 53 bits. *)
Theorem C4_same_seed_same_order (StringToNumber : string -> number)
    (env1 env2 : WebRecommend.Env) (q : Q) :
  WebRecommend.body env1 = WebRecommend.body env2 ->
  WebRecommend.createClient env1 = WebRecommend.createClient env2 ->
  WebRecommend.network env1 = WebRecommend.network env2 ->
  WebRecommend.numericSeed StringToNumber
    (default WebRecommend.empty_body (WebRecommend.body env1)) = Fin q ->
  WebRecommend.POST StringToNumber env1 = WebRecommend.POST StringToNumber env2
  /\ (forall l : list WebRecommend.Candidate,
        shuffled_with
          (WebRecommend.randFn StringToNumber
             (default WebRecommend.empty_body (WebRecommend.body env1))
             (WebRecommend.entropy env1)) l
        = shuffled_with
            (WebRecommend.randFn StringToNumber
               (default WebRecommend.empty_body (WebRecommend.body env2))
               (WebRecommend.entropy env2)) l)
  /\ (forall n : nat,
        state_after mulberry32_call (S n) (Qfloor q)
        = round53 (state_after mulberry32_call n (Qfloor q) + 0x6d2b79f5)%Z)
  /\ WebRecommend.randFn StringToNumber
       (default WebRecommend.empty_body (WebRecommend.body env1))
       (WebRecommend.entropy env1)
     = {| gen_state := Z; gen_current := Qfloor q; gen_call := mulberry32_call |}
  /\ (forall l : list WebRecommend.Candidate,
        shuffled_with
          (WebRecommend.randFn StringToNumber
             (default WebRecommend.empty_body (WebRecommend.body env1))
             (WebRecommend.entropy env1)) l
        = shuffled_with
            {| gen_state := Z; gen_current := Qfloor q;
               gen_call := mulberry32_call |} l)
  /\ (forall n : nat,
        (0 <= Qfloor q)%Z ->
        (Qfloor q + Z.of_nat n * 0x6d2b79f5 < 2 ^ 53)%Z ->
        state_after mulberry32_call n (Qfloor q)
        = (Qfloor q + Z.of_nat n * 0x6d2b79f5)%Z
        /\ fst (mulberry32_call (state_after mulberry32_call n (Qfloor q)))
           = fst (mulberry32_call (Qfloor q + Z.of_nat n * 0x6d2b79f5)%Z))
  /\ (forall (b : WebRecommend.WebRecommendRequest) (db : WebRecommend.Supabase)
             (target : WebRecommend.Book)
             (deduped : list WebRecommend.Candidate)
             (log : list WebRecommend.FetchCall),
        WebRecommend.body env1 = Some b ->
        nonempty (default "" (WebRecommend.bookId b)) = true ->
        WebRecommend.createClient env1 = Ok db ->
        WebRecommend.error (WebRecommend.target_query db) = None ->
        WebRecommend.data (WebRecommend.target_query db) = Some target ->
        nonempty (WebRecommend.queryText target) = true ->
        WebRecommend.candidates env1 db b target [] = (Ok deduped, log) ->
        WebRecommend.POST StringToNumber env1
        = (WebRecommend.Json
             (slice0
                (shuffled_with
                   {| gen_state := Z; gen_current := Qfloor q;
                      gen_call := mulberry32_call |} deduped)
                (WebRecommend.requestedTopK b)), log)).
Proof.
  destruct env1 as [b1 c1 n1 e1], env2 as [b2 c2 n2 e2].
  cbn [WebRecommend.body WebRecommend.createClient WebRecommend.network
       WebRecommend.entropy].
  intros <- <- <- Hseed.
  assert (Hrand : forall e,
            WebRecommend.randFn StringToNumber
              (default WebRecommend.empty_body b1) e
            = {| gen_state := Z; gen_current := Qfloor q;
                 gen_call := mulberry32_call |}).
  { intros e. unfold WebRecommend.randFn. by rewrite Hseed. }
  split; [| split; [| split; [| split; [| split; [| split]]]]].
  - unfold WebRecommend.POST, WebRecommend.handle, WebRecommend.candidates.
    cbn [WebRecommend.body WebRecommend.createClient WebRecommend.network
         WebRecommend.entropy].
    destruct b1 as [b |]; [| done]. cbn [default from_option id] in Hrand.
    by rewrite !Hrand.
  - intros l. by rewrite !Hrand.
  - intros n. apply mulberry32_state_step.
  - apply Hrand.
  - intros l. by rewrite Hrand.
  - intros n H0 Hb. by rewrite mulberry32_state_exact.
  - intros b db target deduped log -> Hid -> He Hd Hq Hc.
    cbn [default from_option id] in Hrand.
    unfold WebRecommend.POST, WebRecommend.handle.
    cbn [WebRecommend.body WebRecommend.createClient WebRecommend.entropy].
    rewrite Hid, He, Hd. cbn [negb]. rewrite Hq. cbn [negb].
    unfold WebRecommend.bind at 1. rewrite Hc. unfold WebRecommend.ret.
    by rewrite Hrand.
Qed.

Lemma C4_same_seed_same_order_witness :
  WebRecommend.POST Scenario.StringToNumber
    (Scenario.web_request Scenario.sparse_network 3
       (Some (WebRecommend.SeedString "12345")) (fun _ => 0%Q))
  = WebRecommend.POST Scenario.StringToNumber
      (Scenario.web_request Scenario.sparse_network 3
         (Some (WebRecommend.SeedString "12345")) (fun _ => (1 # 2)%Q)).
Proof.
  apply (C4_same_seed_same_order Scenario.StringToNumber
           (Scenario.web_request Scenario.sparse_network 3
              (Some (WebRecommend.SeedString "12345")) (fun _ => 0%Q))
           (Scenario.web_request Scenario.sparse_network 3
              (Some (WebRecommend.SeedString "12345")) (fun _ => (1 # 2)%Q))
           (inject_Z 12345)); reflexivity.
Defined.

(** C6.  Whatever the seed of the request (a finite number, something
    else, or none) and whatever [Math.random] delivers, the array that
    [shuffleArray] returns is a permutation of the array it was given;
    so is the one the client's [shuffle] returns. *)
Theorem C6_shuffle_is_permutation (StringToNumber : string -> number)
    (b : WebRecommend.WebRecommendRequest) (random : nat -> Q)
    (deduped : list WebRecommend.Candidate) (mapped : list Client.Recommendation) :
  shuffled_with (WebRecommend.randFn StringToNumber b random) deduped ≡ₚ deduped
  /\ client_shuffled random mapped ≡ₚ mapped.
Proof.
  split; [apply shuffled_with_Permutation | apply client_shuffled_Permutation].
Qed.

(** C10.  A call of [shuffleArray], and of the client's [shuffle], leaves
    the array it is given as it was: the reference returned is a new one,
    and every array that was in the store, the argument among them, holds
    what it held. *)
Theorem C10_shuffle_leaves_input {T : Type} (σ : gmap nat (list T))
    (arr : nat) (l : list T) (rand : generator) (random : nat -> Q) :
  σ !! arr = Some l ->
  ((shuffleArray arr rand σ).1 <> arr
   /\ (shuffleArray arr rand σ).2 !! arr = Some l
   /\ forall r, r <> (shuffleArray arr rand σ).1 ->
        (shuffleArray arr rand σ).2 !! r = σ !! r)
  /\ ((shuffle arr random σ).1 <> arr
      /\ (shuffle arr random σ).2 !! arr = Some l
      /\ forall r, r <> (shuffle arr random σ).1 ->
           (shuffle arr random σ).2 !! r = σ !! r).
Proof.
  intros Harr.
  assert (H : forall g : generator,
            (shuffleArray arr g σ).1 <> arr
            /\ (shuffleArray arr g σ).2 !! arr = Some l
            /\ forall r, r <> (shuffleArray arr g σ).1 ->
                 (shuffleArray arr g σ).2 !! r = σ !! r).
  { intros g.
    destruct (shuffleArray_spec arr g σ l Harr) as (a & l' & -> & Hfresh & _).
    cbn [fst snd].
    assert (a <> arr) by congruence.
    split_and!; [done | by rewrite lookup_insert_ne |].
    intros r Hr. by rewrite lookup_insert_ne. }
  split; [apply H |]. rewrite shuffle_shuffleArray. apply H.
Qed.

Lemma C10_shuffle_leaves_input_witness :
  (shuffleArray 0 (mulberry32 12345) {[ 0%nat := [1; 2; 3]%nat ]}).2 !! 0%nat
  = Some [1; 2; 3]%nat.
Proof.
  assert (H : ({[ 0%nat := [1; 2; 3]%nat ]} : gmap nat (list nat)) !! 0%nat
              = Some [1; 2; 3]%nat) by (vm_compute; reflexivity).
  exact (proj1 (proj2 (proj1
    (C10_shuffle_leaves_input {[ 0%nat := [1; 2; 3]%nat ]} 0 [1; 2; 3]%nat
       (mulberry32 12345) (fun _ => 0%Q) H)))).
Defined.

End ShuffleClaims.

(** ** The ranking *)

Section Ranking.
Import JS Recommend.

(** The scores of the response are those of [scored], in its order. *)
Lemma rank_POST_scores cosineSimilarity (env : Env) recs :
  POST cosineSimilarity env = Json recs ->
  recs = []
  \/ exists db targetRow targetEmbedding,
       createClient env = Ok db
       /\ data (target_query db) = Some targetRow
       /\ embedding targetRow = Some targetEmbedding
       /\ map recommendation_score recs
          = map score (scored cosineSimilarity (default empty_body (body env))
                         targetEmbedding (default [] (data (rows_query db)))).
Proof.
  unfold POST, handle.
  destruct (body env) as [b |]; [| discriminate].
  cbn [default from_option Datatypes.id].
  destruct (negb (nonempty _)); [discriminate |].
  destruct (createClient env) as [db | e]; [| discriminate].
  destruct (error (target_query db)); [discriminate |].
  destruct (data (target_query db)) as [targetRow |] eqn:Ht; [| discriminate].
  destruct (embedding targetRow) as [targetEmbedding |] eqn:He; [| discriminate].
  destruct (error (rows_query db)); [discriminate |].
  destruct (bool_decide _); [intros [= <-]; by left |].
  destruct (error (books_query db _)); intros [= <-]; right;
    exists db, targetRow, targetEmbedding; split_and!; try done;
    by rewrite map_map.
Qed.

(** The order of the example rows: the two rows that score 1 keep their
    order, "a" before "c". *)
Lemma ranked_example :
  map scored_book_id
    (ranked Scenario.first_component [of_Z 1] Scenario.tied_rows)
  = ["b"; "d"; "a"; "c"].
Proof. vm_compute. reflexivity. Qed.

(** C5, as the specification words it (for every target embedding and
    every list of candidate embeddings), fails: the products in
    [cosineSimilarity] overflow for large components, and the score is
    then NaN.  For the target [2^500, 0] the rows [0, 1], [2^600, 0] and
    [2^500, 0] score 0, NaN and 1; the route leaves them in this order,
    the row that scores 1 after the row that scores 0, and no order of
    the three entries descends, since NaN compares with nothing. *)
Lemma C5_nan_score_breaks_order :
  let target := Cases.large_target in
  let entries := map (to_scored Cosine.similarity target)
                   (List.filter valid_row Cases.large_rows) in
  let ranking := scored Cosine.similarity empty_body target Cases.large_rows in
  Cosine.cosineSimilarity (map Cosine.of_number target)
    (map Cosine.of_number [of_Z (2 ^ 600); of_Z 0]) = PrimFloat.nan
  /\ map scored_book_id ranking = ["b"; "y"; "a"]
  /\ (exists low high,
        map score ranking = [low; NaN; high]
        /\ eqb low (of_Z 0) = true /\ eqb high (of_Z 1) = true
        /\ ltb low high = true)
  /\ ~ StronglySorted descends ranking
  /\ ~ StronglySorted descends (ranked Cosine.similarity target Cases.large_rows)
  /\ (forall l, l ≡ₚ entries -> ~ StronglySorted descends l).
Proof.
  cbv zeta.
  split; [vm_compute; reflexivity |].
  assert (Hentries :
            exists low high,
              map (to_scored Cosine.similarity Cases.large_target)
                (List.filter valid_row Cases.large_rows)
              = [ {| scored_book_id := "b"; score := low;
                     scored_tags := []; scored_summary := "" |};
                  {| scored_book_id := "y"; score := NaN;
                     scored_tags := []; scored_summary := "" |};
                  {| scored_book_id := "a"; score := high;
                     scored_tags := []; scored_summary := "" |} ]
              /\ scored Cosine.similarity empty_body Cases.large_target
                   Cases.large_rows
                 = map (to_scored Cosine.similarity Cases.large_target)
                     (List.filter valid_row Cases.large_rows)
              /\ ranked Cosine.similarity Cases.large_target Cases.large_rows
                 = map (to_scored Cosine.similarity Cases.large_target)
                     (List.filter valid_row Cases.large_rows)
              /\ eqb low (of_Z 0) = true /\ eqb high (of_Z 1) = true
              /\ ltb low high = true).
  { exists (Cosine.similarity Cases.large_target [of_Z 0; of_Z 1]),
      (Cosine.similarity Cases.large_target [of_Z (2 ^ 500); of_Z 0]).
    do 5 (split; [vm_compute; reflexivity |]). vm_compute. reflexivity. }
  destruct Hentries as (low & high & He & Hs & Hr & Hlow & Hhigh & Hlt).
  rewrite Hs, Hr, He. clear He Hs Hr.
  assert (Hnone : forall l,
            l ≡ₚ [ {| scored_book_id := "b"; score := low;
                      scored_tags := []; scored_summary := "" |};
                   {| scored_book_id := "y"; score := NaN;
                      scored_tags := []; scored_summary := "" |};
                   {| scored_book_id := "a"; score := high;
                      scored_tags := []; scored_summary := "" |} ] ->
            ~ StronglySorted descends l).
  { intros l Hl Hsorted.
    assert (Hy : {| scored_book_id := "y"; score := NaN;
                    scored_tags := []; scored_summary := "" |} ∈ l).
    { rewrite Hl. apply elem_of_cons. right. apply elem_of_cons. by left. }
    pose proof (Permutation_length Hl) as Hlen. cbn [length] in Hlen.
    destruct l as [| x1 [| x2 [| x3 [| x4 l]]]]; try discriminate Hlen.
    apply StronglySorted_inv in Hsorted as [Hrest H1].
    apply StronglySorted_inv in Hrest as [_ H2].
    apply Forall_cons in H1 as [H12 H1]. apply Forall_cons in H1 as [H13 _].
    apply Forall_cons in H2 as [H23 _].
    unfold descends in H12, H13, H23.
    apply elem_of_cons in Hy as [<- | Hy].
    { cbn [score] in H12. by destruct (score x2). }
    apply elem_of_cons in Hy as [<- | Hy]; [discriminate H12 |].
    apply elem_of_cons in Hy as [<- | Hy]; [discriminate H13 |].
    by apply elem_of_nil in Hy. }
  split; [reflexivity |].
  split.
  { exists low, high. split; [reflexivity |]. split; [exact Hlow |].
    split; [exact Hhigh | exact Hlt]. }
  split; [by apply Hnone |].
  split; [by apply Hnone |].
  exact Hnone.
Qed.

(** C5, amended.  When no candidate's score is NaN, the ranking [scored]
    of the rank route descends by score, and for every score the entries
    that have it stand in the order of the input rows: before the cut the
    ranking holds the scored valid rows, each score class in input order;
    the cut keeps a prefix of it. *)
Theorem C5_ranking_descends_and_is_stable
    (cosineSimilarity : list number -> list number -> number)
    (b : RecommendRequest) (targetEmbedding : list number) (rows : list AiRow) :
  let entries := map (to_scored cosineSimilarity targetEmbedding)
                   (List.filter valid_row rows) in
  Forall (fun e => score e <> NaN) entries ->
  StronglySorted descends (scored cosineSimilarity b targetEmbedding rows)
  /\ (forall s, with_score s (scored cosineSimilarity b targetEmbedding rows)
                `prefix_of` with_score s entries)
  /\ StronglySorted descends (ranked cosineSimilarity targetEmbedding rows)
  /\ ranked cosineSimilarity targetEmbedding rows ≡ₚ entries
  /\ (forall s, with_score s (ranked cosineSimilarity targetEmbedding rows)
                = with_score s entries)
  /\ scored cosineSimilarity b targetEmbedding rows
     `prefix_of` ranked cosineSimilarity targetEmbedding rows.
Proof.
  cbv zeta. intros Hnan. unfold scored.
  destruct (slice0_take (ranked cosineSimilarity targetEmbedding rows)
              (default (of_Z 5) (topK b))) as [n ->].
  pose proof (Array_sort_sorted _ Hnan) as Hsorted.
  fold (ranked cosineSimilarity targetEmbedding rows) in Hsorted.
  split_and!.
  - rewrite <- (take_drop n (ranked cosineSimilarity targetEmbedding rows)) in Hsorted.
    by apply StronglySorted_app_1_l in Hsorted.
  - intros s. unfold ranked at 1.
    rewrite <- (with_score_sort s (map _ _)). apply with_score_take.
  - done.
  - apply Array_sort_Permutation.
  - intros s. apply with_score_sort.
  - apply prefix_take.
Qed.

Lemma C5_ranking_descends_and_is_stable_witness :
  StronglySorted descends
    (scored Scenario.first_component
       {| bookId := Some "t"; topK := Some (of_Z 3) |} [of_Z 1]
       Scenario.tied_rows).
Proof.
  assert (H : Forall (fun e => score e <> NaN)
                (map (to_scored Scenario.first_component [of_Z 1])
                   (List.filter valid_row Scenario.tied_rows))).
  { vm_compute. repeat constructor; discriminate. }
  exact (proj1 (C5_ranking_descends_and_is_stable Scenario.first_component
                  {| bookId := Some "t"; topK := Some (of_Z 3) |} [of_Z 1]
                  Scenario.tied_rows H)).
Defined.

End Ranking.

(** ** The dedup step of the web route *)

Section Dedup.
Import JS WebRecommend.

(** C7.  After the dedup step no two candidates have the same normalised
    title and none has an empty one; the result is a sub-sequence of the
    input that covers every non-empty normalised title; and a candidate
    appended to the input is kept exactly when its normalised title is
    not empty and has not occurred before it. *)
Theorem C7_dedup_keeps_first_seen (recommendations : list Candidate)
    (d : Candidate) :
  NoDup (map normalized_title (dedupe recommendations))
  /\ Forall (fun c => normalized_title c <> "") (dedupe recommendations)
  /\ dedupe recommendations `sublist_of` recommendations
  /\ (forall c, c ∈ recommendations -> normalized_title c <> "" ->
        normalized_title c ∈ map normalized_title (dedupe recommendations))
  /\ dedupe (recommendations ++ [d])
     = dedupe recommendations
       ++ (if nonempty (normalized_title d) && unseen_after ∅ recommendations d
           then [d] else []).
Proof.
  unfold dedupe. split_and!.
  - apply dedup_loop_NoDup.
  - apply Forall_forall. intros c Hc. by apply dedup_loop_elem in Hc as (_ & ? & _).
  - apply dedup_loop_sublist.
  - intros c Hc Hne. apply dedup_loop_covers; [done | done | set_solver].
  - apply dedup_loop_snoc.
Qed.

End Dedup.

(** ** The widening pass of the web route *)

Section Widening.
Import JS WebRecommend.

(** [queryOpenLibrary] issues exactly one fetch. *)
Lemma queryOpenLibrary_log net (locals : gset string) q limit log :
  snd (queryOpenLibrary net locals q limit log) = log ++ [(q, limit)].
Proof.
  unfold queryOpenLibrary, bind, fetch.
  destruct (net (length log) q limit) as [e | ok json]; [done |].
  cbn [fst snd]. by destruct (negb ok).
Qed.

(** When the widening pass is needed it issues exactly one fetch, whatever
    comes of it. *)
Lemma widen_log net (locals : gset string) k target primary log :
  widening_needed primary k target = true ->
  snd (bind (widen net locals k target primary)
         (fun recommendations => ret (dedupe recommendations)) log)
  = log ++ [(default "" (book_title target),
             Math_min (mul (fetchLimit k) (of_Z 2)) (of_Z 200))].
Proof.
  intros H. unfold widen. rewrite H. unfold bind.
  pose proof (queryOpenLibrary_log net locals (default "" (book_title target))
                (Math_min (mul (fetchLimit k) (of_Z 2)) (of_Z 200)) log) as Hlog.
  destruct (queryOpenLibrary _ _ _ _ _) as [[widened | e] log'];
    cbn [snd] in Hlog |- *; unfold ret; cbn [snd]; exact Hlog.
Qed.

(** The limit of the primary search lies between 20 and 100. *)
Lemma fetchLimit_range (q : Q) :
  exists f, fetchLimit (Fin q) = Fin f /\ (20 <= f <= 100)%Q.
Proof.
  unfold fetchLimit, of_Z. cbn [mul].
  unfold Math_max. destruct (ltb (Fin (q * inject_Z 6)) (Fin (inject_Z 20))) eqn:E1;
    unfold Math_min.
  - destruct (ltb (Fin (inject_Z 100)) (Fin (inject_Z 20))) eqn:E2.
    + apply ltb_Fin in E2. exfalso. revert E2. apply Qle_not_lt. done.
    + exists (inject_Z 20). split; [reflexivity |]. split; [apply Qle_refl | done].
  - apply ltb_Fin_false in E1.
    destruct (ltb (Fin (inject_Z 100)) (Fin (q * inject_Z 6))) eqn:E2.
    + exists (inject_Z 100). split; [reflexivity |]. split; [done | apply Qle_refl].
    + apply ltb_Fin_false in E2. exists (q * inject_Z 6)%Q. done.
Qed.

(** The widening search asks for more than the primary one. *)
Lemma widening_limit_larger (b : WebRecommendRequest) :
  ltb (fetchLimit (requestedTopK b))
      (Math_min (mul (fetchLimit (requestedTopK b)) (of_Z 2)) (of_Z 200)) = true.
Proof.
  destruct (requestedTopK_range b) as (q & -> & _).
  destruct (fetchLimit_range q) as (f & -> & Hf).
  unfold of_Z. cbn [mul]. unfold Math_min.
  assert (H200 : (inject_Z 20 <= f <= inject_Z 100)%Q -> (f < inject_Z 200)%Q).
  { intros [_ H]. eapply Qle_lt_trans; [exact H | done]. }
  assert (H2 : (inject_Z 20 <= f)%Q -> (f < f * inject_Z 2)%Q).
  { intros H. assert (0 < f)%Q by (eapply Qlt_le_trans; [| exact H]; done).
    change (inject_Z 2) with 2%Q. lra. }
  destruct (ltb (Fin (inject_Z 200)) (Fin (f * inject_Z 2))); apply ltb_Fin.
  - by apply H200.
  - apply H2, Hf.
Qed.

(** The titles after the merge are those of both lists. *)
Lemma merged_titles (primary widened : list Candidate) :
  titles (merge_unique (titles primary) primary widened)
  = titles primary ∪ titles widened.
Proof.
  rewrite merge_unique_acc, titles_app.
  pose proof (merge_unique_titles (titles primary) widened) as H. set_solver.
Qed.

(** C8, as the specification words it, fails in its scenario when the one
    primary candidate has a blank title.  A document titled " " passes
    the filter of [queryOpenLibrary] (the title is not the empty string
    and its key, the empty string, is no local title), so the primary
    search returns one candidate and, with [topK] = 5, the widening fetch
    is issued; it supplies three new titles.  The dedup loop then drops
    the blank candidate, whose key is empty: the candidates before the
    shuffle are 3, not 4. *)
Lemma C8_blank_primary_title_counts_three :
  let env := Scenario.web_request Cases.blank_network 5 None (fun _ => 0%Q) in
  let b := Scenario.web_body 5 None in
  let locals := localTitles (titles_query Scenario.web_db) in
  let k := requestedTopK b in
  let wide := Math_min (mul (fetchLimit k) (of_Z 2)) (of_Z 200) in
  let bare := default "" (book_title Scenario.dune) in
  let call1 := (queryText Scenario.dune, fetchLimit k) in
  let call2 := (bare, wide) in
  let primary := map to_candidate Cases.blank_docs in
  let widened := map to_candidate Cases.three_new_docs in
  topK b = Some (of_Z 5)
  /\ queryOpenLibrary (network env) locals (queryText Scenario.dune)
       (fetchLimit k) [] = (Ok primary, [call1])
  /\ length primary = 1%nat
  /\ nonempty bare = true
  /\ queryOpenLibrary (network env) locals bare wide [call1]
     = (Ok widened, [call1; call2])
  /\ size (titles widened ∖ ({[ "" ]} ∪ titles primary)) = 3%nat
  /\ exists deduped,
       candidates env Scenario.web_db b Scenario.dune []
       = (Ok deduped, [call1; call2])
       /\ length deduped = 3%nat
       /\ map title deduped = ["Children of Dune"; "Emma"; "Hamlet"].
Proof.
  cbv zeta.
  split; [reflexivity |].
  split; [vm_compute; reflexivity |].
  split; [reflexivity |].
  split; [vm_compute; reflexivity |].
  split; [vm_compute; reflexivity |].
  split; [vm_compute; reflexivity |].
  eexists. split; [vm_compute; reflexivity |].
  split; reflexivity.
Qed.

(** C8, amended.  Let the primary search have answered with the list
    [primary] and let the target have a title.  If [primary] has at least
    min(2, requestedTopK) candidates no further fetch is issued.
    Otherwise exactly one more fetch is issued, for the bare title and
    with a larger limit; when it answers with [widened], the candidates
    are [primary] followed by those of [widened] whose normalised title
    is seen for the first time, then deduplicated, and their number is
    the number of distinct non-empty normalised titles of both lists.
    With [topK] = 5, one primary candidate with a non-empty normalised
    title and three new such titles from the widening search, that
    number is 4. *)
Theorem C8_widening_pass (env : Env) (db : Supabase) (b : WebRecommendRequest)
    (target : Book) (primary : list Candidate) :
  let locals := localTitles (titles_query db) in
  let k := requestedTopK b in
  let wide := Math_min (mul (fetchLimit k) (of_Z 2)) (of_Z 200) in
  let bare := default "" (book_title target) in
  let call1 := (queryText target, fetchLimit k) in
  let call2 := (bare, wide) in
  let few := ltb (of_Z (Z.of_nat (length primary))) (Math_min (of_Z 2) k) in
  queryOpenLibrary (network env) locals (queryText target) (fetchLimit k) []
  = (Ok primary, [call1]) ->
  nonempty bare = true ->
  (few = false ->
     candidates env db b target [] = (Ok (dedupe primary), [call1]))
  /\ (few = true ->
        snd (candidates env db b target []) = [call1; call2]
        /\ ltb (fetchLimit k) wide = true
        /\ forall widened,
             queryOpenLibrary (network env) locals bare wide [call1]
             = (Ok widened, [call1; call2]) ->
             let merged := merge_unique (titles primary) primary widened in
             candidates env db b target [] = (Ok (dedupe merged), [call1; call2])
             /\ merged = primary ++ merge_unique (titles primary) [] widened
             /\ merge_unique (titles primary) [] widened `sublist_of` widened
             /\ (forall l d,
                   merge_unique (titles primary) [] (l ++ [d])
                   = merge_unique (titles primary) [] l
                     ++ (if unseen_after (titles primary) l d then [d] else []))
             /\ length (dedupe merged)
                = size ((titles primary ∪ titles widened) ∖ {[ "" ]}))
  /\ (forall p widened,
        topK b = Some (of_Z 5) ->
        primary = [p] ->
        normalized_title p <> "" ->
        queryOpenLibrary (network env) locals bare wide [call1]
        = (Ok widened, [call1; call2]) ->
        size (titles widened ∖ ({[ "" ]} ∪ titles primary)) = 3%nat ->
        exists deduped,
          candidates env db b target [] = (Ok deduped, [call1; call2])
          /\ length deduped = 4%nat).
Proof.
  cbv zeta. intros Hprimary Hbare.
  assert (Hrun : candidates env db b target []
            = bind (widen (network env) (localTitles (titles_query db))
                      (requestedTopK b) target primary)
                (fun recommendations => ret (dedupe recommendations))
                [(queryText target, fetchLimit (requestedTopK b))]).
  { unfold candidates. unfold bind at 1. by rewrite Hprimary. }
  assert (Hwide : forall widened,
            ltb (of_Z (Z.of_nat (length primary)))
              (Math_min (of_Z 2) (requestedTopK b)) = true ->
            queryOpenLibrary (network env) (localTitles (titles_query db))
              (default "" (book_title target))
              (Math_min (mul (fetchLimit (requestedTopK b)) (of_Z 2)) (of_Z 200))
              [(queryText target, fetchLimit (requestedTopK b))]
            = (Ok widened,
               [(queryText target, fetchLimit (requestedTopK b));
                (default "" (book_title target),
                 Math_min (mul (fetchLimit (requestedTopK b)) (of_Z 2)) (of_Z 200))]) ->
            candidates env db b target []
            = (Ok (dedupe (merge_unique (titles primary) primary widened)),
               [(queryText target, fetchLimit (requestedTopK b));
                (default "" (book_title target),
                 Math_min (mul (fetchLimit (requestedTopK b)) (of_Z 2)) (of_Z 200))])).
  { intros widened Hfew Hsecond. rewrite Hrun.
    unfold bind at 1, widen, widening_needed. rewrite Hfew, Hbare. cbn [andb].
    unfold bind at 1. rewrite Hsecond. reflexivity. }
  assert (Hlen : forall widened,
            length (dedupe (merge_unique (titles primary) primary widened))
            = size ((titles primary ∪ titles widened) ∖ {[ "" ]})).
  { intros widened. unfold dedupe. rewrite dedup_loop_length, merged_titles.
    f_equal; set_solver. }
  split_and!.
  - intros Hfew. rewrite Hrun.
    unfold bind at 1, widen, widening_needed. rewrite Hfew. reflexivity.
  - intros Hfew. split_and!.
    + rewrite Hrun. apply widen_log. unfold widening_needed.
      by rewrite Hfew, Hbare.
    + apply widening_limit_larger.
    + intros widened Hsecond. split_and!.
      * by apply Hwide.
      * apply merge_unique_acc.
      * apply merge_unique_sublist.
      * intros l d. apply merge_unique_snoc.
      * apply Hlen.
  - intros p widened HtopK -> Hp Hsecond Hnew.
    assert (Hk : requestedTopK b = of_Z 5).
    { unfold requestedTopK. rewrite HtopK. reflexivity. }
    eexists. split.
    + apply Hwide; [| exact Hsecond]. rewrite Hk. reflexivity.
    + rewrite Hlen.
      replace ((titles [p] ∪ titles widened) ∖ {[""]})
        with ({[normalized_title p]} ∪ titles widened ∖ ({[""]} ∪ titles [p])).
      * rewrite (size_union (C:=gset string) {[normalized_title p]}).
        -- by rewrite size_singleton, Hnew.
        -- rewrite titles_cons. set_solver.
      * rewrite titles_cons, titles_nil. apply set_eq. intros t.
        destruct (decide (t = normalized_title p)); set_solver.
Qed.

Lemma C8_widening_pass_witness :
  exists deduped,
    candidates (Scenario.web_request Scenario.sparse_network 5 None (fun _ => 0%Q))
      Scenario.web_db (Scenario.web_body 5 None) Scenario.dune []
    = (Ok deduped,
       [(queryText Scenario.dune, fetchLimit (requestedTopK (Scenario.web_body 5 None)));
        (default "" (book_title Scenario.dune),
         Math_min (mul (fetchLimit (requestedTopK (Scenario.web_body 5 None))) (of_Z 2))
           (of_Z 200))])
    /\ length deduped = 4%nat.
Proof.
  assert (H1 : queryOpenLibrary
                 (network (Scenario.web_request Scenario.sparse_network 5 None
                             (fun _ => 0%Q)))
                 (localTitles (titles_query Scenario.web_db))
                 (queryText Scenario.dune)
                 (fetchLimit (requestedTopK (Scenario.web_body 5 None))) []
               = (Ok (map to_candidate Scenario.primary_docs),
                  [(queryText Scenario.dune,
                    fetchLimit (requestedTopK (Scenario.web_body 5 None)))]))
    by (vm_compute; reflexivity).
  assert (H2 : nonempty (default "" (book_title Scenario.dune)) = true)
    by (vm_compute; reflexivity).
  assert (H3 : normalized_title (to_candidate (Scenario.doc "Dune Messiah")) <> "")
    by (vm_compute; discriminate).
  assert (H4 : queryOpenLibrary
                 (network (Scenario.web_request Scenario.sparse_network 5 None
                             (fun _ => 0%Q)))
                 (localTitles (titles_query Scenario.web_db))
                 (default "" (book_title Scenario.dune))
                 (Math_min
                    (mul (fetchLimit (requestedTopK (Scenario.web_body 5 None))) (of_Z 2))
                    (of_Z 200))
                 [(queryText Scenario.dune,
                   fetchLimit (requestedTopK (Scenario.web_body 5 None)))]
               = (Ok (map to_candidate Scenario.widened_docs),
                  [(queryText Scenario.dune,
                    fetchLimit (requestedTopK (Scenario.web_body 5 None)));
                   (default "" (book_title Scenario.dune),
                    Math_min
                      (mul (fetchLimit (requestedTopK (Scenario.web_body 5 None))) (of_Z 2))
                      (of_Z 200))]))
    by (vm_compute; reflexivity).
  assert (H5 : size (titles (map to_candidate Scenario.widened_docs)
                     ∖ ({[ "" ]} ∪ titles (map to_candidate Scenario.primary_docs)))
               = 3%nat)
    by (vm_compute; reflexivity).
  exact (proj2 (proj2
    (C8_widening_pass
       (Scenario.web_request Scenario.sparse_network 5 None (fun _ => 0%Q))
       Scenario.web_db (Scenario.web_body 5 None) Scenario.dune
       (map to_candidate Scenario.primary_docs) H1 H2))
    (to_candidate (Scenario.doc "Dune Messiah"))
    (map to_candidate Scenario.widened_docs) eq_refl eq_refl H3 H4 H5).
Defined.

End Widening.

(** * Further properties of the routes *)

(** ** The web route: fetches and answers *)

Section WebRoute.
Import JS WebRecommend.

(** What [queryOpenLibrary] returns passed its filter and came from the
    documents of the response, in their order. *)
Lemma queryOpenLibrary_Ok net (locals : gset string) q limit log docs log' :
  queryOpenLibrary net locals q limit log = (Ok docs, log') ->
  Forall (fun c => keep_doc locals c = true /\ source c = "openlibrary") docs.
Proof.
  unfold queryOpenLibrary, bind, fetch.
  destruct (net (length log) q limit) as [e | ok json]; [discriminate |].
  cbn [fst snd]. destruct (negb ok); unfold ret; intros [= <- _]; [constructor |].
  apply Forall_forall. intros c Hc.
  apply list_elem_of_In, filter_In in Hc as [Hin Hkeep]. split; [done |].
  apply in_map_iff in Hin as (d & <- & _). reflexivity.
Qed.

Lemma merge_unique_elem (seen : gset string) (recs docs : list Candidate) c :
  c ∈ merge_unique seen recs docs -> c ∈ recs \/ c ∈ docs.
Proof.
  rewrite merge_unique_acc. intros [H | H]%elem_of_app; [by left |]. right.
  eapply sublist_subseteq; [apply merge_unique_sublist | exact H].
Qed.

(** The limit of the widening search lies between 40 and 200. *)
Lemma widening_limit_range (b : WebRecommendRequest) :
  exists f, Math_min (mul (fetchLimit (requestedTopK b)) (of_Z 2)) (of_Z 200) = Fin f
            /\ (40 <= f <= 200)%Q.
Proof.
  destruct (requestedTopK_range b) as (q & -> & _).
  destruct (fetchLimit_range q) as (f & -> & Hf).
  unfold of_Z. cbn [mul]. unfold Math_min.
  destruct (ltb (Fin (inject_Z 200)) (Fin (f * inject_Z 2))) eqn:E.
  - eexists. split; [reflexivity |]. split; [done | apply Qle_refl].
  - apply ltb_Fin_false in E. eexists. split; [reflexivity |].
    change (inject_Z 2) with 2%Q in *. change (inject_Z 200) with 200%Q in E.
    split; [| exact E]. destruct Hf as [Hf _]. change (inject_Z 20) with 20%Q in Hf. lra.
Qed.

(** Steps 3 to 5 unfolded once: the primary search, then the rest. *)
Lemma candidates_run (env : Env) (db : Supabase) (b : WebRecommendRequest)
    (target : Book) (log : list FetchCall) :
  candidates env db b target log
  = match queryOpenLibrary (network env) (localTitles (titles_query db))
            (queryText target) (fetchLimit (requestedTopK b)) log with
    | (Ok primary, log') =>
        bind (widen (network env) (localTitles (titles_query db))
                (requestedTopK b) target primary)
          (fun recommendations => ret (dedupe recommendations)) log'
    | (Throw e, log') => (Throw e, log')
    end.
Proof. reflexivity. Qed.

(** The fetches of steps 3 and 4: the primary search, then at most the
    title-only search. *)
Lemma candidates_log (env : Env) (db : Supabase) (b : WebRecommendRequest)
    (target : Book) :
  let call1 := (queryText target, fetchLimit (requestedTopK b)) in
  let call2 := (default "" (book_title target),
                Math_min (mul (fetchLimit (requestedTopK b)) (of_Z 2)) (of_Z 200)) in
  snd (candidates env db b target []) = [call1]
  \/ snd (candidates env db b target []) = [call1; call2].
Proof.
  cbv zeta. rewrite candidates_run.
  pose proof (queryOpenLibrary_log (network env) (localTitles (titles_query db))
                (queryText target) (fetchLimit (requestedTopK b)) []) as Hlog.
  destruct (queryOpenLibrary _ _ _ _ _) as [[primary | e] log]; cbn [snd] in Hlog;
    subst log; [| by left].
  destruct (widening_needed primary (requestedTopK b) target) eqn:Hw.
  - right. by apply widen_log.
  - left. unfold bind, widen. rewrite Hw. reflexivity.
Qed.

(** The decisions of the route, in the order it takes them. *)
Lemma POST_cases (StringToNumber : string -> number) (env : Env) :
  let b := default empty_body (body env) in
  (body env = None
   /\ POST StringToNumber env = (ErrorJson 500 destructuring_null, []))
  \/ (nonempty (default "" (bookId b)) = false
      /\ body env = Some b
      /\ POST StringToNumber env = (ErrorJson 400 "Missing bookId", []))
  \/ (nonempty (default "" (bookId b)) = true
      /\ exists e, createClient env = Throw e
                   /\ POST StringToNumber env = (ErrorJson 500 e, []))
  \/ (nonempty (default "" (bookId b)) = true
      /\ exists db, createClient env = Ok db
         /\ ((exists msg, error (target_query db) = Some msg
                          /\ POST StringToNumber env = (ErrorJson 404 msg, []))
             \/ (error (target_query db) = None /\ data (target_query db) = None
                 /\ POST StringToNumber env = (ErrorJson 404 "Book not found", []))
             \/ (exists target,
                   error (target_query db) = None
                   /\ data (target_query db) = Some target
                   /\ ((nonempty (queryText target) = false
                        /\ POST StringToNumber env = (Json [], []))
                       \/ (nonempty (queryText target) = true
                           /\ POST StringToNumber env
                              = match candidates env db b target [] with
                                | (Ok deduped, log) =>
                                    (Json (slice0
                                       (Shuffler.shuffled_with
                                          (randFn StringToNumber b (entropy env))
                                          deduped)
                                       (requestedTopK b)), log)
                                | (Throw e, log) => (ErrorJson 500 e, log)
                                end))))).
Proof.
  cbv zeta. unfold POST, handle.
  destruct (body env) as [b |]; [| by left]. right. cbn [default from_option id].
  destruct (nonempty (default "" (bookId b))) eqn:Hid;
    cbn [negb]; [| by left].
  right. destruct (createClient env) as [db | e].
  - right. split; [done |]. exists db. split; [done |].
    destruct (error (target_query db)) as [msg |]; [left; by exists msg |].
    destruct (data (target_query db)) as [target |]; [| right; by left].
    right. right. exists target. split_and!; try done.
    destruct (nonempty (queryText target)) eqn:Hq; cbn [negb]; [| by left].
    right. split; [done |]. unfold bind at 1.
    by destruct (candidates env db _ target []) as [[deduped | e] log].
  - left. split; [done |]. by exists e.
Qed.

(** X1.  The errors of the web route.  An answer with an error is one of:
    status 400 with "Missing bookId", when the body is an object without
    book id (as is the [{}] taken for a body that cannot be read); status
    404, when the target query failed (with its message) or found no
    book; status 500, when the body is [null] (destructuring it throws,
    with the engine's message), when creating the database client threw,
    or when the last fetch issued was rejected, with the message of that
    failure.  Status 400 and 404, and status 500 for a [null] body, are
    answered before any fetch. *)
Theorem X1_web_route_errors (StringToNumber : string -> number) (env : Env)
    (status : nat) (msg : string) :
  fst (POST StringToNumber env) = ErrorJson status msg ->
  (status = 400%nat /\ msg = "Missing bookId"
   /\ (exists b, body env = Some b /\ nonempty (default "" (bookId b)) = false)
   /\ snd (POST StringToNumber env) = [])
  \/ (status = 404%nat /\ snd (POST StringToNumber env) = []
      /\ exists db, createClient env = Ok db
           /\ (error (target_query db) = Some msg
               \/ (error (target_query db) = None /\ data (target_query db) = None
                   /\ msg = "Book not found")))
  \/ (status = 500%nat
      /\ ((body env = None /\ snd (POST StringToNumber env) = [])
          \/ (exists b, body env = Some b /\ createClient env = Throw msg
                        /\ snd (POST StringToNumber env) = [])
          \/ exists calls q limit,
               snd (POST StringToNumber env) = calls ++ [(q, limit)]
               /\ network env (length calls) q limit = Rejected msg)).
Proof.
  destruct (POST_cases StringToNumber env)
    as [[Hnull ->] | [(Hid & Hb & ->) | [(Hid & e & He & ->) | (Hid & db & Hdb & H)]]];
    cbn [fst snd].
  - intros [= <- _]. right. right. split; [done |]. by left.
  - intros [= <- <-]. left. split_and!; try done. eauto.
  - intros [= <- <-]. right. right. split; [done |]. right. left.
    destruct (body env) as [b |]; [by exists b | discriminate Hid].
  - destruct H as [(m & Hm & ->) | [(He & Hd & ->) | (target & He & Hd & H)]];
      cbn [fst snd].
    + intros [= <- <-]. right. left. split_and!; try done. exists db. by split; [| left].
    + intros [= <- <-]. right. left. split_and!; try done. exists db.
      split; [done |]. by right.
    + destruct H as [[Hq ->] | [Hq ->]]; cbn [fst]; [discriminate |].
      rewrite candidates_run.
      destruct (queryOpenLibrary (network env) (localTitles (titles_query db))
                  (queryText target)
                  (fetchLimit (requestedTopK (default empty_body (body env)))) [])
        as [[primary | e] log] eqn:E1.
      * unfold bind at 1, widen.
        destruct (widening_needed primary _ target); [| unfold ret; cbn; discriminate].
        unfold bind at 1.
        destruct (queryOpenLibrary (network env) (localTitles (titles_query db))
                    (default "" (book_title target)) _ log)
          as [[widened | e] log'] eqn:E2; [unfold ret; cbn; discriminate |].
        cbn [fst snd]. intros [= <- <-]. right. right. split; [done |]. right. right.
        revert E2. unfold queryOpenLibrary, bind, fetch.
        destruct (network env (length log) _ _) as [e' | ok json] eqn:En.
        -- intros [= <- <-]. eauto.
        -- cbn [fst snd]. destruct (negb ok); unfold ret; discriminate.
      * cbn [fst snd]. intros [= <- <-]. right. right. split; [done |]. right. right.
        revert E1. unfold queryOpenLibrary, bind, fetch.
        destruct (network env (length []) _ _) as [e' | ok json] eqn:En.
        -- intros [= <- <-]. exists [], (queryText target),
             (fetchLimit (requestedTopK (default empty_body (body env)))). eauto.
        -- cbn [fst snd]. destruct (negb ok); unfold ret; discriminate.
Qed.

Lemma X1_web_route_errors_witness :
  exists status,
    fst (POST Scenario.StringToNumber Cases.offline_request)
    = ErrorJson status "TypeError: fetch failed"
    /\ (status = 400 \/ status = 404 \/ status = 500)%nat.
Proof.
  assert (H : fst (POST Scenario.StringToNumber Cases.offline_request)
              = ErrorJson 500 "TypeError: fetch failed")
    by (vm_compute; reflexivity).
  exists 500%nat. split; [exact H |].
  destruct (X1_web_route_errors Scenario.StringToNumber Cases.offline_request
              500 "TypeError: fetch failed" H) as [(E & _) | [(E & _) | (E & _)]];
    auto.
Defined.

(** X2.  The fetches of the web route.  A request issues at most two
    fetches, each with a limit between 20 and 200.  It issues one only
    for a body with a book id whose book exists and yields a non-empty
    query text: first the search for that text with the limit
    [fetchLimit], then at most the search for the bare title with the
    doubled limit. *)
Theorem X2_web_route_fetches (StringToNumber : string -> number) (env : Env) :
  let b := default empty_body (body env) in
  let calls := snd (POST StringToNumber env) in
  (length calls <= 2)%nat
  /\ Forall (fun call => exists f, snd call = Fin f /\ (20 <= f <= 200)%Q) calls
  /\ (calls <> [] ->
      nonempty (default "" (bookId b)) = true
      /\ exists db target,
           createClient env = Ok db
           /\ error (target_query db) = None
           /\ data (target_query db) = Some target
           /\ nonempty (queryText target) = true
           /\ (calls = [(queryText target, fetchLimit (requestedTopK b))]
               \/ calls = [(queryText target, fetchLimit (requestedTopK b));
                           (default "" (book_title target),
                            Math_min (mul (fetchLimit (requestedTopK b)) (of_Z 2))
                              (of_Z 200))])).
Proof.
  cbv zeta.
  destruct (POST_cases StringToNumber env)
    as [[Hnull ->] | [(Hid & Hb & ->) | [(Hid & e & He & ->) | (Hid & db & Hdb & H)]]];
    cbn [fst snd]; [split_and!; [cbn; lia | constructor | done] .. |].
  destruct H as [(m & Hm & ->) | [(He & Hd & ->) | (target & He & Hd & H)]];
    cbn [fst snd]; [split_and!; [cbn; lia | constructor | done] .. |].
  destruct H as [[Hq ->] | [Hq ->]]; cbn [snd];
    [split_and!; [cbn; lia | constructor | done] |].
  assert (Hlog : snd (match candidates env db (default empty_body (body env)) target []
                      with
                      | (Ok deduped, log) =>
                          (Json (slice0
                             (Shuffler.shuffled_with
                                (randFn StringToNumber (default empty_body (body env))
                                   (entropy env)) deduped)
                             (requestedTopK (default empty_body (body env)))), log)
                      | (Throw e, log) => (ErrorJson 500 e, log)
                      end)
                 = snd (candidates env db (default empty_body (body env)) target [])).
  { by destruct (candidates env db _ target []) as [[deduped | e] log]. }
  rewrite Hlog.
  destruct (requestedTopK_range (default empty_body (body env))) as (q & Hk & _).
  destruct (fetchLimit_range q) as (f1 & Hf1 & Hr1). rewrite <- Hk in Hf1.
  destruct (widening_limit_range (default empty_body (body env))) as (f2 & Hf2 & Hr2).
  assert (R1 : (inject_Z 20 <= f1 <= inject_Z 200)%Q).
  { destruct Hr1 as [? H100]. split; [done |]. eapply Qle_trans; [exact H100 | done]. }
  assert (R2 : (inject_Z 20 <= f2 <= inject_Z 200)%Q).
  { destruct Hr2 as [H40 ?]. split; [| done]. eapply Qle_trans; [| exact H40]. done. }
  destruct (candidates_log env db (default empty_body (body env)) target) as [-> | ->].
  - split_and!; [cbn; lia | | ].
    + repeat constructor. cbn [snd]. eauto.
    + intros _. split; [done |]. exists db, target. split_and!; try done. by left.
  - split_and!; [cbn; lia | | ].
    + repeat constructor; cbn [snd]; eauto.
    + intros _. split; [done |]. exists db, target. split_and!; try done. by right.
Qed.

(** The candidates of steps 3 to 5 are the dedup of documents that
    passed the filter of [queryOpenLibrary]. *)
Lemma candidates_Ok (env : Env) (db : Supabase) (b : WebRecommendRequest)
    (target : Book) (log0 log : list FetchCall) (deduped : list Candidate) :
  candidates env db b target log0 = (Ok deduped, log) ->
  exists recommendations,
    deduped = dedupe recommendations
    /\ Forall (fun c => keep_doc (localTitles (titles_query db)) c = true
                       /\ source c = "openlibrary") recommendations.
Proof.
  rewrite candidates_run.
  destruct (queryOpenLibrary (network env) (localTitles (titles_query db))
              (queryText target) (fetchLimit (requestedTopK b)) log0)
    as [[primary | e] log1] eqn:E1; [| discriminate].
  pose proof (queryOpenLibrary_Ok _ _ _ _ _ _ _ E1) as Hprimary.
  unfold bind at 1, widen. destruct (widening_needed primary _ target).
  - unfold bind at 1.
    destruct (queryOpenLibrary (network env) (localTitles (titles_query db))
                (default "" (book_title target)) _ log1)
      as [[widened | e] log2] eqn:E2; [| discriminate].
    pose proof (queryOpenLibrary_Ok _ _ _ _ _ _ _ E2) as Hwidened.
    unfold ret. intros [= <- _]. eexists. split; [reflexivity |].
    apply Forall_forall. intros c Hc. apply merge_unique_elem in Hc as [Hc | Hc].
    + by apply (proj1 (Forall_forall _ _) Hprimary).
    + by apply (proj1 (Forall_forall _ _) Hwidened).
  - unfold ret. intros [= <- _]. by exists primary.
Qed.

(** A successful answer is empty or a prefix of the shuffled candidates. *)
Lemma POST_Json_inv (StringToNumber : string -> number) (env : Env)
    (db : Supabase) (recs : list Candidate) (log : list FetchCall) :
  createClient env = Ok db ->
  POST StringToNumber env = (Json recs, log) ->
  recs = []
  \/ exists target deduped,
       data (target_query db) = Some target
       /\ candidates env db (default empty_body (body env)) target [] = (Ok deduped, log)
       /\ recs = slice0 (Shuffler.shuffled_with
                           (randFn StringToNumber (default empty_body (body env))
                              (entropy env)) deduped)
                  (requestedTopK (default empty_body (body env))).
Proof.
  intros Hdb HPOST.
  destruct (POST_cases StringToNumber env)
    as [[Hnull E] | [(Hid & Hb & E) | [(Hid & e & He & E) | (Hid & db' & Hdb' & H)]]];
    [congruence | congruence | congruence |].
  assert (db' = db) as -> by congruence.
  destruct H as [(m & Hm & E) | [(He & Hd & E) | (target & He & Hd & H)]];
    [congruence | congruence |].
  destruct H as [[Hq E] | [Hq E]]; rewrite E in HPOST.
  - left. congruence.
  - right. exists target.
    destruct (candidates env db _ target []) as [[deduped | e] log'];
      [| discriminate].
    exists deduped. injection HPOST as <- <-. done.
Qed.

(** X3.  What the web route returns.  The recommendations of a successful
    answer have pairwise different normalised titles, none of them empty
    and none of them the normalised title of a local book; every one
    comes from Open Library; and there are at most 50. *)
Theorem X3_web_route_answer (StringToNumber : string -> number) (env : Env)
    (db : Supabase) (recs : list Candidate) (log : list FetchCall) :
  createClient env = Ok db ->
  POST StringToNumber env = (Json recs, log) ->
  NoDup (map normalized_title recs)
  /\ Forall (fun c => title c <> ""
                     /\ normalized_title c <> ""
                     /\ (normalized_title c ∉ localTitles (titles_query db))
                     /\ source c = "openlibrary") recs
  /\ (length recs <= 50)%nat.
Proof.
  intros Hdb HPOST.
  split_and!; [| | by eapply web_POST_at_most_50].
  all: (destruct (POST_Json_inv _ _ _ _ _ Hdb HPOST)
          as [-> | (target & deduped & _ & Hc & ->)]; [constructor |]);
       apply candidates_Ok in Hc as (recommendations & -> & Hall);
       destruct (slice0_take
                   (Shuffler.shuffled_with
                      (randFn StringToNumber (default empty_body (body env))
                         (entropy env)) (dedupe recommendations))
                   (requestedTopK (default empty_body (body env)))) as [n ->].
  - rewrite <- firstn_map.
    eapply sublist_NoDup; [| apply sublist_take].
    rewrite (Permutation_map normalized_title
               (shuffled_with_Permutation _ (dedupe recommendations))).
    apply dedup_loop_NoDup.
  - apply Forall_forall. intros c Hc.
    apply (sublist_subseteq _ _ (sublist_take _ _)) in Hc.
    rewrite (shuffled_with_Permutation _ _) in Hc.
    unfold dedupe in Hc. apply dedup_loop_elem in Hc as (Hin & Hne & _).
    rewrite Forall_forall in Hall. destruct (Hall c Hin) as [Hkeep Hsrc].
    unfold keep_doc in Hkeep. apply andb_true_iff in Hkeep as [Ht Hl].
    apply nonempty_true in Ht. apply negb_true_iff, bool_decide_eq_false in Hl.
    done.
Qed.

Lemma X3_web_route_answer_witness :
  NoDup (map normalized_title
           (Cases.recommendations_of
              (fst (POST Scenario.StringToNumber Cases.seeded_request)))).
Proof.
  assert (H1 : createClient Cases.seeded_request = Ok Scenario.web_db)
    by reflexivity.
  assert (H2 : POST Scenario.StringToNumber Cases.seeded_request
               = (Json (Cases.recommendations_of
                          (fst (POST Scenario.StringToNumber Cases.seeded_request))),
                  snd (POST Scenario.StringToNumber Cases.seeded_request)))
    by (vm_compute; reflexivity).
  exact (proj1 (X3_web_route_answer Scenario.StringToNumber Cases.seeded_request
                  Scenario.web_db _ _ H1 H2)).
Defined.

(** For a bound that is not negative, [slice] keeps the first
    floor(bound) elements, or all of them. *)
Lemma slice0_length {A : Type} (arr : list A) (q : Q) :
  (0 <= q)%Q ->
  length (slice0 arr (Fin q)) = Nat.min (Z.to_nat (Qfloor q)) (length arr).
Proof.
  intros H. cbn [slice0].
  assert (Hk : (Qnum q ÷ Z.pos (Qden q) = Qfloor q)%Z).
  { destruct q as [num den]. unfold Qle in H. cbn in *.
    apply Z.quot_div_nonneg; lia. }
  rewrite Hk.
  assert (0 <= Qfloor q)%Z.
  { change 0%Z with (Qfloor 0). by apply Qfloor_resp_le. }
  destruct (Qfloor q <? 0)%Z eqn:E; [apply Z.ltb_lt in E; lia |].
  apply length_take.
Qed.

(** X4.  How many recommendations the web route returns.  When the
    candidates of the request are [deduped], the answer holds
    min(floor(requestedTopK), length deduped) of them: as many as were
    asked for whenever that many candidates exist, and all of them
    otherwise. *)
Theorem X4_web_route_count (StringToNumber : string -> number) (env : Env)
    (db : Supabase) (target : Book) (deduped : list Candidate)
    (log : list FetchCall) :
  let b := default empty_body (body env) in
  nonempty (default "" (bookId b)) = true ->
  createClient env = Ok db ->
  error (target_query db) = None ->
  data (target_query db) = Some target ->
  nonempty (queryText target) = true ->
  candidates env db b target [] = (Ok deduped, log) ->
  exists recs q,
    POST StringToNumber env = (Json recs, log)
    /\ requestedTopK b = Fin q
    /\ length recs = Nat.min (Z.to_nat (Qfloor q)) (length deduped)
    /\ (forall c, c ∈ recs -> c ∈ deduped).
Proof.
  cbv zeta. intros Hid Hdb He Hd Hq Hc.
  destruct (body env) as [b |] eqn:Hbody; [| discriminate Hid].
  cbn [default from_option id] in *.
  destruct (requestedTopK_range b) as (q & Hk & Hr).
  eexists _, q. split_and!; [| exact Hk | |].
  - unfold POST, handle. rewrite Hbody, Hid, Hdb, He, Hd. cbn [negb].
    rewrite Hq. cbn [negb].
    unfold bind at 1. rewrite Hc. unfold ret. reflexivity.
  - rewrite Hk, slice0_length by lra.
    by rewrite (Permutation_length (shuffled_with_Permutation _ deduped)).
  - intros c Hin. rewrite Hk in Hin.
    destruct (slice0_take (Shuffler.shuffled_with
                (randFn StringToNumber b (entropy env))
                deduped) (Fin q)) as [n Hn].
    rewrite Hn in Hin. apply (sublist_subseteq _ _ (sublist_take _ _)) in Hin.
    by rewrite (shuffled_with_Permutation _ _) in Hin.
Qed.

Lemma X4_web_route_count_witness :
  exists recs q,
    POST Scenario.StringToNumber Cases.seeded_request
    = (Json recs, snd (POST Scenario.StringToNumber Cases.seeded_request))
    /\ requestedTopK (default empty_body (body Cases.seeded_request)) = Fin q
    /\ length recs
       = Nat.min (Z.to_nat (Qfloor q))
           (length (dedupe (map to_candidate
                              (Scenario.primary_docs ++ tl Scenario.widened_docs))))
    /\ (forall c, c ∈ recs ->
          c ∈ dedupe (map to_candidate
                        (Scenario.primary_docs ++ tl Scenario.widened_docs))).
Proof.
  apply (X4_web_route_count Scenario.StringToNumber Cases.seeded_request
           Scenario.web_db Scenario.dune);
    vm_compute; reflexivity.
Defined.

End WebRoute.

(** ** The seeded generator and the shuffle loop *)

Section ShufflerMore.
Import JS Shuffler.

Local Open Scope Z_scope.

Lemma draws_S {G : Type} (call : G -> Q * G) (n : nat) (g : G) :
  draws call (S n) g = fst (call g) :: draws call n (snd (call g)).
Proof. cbn [draws]. by destruct (call g). Qed.

(** X5.  Every number the seeded generator delivers is a multiple of
    2^-32 in [0, 1), whatever the seed and however many numbers were drawn
    before. *)
Theorem X5_mulberry32_draws_in_unit_interval (a : Z) (n : nat) :
  Forall (fun r => (exists u, 0 <= u < 2 ^ 32 /\ r = (u # 2 ^ 32)%Q)
                   /\ (0 <= r)%Q /\ (r < 1)%Q)
    (draws mulberry32_call n a).
Proof.
  revert a. induction n as [| n IH]; intros a; [constructor |].
  rewrite draws_S. constructor; [| apply IH].
  split; [| apply mulberry32_call_range].
  unfold mulberry32_call. cbv zeta. cbn [fst].
  eexists. split; [| reflexivity]. unfold wrap32. apply Z.mod_pos_bound. lia.
Qed.

(** The loop calls the generator once for every index from [i] down to 1. *)
Lemma shuffle_loop_state {T G : Type} (call : G -> Q * G) (a i : nat)
    (σ : gmap nat (list T)) (g : G) :
  snd (shuffle_loop call a i σ g) = state_after call i g.
Proof.
  revert σ g. induction i as [| i IH]; intros σ g; [done |].
  cbn [shuffle_loop state_after]. destruct (call g) as [r g']. cbn [snd]. apply IH.
Qed.

(** The loop is determined by the numbers it draws. *)
Lemma shuffle_loop_draws {T G G' : Type} (call : G -> Q * G) (call' : G' -> Q * G')
    (a i : nat) (σ : gmap nat (list T)) (g : G) (g' : G') :
  draws call i g = draws call' i g' ->
  fst (shuffle_loop call a i σ g) = fst (shuffle_loop call' a i σ g').
Proof.
  revert σ g g'. induction i as [| i IH]; intros σ g g'; [done |].
  rewrite !draws_S. cbn [shuffle_loop].
  destruct (call g) as [r h], (call' g') as [r' h']. cbn [fst snd].
  intros [= -> Hd]. by apply IH.
Qed.

Lemma shuffled_with_draws {T : Type} (rand rand' : generator) (l : list T) :
  draws (gen_call rand) (length l - 1) (gen_current rand)
  = draws (gen_call rand') (length l - 1) (gen_current rand') ->
  shuffled_with rand l = shuffled_with rand' l.
Proof.
  intros Hd. unfold shuffled_with, shuffleArray, slice.
  rewrite !lookup_insert_eq. cbn [from_option id].
  by rewrite (shuffle_loop_draws _ _ _ _ _ _ _ Hd).
Qed.

(** X6.  The shuffle keeps the length of the list, returns a list of at
    most one element as it is, and calls the generator exactly
    [length - 1] times (none for an empty list): two generators that agree
    on their first [length - 1] numbers give the same order. *)
Theorem X6_shuffle_draws {T : Type} (rand rand' : generator) (l : list T) :
  length (shuffled_with rand l) = length l
  /\ (length l <= 1 -> shuffled_with rand l = l)%nat
  /\ (draws (gen_call rand) (length l - 1) (gen_current rand)
      = draws (gen_call rand') (length l - 1) (gen_current rand') ->
      shuffled_with rand l = shuffled_with rand' l)
  /\ (forall (a i : nat) (σ : gmap nat (list T)),
        snd (shuffle_loop (gen_call rand) a i σ (gen_current rand))
        = state_after (gen_call rand) i (gen_current rand)).
Proof.
  split_and!.
  - apply Permutation_length, shuffled_with_Permutation.
  - intros Hlen. pose proof (shuffled_with_Permutation rand l) as P.
    destruct l as [| x [| y l]]; [| | cbn in Hlen; lia].
    + by apply Permutation_nil_r in P.
    + by apply Permutation_singleton_r in P.
  - apply shuffled_with_draws.
  - intros a i σ. apply shuffle_loop_state.
Qed.

(** While the state is exact, a draw depends on the state modulo 2^32
    only. *)
Lemma mulberry32_call_congruent (a a' : Z) :
  Z.abs (a + 0x6d2b79f5) < 2 ^ 53 -> Z.abs (a' + 0x6d2b79f5) < 2 ^ 53 ->
  wrap32 a = wrap32 a' ->
  fst (mulberry32_call a) = fst (mulberry32_call a')
  /\ snd (mulberry32_call a) = a + 0x6d2b79f5
  /\ snd (mulberry32_call a') = a' + 0x6d2b79f5
  /\ wrap32 (a + 0x6d2b79f5) = wrap32 (a' + 0x6d2b79f5).
Proof.
  intros Ha Ha' Hw.
  assert (E : wrap32 (a + 0x6d2b79f5) = wrap32 (a' + 0x6d2b79f5)).
  { unfold wrap32 in *. rewrite (Z.add_mod a), (Z.add_mod a') by lia. by rewrite Hw. }
  unfold mulberry32_call. cbv zeta. cbn [fst snd].
  rewrite !round53_small by done. by rewrite E.
Qed.

(** X7.  Seeds that differ by a multiple of 2^32 give the same numbers,
    hence the same order: for two non-negative seeds with the same low 32
    bits, as long as the state stays below 2^53 (which it does for seeds
    of the size of a time stamp), the first [n] numbers are the same, and
    so is the shuffle of a list of at most [n + 1] elements. *)
Theorem X7_seed_matters_modulo_2_32 {T : Type} (a a' : Z) (n : nat) (l : list T) :
  0 <= a -> 0 <= a' ->
  a + Z.of_nat n * 0x6d2b79f5 < 2 ^ 53 ->
  a' + Z.of_nat n * 0x6d2b79f5 < 2 ^ 53 ->
  a mod 2 ^ 32 = a' mod 2 ^ 32 ->
  (length l <= S n)%nat ->
  draws mulberry32_call n a = draws mulberry32_call n a'
  /\ shuffled_with (mulberry32 a) l = shuffled_with (mulberry32 a') l.
Proof.
  intros Ha Ha' Hb Hb' Hmod Hlen.
  assert (Hdraws : forall m a a',
            0 <= a -> 0 <= a' ->
            a + Z.of_nat m * 0x6d2b79f5 < 2 ^ 53 ->
            a' + Z.of_nat m * 0x6d2b79f5 < 2 ^ 53 ->
            wrap32 a = wrap32 a' ->
            draws mulberry32_call m a = draws mulberry32_call m a').
  { clear. induction m as [| m IH]; intros a a' Ha Ha' Hb Hb' Hw; [done |].
    rewrite !draws_S.
    destruct (mulberry32_call_congruent a a') as (E1 & E2 & E3 & E4);
      [lia | lia | done |].
    rewrite E1, E2, E3. f_equal. apply IH; [lia | lia | lia | lia | done]. }
  split; [by apply Hdraws |].
  apply shuffled_with_draws. cbn [gen_call gen_current mulberry32].
  apply Hdraws; [done | done | lia | lia | done].
Qed.

Lemma X7_seed_matters_modulo_2_32_witness :
  shuffled_with (mulberry32 5) [1; 2; 3; 4; 5; 6; 7; 8; 9; 10]%nat
  = shuffled_with (mulberry32 (5 + 2 ^ 32)) [1; 2; 3; 4; 5; 6; 7; 8; 9; 10]%nat.
Proof.
  refine (proj2 (X7_seed_matters_modulo_2_32 5 (5 + 2 ^ 32) 9
                   [1; 2; 3; 4; 5; 6; 7; 8; 9; 10]%nat _ _ _ _ _ _));
    [lia | lia | lia | lia | reflexivity | cbn; lia].
Defined.

End ShufflerMore.

(** ** The rank route: errors and answers *)

Section RankRoute.
Import JS Recommend.

(** X8.  The errors of the rank route.  An answer with an error is one of:
    status 400 "Missing bookId" for a body that is an object without book
    id (as is the [{}] taken for a body that cannot be read); status 404
    when the target query failed (with its message), found no row, or
    found a row whose embedding is not an array; status 500 when the body
    is [null] (destructuring it throws, with the engine's message and
    whatever the database would have answered), when creating the
    database client threw, or when the query for the other rows failed,
    with the message of that failure.
    A failure of the query for the book details is never answered with
    an error. *)
Theorem X8_rank_route_errors
    (cosineSimilarity : list number -> list number -> number) (env : Env)
    (status : nat) (msg : string) :
  POST cosineSimilarity env = ErrorJson status msg ->
  (status = 400%nat /\ msg = "Missing bookId"
   /\ exists b, body env = Some b /\ nonempty (default "" (bookId b)) = false)
  \/ (status = 404%nat
      /\ exists db, createClient env = Ok db
           /\ (error (target_query db) = Some msg
               \/ (error (target_query db) = None /\ data (target_query db) = None
                   /\ msg = "No AI data found for target book")
               \/ (error (target_query db) = None
                   /\ msg = "Target embedding not available"
                   /\ exists row, data (target_query db) = Some row
                                  /\ embedding row = None)))
  \/ (status = 500%nat
      /\ (body env = None
          \/ (exists b, body env = Some b /\ createClient env = Throw msg)
          \/ exists db, createClient env = Ok db
               /\ error (target_query db) = None
               /\ error (rows_query db) = Some msg)).
Proof.
  unfold POST, handle.
  destruct (body env) as [b |];
    [| intros [= <- _]; right; right; split; [done | by left]].
  destruct (nonempty (default "" (bookId b))) eqn:Hid;
    cbn [negb]; [| intros [= <- <-]; left; split_and!; [done | done |]; by exists b].
  destruct (createClient env) as [db | e];
    [| intros [= <- <-]; right; right; split; [done |]; right; left; by exists b].
  destruct (error (target_query db)) as [m |] eqn:He.
  { intros [= <- <-]. right. left. split; [done |]. exists db. split; [done | by left]. }
  destruct (data (target_query db)) as [row |] eqn:Hd.
  2: { intros [= <- <-]. right. left. split; [done |]. exists db.
       split; [done |]. right. by left. }
  destruct (embedding row) as [t |] eqn:Hemb.
  2: { intros [= <- <-]. right. left. split; [done |]. exists db.
       split; [done |]. right. right. split_and!; try done. by exists row. }
  destruct (error (rows_query db)) as [m |] eqn:Hr.
  { intros [= <- <-]. right. right. split; [done |]. right. right. by exists db. }
  destruct (bool_decide _); [discriminate |].
  destruct (error (books_query db _)); discriminate.
Qed.

Lemma X8_rank_route_errors_witness :
  exists status,
    POST Scenario.constant_similarity
      {| body := None; createClient := Ok Scenario.rank_db |}
    = ErrorJson status destructuring_null
    /\ (status = 400 \/ status = 404 \/ status = 500)%nat.
Proof.
  assert (H : POST Scenario.constant_similarity
                {| body := None; createClient := Ok Scenario.rank_db |}
              = ErrorJson 500 destructuring_null) by reflexivity.
  exists 500%nat. split; [exact H |].
  destruct (X8_rank_route_errors Scenario.constant_similarity
              {| body := None; createClient := Ok Scenario.rank_db |}
              500 destructuring_null H) as [(E & _) | [(E & _) | (E & _)]]; auto.
Defined.

(** The entries of the ranking are the scored valid rows. *)
Lemma scored_elem cosineSimilarity (b : RecommendRequest)
    (targetEmbedding : list number) (rows : list AiRow) (s : Scored) :
  s ∈ scored cosineSimilarity b targetEmbedding rows ->
  exists row, row ∈ rows /\ valid_row row = true
              /\ s = to_scored cosineSimilarity targetEmbedding row.
Proof.
  unfold scored.
  destruct (slice0_take (ranked cosineSimilarity targetEmbedding rows)
              (default (of_Z 5) (topK b))) as [n ->].
  intros Hs. apply (sublist_subseteq _ _ (sublist_take _ _)) in Hs.
  unfold ranked in Hs. rewrite Array_sort_Permutation in Hs.
  apply list_elem_of_In, in_map_iff in Hs as (row & <- & Hrow).
  apply filter_In in Hrow as [Hin Hv]. exists row.
  split_and!; [by apply list_elem_of_In | done | done].
Qed.

Lemma scored_length_le cosineSimilarity (b : RecommendRequest)
    (targetEmbedding : list number) (rows : list AiRow) :
  (length (scored cosineSimilarity b targetEmbedding rows)
   <= length (List.filter valid_row rows))%nat.
Proof.
  unfold scored.
  destruct (slice0_take (ranked cosineSimilarity targetEmbedding rows)
              (default (of_Z 5) (topK b))) as [n ->].
  rewrite length_take. unfold ranked.
  rewrite (Permutation_length (Array_sort_Permutation _)), length_map. lia.
Qed.

(** The answer of a request that passes the checks. *)
Lemma rank_POST_Json cosineSimilarity (env : Env) (db : Supabase)
    (targetRow : AiRow) (targetEmbedding : list number) :
  let b := default empty_body (body env) in
  let ranking := scored cosineSimilarity b targetEmbedding
                   (default [] (data (rows_query db))) in
  nonempty (default "" (bookId b)) = true ->
  createClient env = Ok db ->
  error (target_query db) = None ->
  data (target_query db) = Some targetRow ->
  embedding targetRow = Some targetEmbedding ->
  error (rows_query db) = None ->
  POST cosineSimilarity env
  = Json (match error (books_query db (map scored_book_id ranking)) with
          | Some _ =>
              map (fun s => WithoutBook (scored_book_id s) (score s)
                              (scored_tags s) (scored_summary s)) ranking
          | None =>
              map (fun s => WithBook (score s) (scored_tags s) (scored_summary s)
                              (find_book
                                 (default []
                                    (data (books_query db
                                             (map scored_book_id ranking)))) s))
                ranking
          end).
Proof.
  cbv zeta. intros Hid Hdb He Hd Hemb Hr. unfold POST, handle.
  destruct (body env) as [b |]; [| discriminate Hid].
  cbn [default from_option Datatypes.id] in *.
  rewrite Hid, Hdb, He, Hd, Hemb, Hr. cbn [negb].
  destruct (bool_decide _) eqn:Hlen.
  - apply bool_decide_eq_true in Hlen. apply nil_length_inv in Hlen. rewrite Hlen.
    cbn [map]. by destruct (error (books_query db [])).
  - by destruct (error (books_query db _)).
Qed.

(** X9.  What the rank route returns.  For a request that passes the
    checks (book id, target row with an embedding, rows query without
    error) the answer is a list of recommendations, one for each entry of
    the ranking: each carries the similarity of the target to a row whose
    embedding is a non-empty array, rows without such an embedding are
    never recommended, and there are no more recommendations than such
    rows. *)
Theorem X9_rank_route_answer
    (cosineSimilarity : list number -> list number -> number) (env : Env)
    (db : Supabase) (targetRow : AiRow) (targetEmbedding : list number) :
  let b := default empty_body (body env) in
  let rows := default [] (data (rows_query db)) in
  nonempty (default "" (bookId b)) = true ->
  createClient env = Ok db ->
  error (target_query db) = None ->
  data (target_query db) = Some targetRow ->
  embedding targetRow = Some targetEmbedding ->
  error (rows_query db) = None ->
  exists recs,
    POST cosineSimilarity env = Json recs
    /\ map recommendation_score recs
       = map score (scored cosineSimilarity b targetEmbedding rows)
    /\ Forall (fun r => exists row,
                 row ∈ rows /\ valid_row row = true
                 /\ recommendation_score r
                    = cosineSimilarity targetEmbedding (default [] (embedding row)))
         recs
    /\ (length recs <= length (List.filter valid_row rows))%nat.
Proof.
  cbv zeta. intros Hid Hdb He Hd Hemb Hr.
  rewrite (rank_POST_Json cosineSimilarity env db targetRow targetEmbedding)
    by done.
  eexists. split; [reflexivity |].
  set (ranking := scored cosineSimilarity (default empty_body (body env))
                    targetEmbedding (default [] (data (rows_query db)))).
  set (answer := match error (books_query db (map scored_book_id ranking)) with
                 | Some _ => _
                 | None => _
                 end).
  assert (Hscores : map recommendation_score answer = map score ranking).
  { subst answer. destruct (error (books_query db (map scored_book_id ranking)));
      by rewrite map_map. }
  split_and!.
  - exact Hscores.
  - apply Forall_forall. intros r Hin.
    apply list_elem_of_In, (in_map recommendation_score) in Hin.
    rewrite Hscores in Hin. apply in_map_iff in Hin as (s & Hs & Hin).
    apply list_elem_of_In, scored_elem in Hin as (row & Hrow & Hv & ->).
    exists row. by split_and!.
  - rewrite <- (length_map recommendation_score), Hscores, length_map.
    apply scored_length_le.
Qed.

Lemma X9_rank_route_answer_witness :
  exists recs,
    POST Scenario.constant_similarity (Scenario.rank_request 5) = Json recs
    /\ map recommendation_score recs
       = map score
           (scored Scenario.constant_similarity
              (default empty_body (body (Scenario.rank_request 5)))
              [of_Z 1; of_Z 0]
              (default [] (data (rows_query Scenario.rank_db))))
    /\ Forall (fun r => exists row,
                 row ∈ default [] (data (rows_query Scenario.rank_db))
                 /\ valid_row row = true
                 /\ recommendation_score r
                    = Scenario.constant_similarity [of_Z 1; of_Z 0]
                        (default [] (embedding row)))
         recs
    /\ (length recs
        <= length (List.filter valid_row
                     (default [] (data (rows_query Scenario.rank_db)))))%nat.
Proof.
  apply (X9_rank_route_answer Scenario.constant_similarity
           (Scenario.rank_request 5) Scenario.rank_db (Scenario.ai_row "target")
           [of_Z 1; of_Z 0]); reflexivity.
Defined.

(** X10.  The query for the book details does not touch the ranking.  Two
    requests with the same body whose databases agree on the target row
    and on the other rows get the same error, or recommendations with the
    same scores in the same order, however the queries for the book
    details turn out. *)
Theorem X10_rank_details_do_not_change_ranking
    (cosineSimilarity : list number -> list number -> number)
    (env1 env2 : Env) (db1 db2 : Supabase) :
  body env1 = body env2 ->
  createClient env1 = Ok db1 ->
  createClient env2 = Ok db2 ->
  target_query db1 = target_query db2 ->
  rows_query db1 = rows_query db2 ->
  match POST cosineSimilarity env1, POST cosineSimilarity env2 with
  | Json recs1, Json recs2 =>
      map recommendation_score recs1 = map recommendation_score recs2
  | ErrorJson status1 msg1, ErrorJson status2 msg2 =>
      status1 = status2 /\ msg1 = msg2
  | _, _ => False
  end.
Proof.
  intros Hb Hdb1 Hdb2 Ht Hr. unfold POST, handle.
  rewrite Hdb1, Hdb2, <- Hb, <- Ht, <- Hr.
  destruct (body env1) as [b |]; [| done].
  destruct (negb (nonempty _)); [done |].
  destruct (error (target_query db1)); [done |].
  destruct (data (target_query db1)) as [row |]; [| done].
  destruct (embedding row) as [t |]; [| done].
  destruct (error (rows_query db1)); [done |].
  destruct (bool_decide _); [done |].
  destruct (error (books_query db1 _)), (error (books_query db2 _));
    by rewrite !map_map.
Qed.

Lemma X10_rank_details_do_not_change_ranking_witness :
  match POST Scenario.constant_similarity (Scenario.rank_request 5),
        POST Scenario.constant_similarity (Cases.rank_request_without_details 5)
  with
  | Json recs1, Json recs2 =>
      map recommendation_score recs1 = map recommendation_score recs2
  | ErrorJson status1 msg1, ErrorJson status2 msg2 =>
      status1 = status2 /\ msg1 = msg2
  | _, _ => False
  end.
Proof.
  apply (X10_rank_details_do_not_change_ranking Scenario.constant_similarity
           (Scenario.rank_request 5) (Cases.rank_request_without_details 5)
           Scenario.rank_db Cases.rank_db_without_details); reflexivity.
Defined.

(** X11.  The rank route returns the top [topK].  For a request that
    passes the checks and asks for a natural number [n] of
    recommendations (5 when the body has no [topK]), the scores of the
    answer are those of the first [n] entries of the ranking, so their
    number is the smaller of [n] and the number of rows with a non-empty
    embedding. *)
Theorem X11_rank_route_top_k
    (cosineSimilarity : list number -> list number -> number) (env : Env)
    (db : Supabase) (targetRow : AiRow) (targetEmbedding : list number)
    (n : nat) :
  let b := default empty_body (body env) in
  let rows := default [] (data (rows_query db)) in
  nonempty (default "" (bookId b)) = true ->
  createClient env = Ok db ->
  error (target_query db) = None ->
  data (target_query db) = Some targetRow ->
  embedding targetRow = Some targetEmbedding ->
  error (rows_query db) = None ->
  default (of_Z 5) (topK b) = of_Z (Z.of_nat n) ->
  exists recs,
    POST cosineSimilarity env = Json recs
    /\ map recommendation_score recs
       = map score (take n (ranked cosineSimilarity targetEmbedding rows))
    /\ length recs = Nat.min n (length (List.filter valid_row rows)).
Proof.
  cbv zeta. intros Hid Hdb He Hd Hemb Hr Hk.
  assert (Hscored : scored cosineSimilarity (default empty_body (body env))
                      targetEmbedding (default [] (data (rows_query db)))
                    = take n (ranked cosineSimilarity targetEmbedding
                                (default [] (data (rows_query db))))).
  { unfold scored. rewrite Hk. unfold of_Z. cbn [slice0 inject_Z Qnum Qden].
    rewrite Z.quot_1_r.
    destruct (Z.of_nat n <? 0)%Z eqn:E; [apply Z.ltb_lt in E; lia |].
    by rewrite Nat2Z.id. }
  rewrite (rank_POST_Json cosineSimilarity env db targetRow targetEmbedding)
    by done.
  rewrite Hscored. eexists. split; [reflexivity |].
  set (ranking := take n (ranked cosineSimilarity targetEmbedding
                            (default [] (data (rows_query db))))).
  set (answer := match error (books_query db (map scored_book_id ranking)) with
                 | Some _ => _
                 | None => _
                 end).
  assert (Hscores : map recommendation_score answer = map score ranking).
  { subst answer. destruct (error (books_query db (map scored_book_id ranking)));
      by rewrite map_map. }
  split; [exact Hscores |].
  rewrite <- (length_map recommendation_score), Hscores, length_map.
  subst ranking. rewrite length_take. unfold ranked.
  by rewrite (Permutation_length (Array_sort_Permutation _)), length_map.
Qed.

Lemma X11_rank_route_top_k_witness :
  exists recs,
    POST Scenario.constant_similarity (Scenario.rank_request 7) = Json recs
    /\ map recommendation_score recs
       = map score
           (take 7 (ranked Scenario.constant_similarity [of_Z 1; of_Z 0]
                      (default [] (data (rows_query Scenario.rank_db)))))
    /\ length recs
       = Nat.min 7
           (length (List.filter valid_row
                      (default [] (data (rows_query Scenario.rank_db))))).
Proof.
  apply (X11_rank_route_top_k Scenario.constant_similarity
           (Scenario.rank_request 7) Scenario.rank_db (Scenario.ai_row "target")
           [of_Z 1; of_Z 0] 7); reflexivity.
Defined.

End RankRoute.

(** ** The client: what the two passes choose together *)

Section ClientPasses.
Import JS Client.
Implicit Types (pool chosen picked : list Recommendation)
  (seen current : gset string) (c : Recommendation).

(** The titles the relaxed loop has seen are those it started with and
    those of the candidates it chose. *)
Lemma relaxed_loop_seen pool chosen seen :
  exists picked,
    fst (relaxed_loop pool chosen seen) = chosen ++ picked
    /\ snd (relaxed_loop pool chosen seen)
       = list_to_set (map normalized_title picked) ∪ seen.
Proof.
  revert chosen seen. induction pool as [| c pool IH]; intros chosen seen.
  - exists []. cbn. rewrite app_nil_r. split; [done | set_solver].
  - rewrite relaxed_loop_cons. destruct (_ && _); [| apply IH].
    destruct (MAX_WEB_RECS <=? _)%nat.
    + exists [c]. cbn. split; [done | set_solver].
    + destruct (IH (chosen ++ [c]) ({[normalized_title c]} ∪ seen))
        as (picked & E1 & E2).
      exists (c :: picked). rewrite E1, E2, <- app_assoc. cbn.
      split; [done | set_solver].
Qed.

(** The strict pass is the relaxed loop on the pool without the excluded
    candidates. *)
Lemma strict_pass_filter current pool chosen seen :
  strict_pass current pool chosen seen
  = relaxed_loop
      (List.filter (fun c => negb (bool_decide (normalized_title c ∈ current))) pool)
      chosen seen.
Proof.
  revert chosen seen. induction pool as [| c pool IH]; intros chosen seen; [done |].
  rewrite strict_pass_cons. cbn [List.filter].
  destruct (bool_decide (normalized_title c ∈ current)) eqn:Hc; cbn [negb].
  - rewrite andb_false_r. apply IH.
  - rewrite andb_true_r, relaxed_loop_cons, !IH. done.
Qed.

Lemma usable_titles_filter current pool :
  usable_titles
    (List.filter (fun c => negb (bool_decide (normalized_title c ∈ current))) pool)
  = usable_titles pool ∖ current.
Proof.
  induction pool as [| c pool IH]; [set_solver |].
  cbn [List.filter]. rewrite (usable_titles_cons c pool).
  destruct (bool_decide (normalized_title c ∈ current)) eqn:Hc; cbn [negb].
  - apply bool_decide_eq_true in Hc. rewrite IH. destruct (usable c); set_solver.
  - apply bool_decide_eq_false in Hc. rewrite usable_titles_cons, IH.
    destruct (usable c); set_solver.
Qed.

Lemma elem_of_usable_titles c pool :
  c ∈ pool -> usable c = true -> normalized_title c ∈ usable_titles pool.
Proof.
  intros Hin Hu. unfold usable_titles. apply elem_of_list_to_set.
  apply list_elem_of_In, in_map, filter_In. split; [by apply list_elem_of_In | done].
Qed.

(** The two passes together: see X12 below. *)
Lemma passes_spec (excludeTitles : option (gset string))
    (recs : option (list Recommendation)) (pool : list Recommendation) :
  let current := currentTitles excludeTitles recs in
  let strict := strict_pass current pool [] ∅ in
  let relaxed := relaxed_pass pool (fst strict) (snd strict) in
  exists stale,
    fst relaxed = fst strict ++ stale
    /\ Forall (fun c => usable c = true /\ normalized_title c ∉ current) (fst strict)
    /\ Forall (fun c => usable c = true /\ normalized_title c ∈ current) stale
    /\ NoDup (map normalized_title (fst relaxed))
    /\ (forall c, c ∈ fst relaxed -> c ∈ pool)
    /\ length (fst strict)
       = Nat.min MAX_WEB_RECS (size (usable_titles pool ∖ current))
    /\ length (fst relaxed) = Nat.min MAX_WEB_RECS (size (usable_titles pool))
    /\ (fst relaxed <> [] -> select excludeTitles recs pool = fst relaxed).
Proof.
  cbv zeta. set (current := currentTitles excludeTitles recs).
  set (fresh := List.filter
                  (fun c => negb (bool_decide (normalized_title c ∈ current))) pool).
  rewrite strict_pass_filter. fold fresh.
  destruct (relaxed_loop_spec fresh [] ∅) as (picked1 & E1 & Hsub1 & Hall1 & Hnd1 & Hn1).
  { cbn. unfold MAX_WEB_RECS. lia. }
  destruct (relaxed_loop_seen fresh [] ∅) as (picked1' & E1' & Hseen1).
  rewrite E1 in E1'. cbn [app] in E1, E1'. subst picked1'.
  cbn [length] in Hn1. rewrite Nat.sub_0_r in Hn1.
  replace (usable_titles fresh ∖ ∅) with (usable_titles pool ∖ current) in Hn1
    by (unfold fresh; rewrite usable_titles_filter; set_solver).
  assert (Hseen : snd (relaxed_loop fresh [] ∅)
                  = list_to_set (map normalized_title picked1)).
  { rewrite Hseen1. set_solver. }
  rewrite E1, Hseen.
  assert (Hfresh : Forall (fun c => usable c = true /\ normalized_title c ∉ current)
                     picked1).
  { apply Forall_forall. intros c Hc. rewrite Forall_forall in Hall1.
    split; [by apply Hall1 |].
    apply (sublist_subseteq _ _ Hsub1), list_elem_of_In, filter_In in Hc as [_ Hc].
    by apply negb_true_iff, bool_decide_eq_false in Hc. }
  assert (Hpool1 : forall c, c ∈ picked1 -> c ∈ pool).
  { intros c Hc. apply (sublist_subseteq _ _ Hsub1), list_elem_of_In, filter_In in Hc.
    apply list_elem_of_In, Hc. }
  assert (Hsize1 : size (list_to_set (map normalized_title picked1) : gset string)
                   = length picked1).
  { rewrite size_list_to_set by done. apply length_map. }
  assert (Hsub : (list_to_set (map normalized_title picked1) : gset string)
                 ⊆ usable_titles pool ∖ current).
  { intros t Ht. apply elem_of_list_to_set, list_elem_of_In, in_map_iff in Ht
      as (c & <- & Hc). apply list_elem_of_In in Hc.
    rewrite Forall_forall in Hfresh. destruct (Hfresh c Hc) as [Hu Hnc].
    apply elem_of_difference. split; [| done].
    apply elem_of_usable_titles; [by apply Hpool1 | done]. }
  pose proof (subseteq_size _ _ Hsub) as Hle. rewrite Hsize1 in Hle.
  assert (HleU : (size (usable_titles pool ∖ current) <= size (usable_titles pool))%nat).
  { apply subseteq_size. set_solver. }
  unfold relaxed_pass.
  destruct (length picked1 <? MAX_WEB_RECS)%nat eqn:Hfull.
  - apply Nat.ltb_lt in Hfull.
    assert (Hall_fresh : list_to_set (map normalized_title picked1)
                         = usable_titles pool ∖ current).
    { apply set_subseteq_size_eq; [done |]. rewrite Hsize1. lia. }
    destruct (relaxed_loop_spec pool picked1
                (list_to_set (map normalized_title picked1)) Hfull)
      as (picked2 & E2 & Hsub2 & Hall2 & Hnd2 & Hn2).
    rewrite E2. exists picked2. rewrite Forall_forall in Hall2.
    split_and!; [done | done | | | | done | |].
    + apply Forall_forall. intros c Hc. destruct (Hall2 c Hc) as [Hu Hns].
      split; [done |]. rewrite Hall_fresh in Hns.
      pose proof (elem_of_usable_titles c pool
                    (sublist_subseteq _ _ Hsub2 c Hc) Hu) as HU.
      destruct (decide (normalized_title c ∈ current)); [done |]. set_solver.
    + rewrite map_app. apply NoDup_app. split_and!; [done | | done].
      intros t Ht1 Ht2.
      apply list_elem_of_In, in_map_iff in Ht2 as (c & <- & Hc).
      apply list_elem_of_In in Hc. destruct (Hall2 c Hc) as [_ Hns].
      apply Hns. by apply elem_of_list_to_set.
    + intros c [Hc | Hc]%elem_of_app; [by apply Hpool1 |].
      by apply (sublist_subseteq _ _ Hsub2).
    + rewrite length_app, Hn2, Hall_fresh.
      replace (usable_titles pool ∖ (usable_titles pool ∖ current))
        with (usable_titles pool ∩ current)
        by (apply set_eq; intros t;
            destruct (decide (t ∈ current)); set_solver).
      pose proof (size_union_alt (usable_titles pool ∖ current)
                    (usable_titles pool)) as Hu.
      replace ((usable_titles pool ∖ current) ∪ usable_titles pool)
        with (usable_titles pool) in Hu by set_solver.
      replace (usable_titles pool ∖ (usable_titles pool ∖ current))
        with (usable_titles pool ∩ current) in Hu
        by (apply set_eq; intros t;
            destruct (decide (t ∈ current)); set_solver).
      unfold MAX_WEB_RECS in *. lia.
    + intros Hne. unfold select. fold current. rewrite strict_pass_filter. fold fresh.
      destruct (relaxed_loop fresh [] ∅) as [ch se] eqn:Er.
      cbn [fst snd] in E1, Hseen. subst ch se.
      unfold relaxed_pass. rewrite (proj2 (Nat.ltb_lt _ _) Hfull).
      destruct (relaxed_loop pool picked1 _) as [ch se] eqn:Er2.
      cbn [fst] in E2. subst ch. cbn [fst] in Hne.
      unfold rotate_fallback.
      destruct (picked1 ++ picked2) as [| x xs] eqn:Ex; [done |].
      apply firstn_all2. rewrite <- Ex, length_app, Hn2. unfold MAX_WEB_RECS in *. lia.
  - apply Nat.ltb_ge in Hfull. exists []. cbn [fst]. rewrite app_nil_r.
    split_and!; [done | done | constructor | done | done | done | |].
    + unfold MAX_WEB_RECS in *. lia.
    + intros Hne. unfold select. fold current. rewrite strict_pass_filter. fold fresh.
      destruct (relaxed_loop fresh [] ∅) as [ch se] eqn:Er.
      cbn [fst snd] in E1, Hseen. subst ch se.
      unfold relaxed_pass. rewrite (proj2 (Nat.ltb_ge _ _) Hfull).
      unfold rotate_fallback. destruct picked1 as [| x xs] eqn:Ex; [done |].
      apply firstn_all2. rewrite Hn1. unfold MAX_WEB_RECS in *. lia.
Qed.

(** X12.  The two passes together.  The candidates chosen by the strict
    pass come first, all of them usable and none of them excluded; the
    relaxed pass appends candidates that are usable and excluded, so an
    excluded title is shown only when fewer than three others exist.  All
    chosen candidates are in the pool and have pairwise different
    normalised titles.  The strict pass chooses min(3, number of distinct
    usable titles that are not excluded) candidates, both passes
    together min(3, number of distinct usable titles); and when that is
    not zero, this is what [select] returns. *)
Theorem X12_passes_prefer_fresh_titles (excludeTitles : option (gset string))
    (recs : option (list Recommendation)) (pool : list Recommendation) :
  let current := currentTitles excludeTitles recs in
  let strict := strict_pass current pool [] ∅ in
  let relaxed := relaxed_pass pool (fst strict) (snd strict) in
  exists stale,
    fst relaxed = fst strict ++ stale
    /\ Forall (fun c => usable c = true /\ normalized_title c ∉ current) (fst strict)
    /\ Forall (fun c => usable c = true /\ normalized_title c ∈ current) stale
    /\ NoDup (map normalized_title (fst relaxed))
    /\ (forall c, c ∈ fst relaxed -> c ∈ pool)
    /\ length (fst strict)
       = Nat.min MAX_WEB_RECS (size (usable_titles pool ∖ current))
    /\ length (fst relaxed) = Nat.min MAX_WEB_RECS (size (usable_titles pool))
    /\ (fst relaxed <> [] -> select excludeTitles recs pool = fst relaxed).
Proof. apply passes_spec. Qed.

Lemma usable_titles_Permutation pool pool' :
  pool ≡ₚ pool' -> usable_titles pool = usable_titles pool'.
Proof.
  intros P. unfold usable_titles. apply set_eq. intros t.
  rewrite !elem_of_list_to_set, !list_elem_of_In, !in_map_iff.
  split; intros (c & E & Hc); exists c; (split; [done |]);
    apply filter_In in Hc as [Hc Hu]; apply filter_In; (split; [| done]);
    apply list_elem_of_In; apply list_elem_of_In in Hc;
    [by rewrite <- P | by rewrite P].
Qed.

(** X13.  A refresh shows new titles when there are enough.  When the
    call succeeds and the server's recommendations hold at least three
    distinct usable titles outside the exclusion set, the component shows
    exactly three recommendations, all from the server's answer, with
    pairwise different normalised titles, none of them excluded. *)
Theorem X13_refresh_shows_new_titles (p : Props) (st : State)
    (server : ServerRequest -> FetchOutcome) (entropy : nat -> Q)
    (excludeTitles : option (gset string)) (seed : option WebRecommend.SeedValue)
    (json : option ServerJson) :
  let mapped := map to_recommendation
                  (default [] (json_recommendations (default empty_json json))) in
  let current := currentTitles excludeTitles (recs st) in
  server (request p seed) = Responded true json ->
  (3 <= size (usable_titles mapped ∖ current))%nat ->
  exists shown,
    recs (fetchWebRecommendations p st server entropy excludeTitles seed) = Some shown
    /\ length shown = 3%nat
    /\ NoDup (map normalized_title shown)
    /\ Forall (fun c => c ∈ mapped /\ usable c = true
                       /\ normalized_title c ∉ current) shown.
Proof.
  cbv zeta. intros Hserver Hsize.
  set (mapped := map to_recommendation
                   (default [] (json_recommendations (default empty_json json))))
    in *.
  set (shuffled := Shuffler.client_shuffled entropy mapped).
  assert (P : shuffled ≡ₚ mapped) by apply client_shuffled_Permutation.
  destruct (passes_spec excludeTitles (recs st) shuffled)
    as (stale & E & Hfresh & Hstale & Hnd & Hpool & Hn1 & Hn2 & Hsel).
  rewrite (usable_titles_Permutation _ _ P) in Hn1, Hn2.
  assert (HU : (size (usable_titles mapped ∖ currentTitles excludeTitles (recs st))
                <= size (usable_titles mapped))%nat).
  { apply subseteq_size. intros t [Ht _]%elem_of_difference. exact Ht. }
  unfold MAX_WEB_RECS in *.
  assert (Hstale0 : stale = []).
  { apply nil_length_inv. apply (f_equal length) in E. rewrite length_app in E. lia. }
  subst stale. rewrite app_nil_r in E.
  exists (fst (relaxed_pass shuffled
                 (fst (strict_pass (currentTitles excludeTitles (recs st)) shuffled [] ∅))
                 (snd (strict_pass (currentTitles excludeTitles (recs st)) shuffled [] ∅)))).
  split_and!.
  - unfold fetchWebRecommendations. rewrite Hserver. cbn [negb recs].
    fold mapped. fold shuffled. rewrite Hsel; [done |].
    intros Hnil. rewrite Hnil in Hn2. cbn [length] in Hn2. lia.
  - lia.
  - done.
  - rewrite E. apply Forall_forall. intros c Hc.
    rewrite Forall_forall in Hfresh. destruct (Hfresh c Hc) as [Hu Hnc].
    split_and!; [| done | done].
    rewrite <- P. apply Hpool. by rewrite E.
Qed.

Lemma X13_refresh_shows_new_titles_witness :
  exists shown,
    recs (fetchWebRecommendations (Scenario.props 5) (Scenario.showing [])
            (Scenario.server_with
               [Scenario.item "Emma"; Scenario.item "Hamlet"; Scenario.item "Ulysses"])
            (fun _ => 0%Q) None None) = Some shown
    /\ length shown = 3%nat
    /\ NoDup (map normalized_title shown)
    /\ Forall (fun c =>
                 c ∈ map to_recommendation
                       (default []
                          (json_recommendations
                             (default empty_json
                                (Some {| json_recommendations :=
                                           Some [Scenario.item "Emma";
                                                 Scenario.item "Hamlet";
                                                 Scenario.item "Ulysses"];
                                         json_error := None |}))))
                 /\ usable c = true
                 /\ normalized_title c
                    ∉ currentTitles None (recs (Scenario.showing []))) shown.
Proof.
  apply (X13_refresh_shows_new_titles (Scenario.props 5) (Scenario.showing [])
           (Scenario.server_with
              [Scenario.item "Emma"; Scenario.item "Hamlet"; Scenario.item "Ulysses"])
           (fun _ => 0%Q) None None
           (Some {| json_recommendations :=
                      Some [Scenario.item "Emma"; Scenario.item "Hamlet";
                            Scenario.item "Ulysses"];
                    json_error := None |}));
    [reflexivity | vm_compute; lia].
Defined.

(** X14.  The component never shows more than three recommendations, and
    shows nothing it was not given: whatever the call returns, every
    recommendation it leaves on display was among those of the server's
    answer or among those displayed before. *)
Theorem X14_shown_items_origin (p : Props) (st : State)
    (server : ServerRequest -> FetchOutcome) (entropy : nat -> Q)
    (excludeTitles : option (gset string)) (seed : option WebRecommend.SeedValue) :
  exists shown,
    recs (fetchWebRecommendations p st server entropy excludeTitles seed) = Some shown
    /\ (length shown <= 3)%nat
    /\ forall c, c ∈ shown ->
         c ∈ default [] (recs st)
         \/ exists json item,
              server (request p seed) = Responded true (Some json)
              /\ item ∈ default [] (json_recommendations json)
              /\ c = to_recommendation item.
Proof.
  unfold fetchWebRecommendations.
  destruct (server (request p seed)) as [e | ok json] eqn:Hserver.
  { exists []. cbn. split_and!; [done | lia | by intros c ?%elem_of_nil]. }
  destruct ok; cbn [negb].
  2: { exists []. cbn. split_and!; [done | lia | by intros c ?%elem_of_nil]. }
  eexists. cbn [recs]. split; [reflexivity |].
  set (mapped := map to_recommendation
                   (default [] (json_recommendations (default empty_json json)))).
  set (shuffled := Shuffler.client_shuffled entropy mapped).
  assert (P : shuffled ≡ₚ mapped) by apply client_shuffled_Permutation.
  destruct (passes_spec excludeTitles (recs st) shuffled)
    as (stale & E & _ & _ & _ & Hpool & _ & _ & _).
  unfold select.
  destruct (strict_pass _ shuffled [] ∅) as [chosen1 seen1].
  cbn [fst snd] in E, Hpool.
  destruct (relaxed_pass shuffled chosen1 seen1) as [chosen seen].
  cbn [fst] in E, Hpool.
  split; [rewrite length_take; unfold MAX_WEB_RECS; lia |].
  intros c Hc. apply (sublist_subseteq _ _ (sublist_take _ _)) in Hc.
  assert (Hfrom : c ∈ chosen \/ c ∈ default [] (recs st)).
  { unfold rotate_fallback in Hc. destruct chosen as [| x xs]; [| by left].
    destruct (recs st) as [[| first rest] |]; [by left | | by left].
    right. cbn [app] in Hc. apply (sublist_subseteq _ _ (sublist_take _ _)) in Hc.
    cbn. apply elem_of_app in Hc as [Hc | Hc]; [by right |].
    apply list_elem_of_singleton in Hc as ->. by left. }
  destruct Hfrom as [Hin | Hin]; [| by left]. right.
  apply Hpool in Hin. rewrite P in Hin. unfold mapped in Hin.
  apply list_elem_of_In, in_map_iff in Hin as (item & <- & Hitem).
  destruct json as [json |]; [| by cbn in Hitem].
  exists json, item. split_and!; [done | by apply list_elem_of_In | done].
Qed.

(** X15.  The client asks for a count the server accepts as it is.  For a
    [topK] that is a number, the count the component sends is between 12
    and 50 (six times [topK] within these bounds), and the server's clamp
    leaves it unchanged. *)
Theorem X15_client_count_within_server_clamp (p : Props) :
  default (of_Z 5) (topK p) <> NaN ->
  exists q,
    req_topK (request p None) = Fin q
    /\ (12 <= q <= 50)%Q
    /\ WebRecommend.requestedTopK
         {| WebRecommend.bookId := Some (bookId p);
            WebRecommend.topK := Some (req_topK (request p None));
            WebRecommend.seed := None |} = Fin q.
Proof.
  intros Hnan. unfold request, FETCH_LIMIT. cbn [req_topK].
  set (k := default (of_Z 5) (topK p)) in *.
  assert (Hmul : mul k (of_Z 6) <> NaN).
  { destruct k as [| | a |]; [done | | done |]; cbn; done. }
  assert (Hmax : exists m, Math_max (of_Z 12) (mul k (of_Z 6)) = m /\ m <> NaN
                           /\ (m = PosInf \/ exists a, m = Fin a /\ (12 <= a)%Q)).
  { destruct (mul k (of_Z 6)) as [| | a |]; [done | | |].
    - eexists. split; [reflexivity |]. split; [done |]. right. eexists.
      split; [reflexivity | apply Qle_refl].
    - unfold of_Z, Math_max.
      destruct (ltb (Fin (inject_Z 12)) (Fin a)) eqn:E.
      + apply ltb_Fin in E. eexists. split; [reflexivity |]. split; [done |].
        right. exists a. split; [done |]. change (inject_Z 12) with 12%Q in E. lra.
      + eexists. split; [reflexivity |]. split; [done |]. right. eexists.
        split; [reflexivity | apply Qle_refl].
    - eexists. split; [reflexivity |]. split; [done |]. by left. }
  destruct Hmax as (m & -> & Hm & Hcases).
  assert (Hmin : exists q, Math_min m (of_Z 50) = Fin q /\ (12 <= q <= 50)%Q).
  { destruct Hcases as [-> | (a & -> & Ha)].
    - exists (inject_Z 50). split; [reflexivity |]. split; [done | apply Qle_refl].
    - unfold of_Z, Math_min. destruct (ltb (Fin (inject_Z 50)) (Fin a)) eqn:E.
      + exists (inject_Z 50). split; [reflexivity |]. split; [done | apply Qle_refl].
      + apply ltb_Fin_false in E. exists a. split; [reflexivity |].
        change (inject_Z 50) with 50%Q in E. lra. }
  destruct Hmin as (q & -> & Hq). exists q. split; [done |]. split; [exact Hq |].
  change (WebRecommend.requestedTopK _)
    with (Math_max (of_Z 1) (Math_min (or_else (Fin q) (of_Z 5)) (of_Z 50))).
  assert (Htruthy : or_else (Fin q) (of_Z 5) = Fin q).
  { unfold or_else, truthy. destruct (Qeq_bool q 0) eqn:E; [| done].
    apply Qeq_bool_iff in E. lra. }
  rewrite Htruthy. unfold of_Z, Math_min.
  destruct (ltb (Fin (inject_Z 50)) (Fin q)) eqn:E1.
  { apply ltb_Fin in E1. change (inject_Z 50) with 50%Q in E1. lra. }
  unfold Math_max. destruct (ltb (Fin (inject_Z 1)) (Fin q)) eqn:E2; [done |].
  apply ltb_Fin_false in E2. change (inject_Z 1) with 1%Q in E2. lra.
Qed.

Lemma X15_client_count_within_server_clamp_witness :
  exists q,
    req_topK (request (Scenario.props 5) None) = Fin q
    /\ (12 <= q <= 50)%Q
    /\ WebRecommend.requestedTopK
         {| WebRecommend.bookId := Some (bookId (Scenario.props 5));
            WebRecommend.topK := Some (req_topK (request (Scenario.props 5) None));
            WebRecommend.seed := None |} = Fin q.
Proof.
  apply (X15_client_count_within_server_clamp (Scenario.props 5)).
  vm_compute. discriminate.
Defined.

End ClientPasses.

(** ** Cosine similarity *)

Section CosineSimilarity.
Import PrimFloat Cosine.

(** Multiplication of doubles is commutative. *)
Lemma SFmul_comm prec emax x y :
  SpecFloat.SFmul prec emax x y = SpecFloat.SFmul prec emax y x.
Proof.
  destruct x as [sx | sx | | sx mx ex], y as [sy | sy | | sy my ey]; cbn;
    try reflexivity; try (by rewrite Bool.xorb_comm).
  by rewrite Bool.xorb_comm, Pos.mul_comm, Z.add_comm.
Qed.

Lemma float_mul_comm (x y : float) : (x * y)%float = (y * x)%float.
Proof.
  rewrite <- (FloatAxioms.SF2Prim_Prim2SF (x * y)).
  rewrite <- (FloatAxioms.SF2Prim_Prim2SF (y * x)).
  rewrite !FloatAxioms.mul_spec. unfold FloatAxioms.SF64mul.
  by rewrite SFmul_comm.
Qed.

(** Swapping the vectors swaps the two norms and keeps the dot product. *)
Lemma sums_swap (a b : list float) (l : list nat) (s : Sums) :
  foldl (step b a) {| dot := dot s; na := nb s; nb := na s |} l
  = let r := foldl (step a b) s l in
    {| dot := dot r; na := nb r; nb := na r |}.
Proof.
  revert s. induction l as [| i l IH]; intros s; [done |].
  cbn [foldl]. rewrite <- IH. f_equal. unfold step. cbn.
  by rewrite (float_mul_comm (default 0%float (b !! i))).
Qed.

(** X16.  Cosine similarity is symmetric: [cosineSimilarity(a, b)] and
    [cosineSimilarity(b, a)] are the same double, for all vectors of
    doubles, of equal length or not, NaN and the infinities included. *)
Theorem X16_cosine_symmetric (a b : list float) :
  cosineSimilarity a b = cosineSimilarity b a.
Proof.
  unfold cosineSimilarity, sums. rewrite (Nat.min_comm (length b)).
  pose proof (sums_swap a b (seq 0 (Nat.min (length a) (length b)))
    {| dot := 0%float; na := 0%float; nb := 0%float |}) as H.
  cbn [dot na nb] in H. rewrite H. cbn.
  by rewrite float_mul_comm.
Qed.

Lemma foldl_step_take (a b : list float) (n : nat) (l : list nat) (s : Sums) :
  Forall (fun i => (i < n)%nat) l ->
  foldl (step (take n a) (take n b)) s l = foldl (step a b) s l.
Proof.
  intros Hl. revert s. induction Hl as [| i l Hi _ IH]; intros s; [done |].
  cbn [foldl]. rewrite IH. f_equal. unfold step.
  by rewrite !lookup_take_lt.
Qed.

Lemma sums_take (a b : list float) :
  let n := Nat.min (length a) (length b) in
  sums (take n a) (take n b) = sums a b.
Proof.
  intros n. unfold sums. rewrite !length_take.
  replace (Nat.min (Nat.min n (length a)) (Nat.min n (length b))) with n by lia.
  fold n. apply foldl_step_take.
  apply Forall_forall. intros i Hi%elem_of_seq. lia.
Qed.

(** X17.  Only the overlap counts.  The similarity of two vectors is that
    of their first [n] components, [n] the shorter length: what one vector
    has beyond the other's length is never read, so appending components
    to the longer vector changes nothing.  Against an empty vector the
    similarity is 0. *)
Theorem X17_cosine_overlap_only (a b extra : list float) :
  let n := Nat.min (length a) (length b) in
  cosineSimilarity a b = cosineSimilarity (take n a) (take n b)
  /\ ((length a <= length b)%nat ->
      cosineSimilarity a (b ++ extra) = cosineSimilarity a b)
  /\ cosineSimilarity [] b = 0%float
  /\ cosineSimilarity a [] = 0%float.
Proof.
  intros n. split_and!.
  - subst n. unfold cosineSimilarity. by rewrite (sums_take a b).
  - intros Hle. unfold cosineSimilarity.
    rewrite <- (sums_take a (b ++ extra)), <- (sums_take a b).
    rewrite length_app.
    replace (Nat.min (length a) (length b + length extra)) with (length a) by lia.
    replace (Nat.min (length a) (length b)) with (length a) by lia.
    by rewrite take_app_le by lia.
  - done.
  - unfold cosineSimilarity, sums. by rewrite Nat.min_0_r.
Qed.

End CosineSimilarity.

(** ** The generate route *)

Section GenerateRoute.
Import JS Generate.

Lemma nonempty_iff (s : string) : nonempty s = true <-> s <> "".
Proof.
  unfold nonempty. rewrite negb_true_iff, bool_decide_eq_false. done.
Qed.

Lemma generate_POST_cases (env : Env) :
  (exists e, body env = Throw e /\ POST env = (ErrorJson 500 e, None))
  \/ (exists b, body env = Ok b
      /\ nonempty (default "" (bookId b)) = false
      /\ POST env = (ErrorJson 400 "Missing bookId", None))
  \/ (exists b e, body env = Ok b
      /\ nonempty (default "" (bookId b)) = true
      /\ createClient env = Throw e /\ POST env = (ErrorJson 500 e, None))
  \/ (exists b db msg, body env = Ok b
      /\ nonempty (default "" (bookId b)) = true
      /\ createClient env = Ok db
      /\ WebRecommend.error (book_query db) = Some msg
      /\ POST env = (ErrorJson 500 msg, None))
  \/ (exists b db, body env = Ok b
      /\ nonempty (default "" (bookId b)) = true
      /\ createClient env = Ok db
      /\ WebRecommend.error (book_query db) = None
      /\ WebRecommend.data (book_query db) = None
      /\ POST env = (ErrorJson 404 "Book not found", None))
  \/ (exists b db book msg, body env = Ok b
      /\ nonempty (default "" (bookId b)) = true
      /\ createClient env = Ok db
      /\ WebRecommend.error (book_query db) = None
      /\ WebRecommend.data (book_query db) = Some book
      /\ upsert db (payload env (default "" (bookId b)) book) = Some msg
      /\ POST env = (ErrorJson 500 msg, None))
  \/ (exists b db book, body env = Ok b
      /\ nonempty (default "" (bookId b)) = true
      /\ createClient env = Ok db
      /\ WebRecommend.error (book_query db) = None
      /\ WebRecommend.data (book_query db) = Some book
      /\ upsert db (payload env (default "" (bookId b)) book) = None
      /\ POST env =
           (Success (summary (payload env (default "" (bookId b)) book))
                    (tags (payload env (default "" (bookId b)) book)),
            Some (payload env (default "" (bookId b)) book))).
Proof.
  unfold POST, handle.
  destruct (body env) as [b | e]; [| left; by exists e].
  right. destruct (nonempty (default "" (bookId b))) eqn:Hid; cbn [negb];
    [| left; by exists b].
  right. destruct (createClient env) as [db | e]; [| left; by exists b, e].
  right. destruct (WebRecommend.error (book_query db)) as [msg |] eqn:Herr;
    [left; by exists b, db, msg |].
  right. destruct (WebRecommend.data (book_query db)) as [book |] eqn:Hdata;
    [| left; by exists b, db].
  right. destruct (upsert db (payload env (default "" (bookId b)) book))
    as [msg |] eqn:Hup.
  - left. by exists b, db, book, msg.
  - right. by exists b, db, book.
Qed.

(** X18.  The errors of the generate route.  An answer with an error
    writes no row, and it is one of: status 400 with "Missing bookId",
    when the body has no book id; status 404 with "Book not found", when
    the query for the book found none and reported no error; status 500
    with the message of what failed, when the body could not be read,
    creating the database client threw, the query for the book reported
    an error, or the upsert did. *)
Theorem X18_generate_errors (env : Env) (status : nat) (msg : string) :
  fst (POST env) = ErrorJson status msg ->
  snd (POST env) = None
  /\ ((status = 400%nat /\ msg = "Missing bookId"
       /\ exists b, body env = Ok b /\ nonempty (default "" (bookId b)) = false)
      \/ (status = 404%nat /\ msg = "Book not found"
          /\ exists db, createClient env = Ok db
             /\ WebRecommend.error (book_query db) = None
             /\ WebRecommend.data (book_query db) = None)
      \/ (status = 500%nat
          /\ (body env = Throw msg
              \/ createClient env = Throw msg
              \/ exists db, createClient env = Ok db
                 /\ (WebRecommend.error (book_query db) = Some msg
                     \/ exists row, upsert db row = Some msg)))).
Proof.
  intros H.
  destruct (generate_POST_cases env) as
    [(e & Hb & HP) | [(b & Hb & Hid & HP) | [(b & e & Hb & Hid & Hc & HP)
    | [(b & db & m & Hb & Hid & Hc & Herr & HP)
    | [(b & db & Hb & Hid & Hc & Herr & Hdata & HP)
    | [(b & db & book & m & Hb & Hid & Hc & Herr & Hdata & Hup & HP)
    | (b & db & book & Hb & Hid & Hc & Herr & Hdata & Hup & HP)]]]]]];
    rewrite HP in H |- *; cbn [fst snd] in *; try discriminate;
    injection H as <- <-; (split; [done |]).
  - right; right. split; [done |]. by left.
  - left. split_and!; [done | done |]. by exists b.
  - right; right. split; [done |]. right; by left.
  - right; right. split; [done |]. right; right. exists db. split; [done |]. by left.
  - right; left. split_and!; [done | done |]. by exists db.
  - right; right. split; [done |]. right; right. exists db. split; [done |].
    right. by eexists.
Qed.

Lemma X18_generate_errors_witness :
  snd (POST Cases.failing_generate_request) = None
  /\ ((500%nat = 400%nat /\ "connection reset" = "Missing bookId"
       /\ exists b, body Cases.failing_generate_request = Ok b
            /\ nonempty (default "" (bookId b)) = false)
      \/ (500%nat = 404%nat /\ "connection reset" = "Book not found"
          /\ exists db, createClient Cases.failing_generate_request = Ok db
             /\ WebRecommend.error (book_query db) = None
             /\ WebRecommend.data (book_query db) = None)
      \/ (500%nat = 500%nat
          /\ (body Cases.failing_generate_request = Throw "connection reset"
              \/ createClient Cases.failing_generate_request = Throw "connection reset"
              \/ exists db, createClient Cases.failing_generate_request = Ok db
                 /\ (WebRecommend.error (book_query db) = Some "connection reset"
                     \/ exists row, upsert db row = Some "connection reset")))).
Proof.
  assert (H : fst (POST Cases.failing_generate_request)
              = ErrorJson 500 "connection reset") by (vm_compute; reflexivity).
  exact (X18_generate_errors Cases.failing_generate_request 500 "connection reset" H).
Defined.

(** X19.  The generate route and the web route report a failing query for
    the book differently.  For requests that name a book, on databases
    whose query for the book reports the same error, the web route
    answers status 404 and the generate route status 500, both with the
    message of the error. *)
Theorem X19_failing_query_404_or_500 (StringToNumber : string -> number)
    (wenv : WebRecommend.Env) (genv : Env)
    (wb : WebRecommend.WebRecommendRequest) (gb : GenerateRequest)
    (wdb : WebRecommend.Supabase) (gdb : Supabase) (msg : string) :
  WebRecommend.body wenv = Some wb -> body genv = Ok gb ->
  nonempty (default "" (WebRecommend.bookId wb)) = true ->
  nonempty (default "" (bookId gb)) = true ->
  WebRecommend.createClient wenv = Ok wdb -> createClient genv = Ok gdb ->
  book_query gdb = WebRecommend.target_query wdb ->
  WebRecommend.error (WebRecommend.target_query wdb) = Some msg ->
  WebRecommend.POST StringToNumber wenv = (WebRecommend.ErrorJson 404 msg, [])
  /\ POST genv = (ErrorJson 500 msg, None).
Proof.
  intros Hwb Hgb Hwid Hgid Hwc Hgc Hq Herr. split.
  - unfold WebRecommend.POST, WebRecommend.handle.
    rewrite Hwb. cbn [default from_option id]. rewrite Hwid. cbn [negb].
    rewrite Hwc, Herr. done.
  - unfold POST, handle. rewrite Hgb, Hgid. cbn [negb].
    rewrite Hgc, Hq, Herr. done.
Qed.

Lemma X19_failing_query_404_or_500_witness :
  WebRecommend.POST Scenario.StringToNumber Cases.failing_web_request
    = (WebRecommend.ErrorJson 404 "connection reset", [])
  /\ POST Cases.failing_generate_request
     = (ErrorJson 500 "connection reset", None).
Proof.
  exact (X19_failing_query_404_or_500 Scenario.StringToNumber
           Cases.failing_web_request Cases.failing_generate_request
           (Scenario.web_body 3 None) {| bookId := Some "b1" |}
           _ _ "connection reset"
           eq_refl eq_refl eq_refl eq_refl eq_refl eq_refl eq_refl eq_refl).
Defined.

End GenerateRoute.

(** ** The generate route: what it writes without OpenAI *)

Section GenerateFallbacks.
Import JS Generate.

Lemma append_empty_r (s : string) : s +:+ "" = s.
Proof.
  induction s as [| c s IH]; [done |]. exact (f_equal (String c) IH).
Qed.

Lemma append_assoc (s1 s2 s3 : string) :
  (s1 +:+ s2) +:+ s3 = s1 +:+ (s2 +:+ s3).
Proof.
  induction s1 as [| c s1 IH]; [done |]. exact (f_equal (String c) IH).
Qed.

Lemma has_white_space_app (s1 s2 : string) :
  Cases.has_white_space (s1 +:+ s2)
  = Cases.has_white_space s1 || Cases.has_white_space s2.
Proof.
  induction s1 as [| c s1 IH]; [done |].
  change (is_white_space c || Cases.has_white_space (s1 +:+ s2)
          = is_white_space c || Cases.has_white_space s1 || Cases.has_white_space s2).
  rewrite IH. by rewrite orb_assoc.
Qed.

Lemma is_white_space_lower_char (c : ascii) :
  is_white_space (lower_char c) = is_white_space c.
Proof. by destruct c as [[] [] [] [] [] [] [] []]. Qed.

Lemma lower_char_idemp (c : ascii) : lower_char (lower_char c) = lower_char c.
Proof. by destruct c as [[] [] [] [] [] [] [] []]. Qed.

Lemma has_white_space_toLowerCase (s : string) :
  Cases.has_white_space (toLowerCase s) = Cases.has_white_space s.
Proof.
  induction s as [| c s IH]; [done |]. cbn.
  by rewrite is_white_space_lower_char, IH.
Qed.

Lemma toLowerCase_idemp (s : string) : toLowerCase (toLowerCase s) = toLowerCase s.
Proof.
  induction s as [| c s IH]; [done |]. cbn. by rewrite lower_char_idemp, IH.
Qed.

(** The pieces of [split(/\s+/)] have no white space and are parts of the
    string. *)
Lemma split_runs_no_space (s piece : string) (after_space : bool) (x : string) :
  x ∈ split_runs s piece after_space ->
  Cases.has_white_space piece = false -> Cases.has_white_space x = false.
Proof.
  revert piece after_space.
  induction s as [| c s IH]; intros piece af Hx Hp; cbn in Hx.
  - apply list_elem_of_singleton in Hx. by subst.
  - destruct (is_white_space c) eqn:Hc.
    + destruct af.
      * by apply (IH "" true).
      * apply elem_of_cons in Hx as [-> | Hx]; [done |]. by apply (IH "" true).
    + apply (IH _ _ Hx). rewrite has_white_space_app. cbn. by rewrite Hp, Hc.
Qed.

Lemma split_runs_part (s piece : string) (after_space : bool) (x : string) :
  x ∈ split_runs s piece after_space ->
  (exists w post, x = piece +:+ w /\ s = w +:+ post)
  \/ (exists pre post, s = pre +:+ x +:+ post).
Proof.
  revert piece after_space.
  induction s as [| c s IH]; intros piece af Hx; cbn in Hx.
  - apply list_elem_of_singleton in Hx. left. exists "", "".
    by rewrite append_empty_r.
  - assert (Hrest : x ∈ split_runs s "" true ->
                    exists pre post, String c s = pre +:+ x +:+ post).
    { intros [(w & post & -> & ->) | (pre & post & ->)]%IH.
      - by exists (String c ""), post.
      - by exists (String c pre), post. }
    destruct (is_white_space c).
    + destruct af; [right; by apply Hrest |].
      apply elem_of_cons in Hx as [-> | Hx]; [| right; by apply Hrest].
      left. exists "", (String c s). by rewrite append_empty_r.
    + apply IH in Hx as [(w & post & -> & ->) | (pre & post & ->)].
      * left. exists (String c w), post. by rewrite append_assoc.
      * right. by exists (String c pre), post.
Qed.

Lemma split_white_space_part (s x : string) :
  x ∈ split_white_space s -> exists pre post, s = pre +:+ x +:+ post.
Proof.
  intros [(w & post & -> & ->) | H]%split_runs_part; [| done].
  by exists "", post.
Qed.

Lemma filter_length_le {A : Type} (f : A -> bool) (l : list A) :
  (length (List.filter f l) <= length l)%nat.
Proof. induction l as [| x l IH]; cbn; [lia |]. destruct (f x); cbn; lia. Qed.

Lemma elem_of_List_filter {A : Type} (f : A -> bool) (l : list A) (x : A) :
  x ∈ List.filter f l <-> x ∈ l /\ f x = true.
Proof. rewrite !list_elem_of_In. apply filter_In. Qed.

Lemma elem_of_List_map {A B : Type} (f : A -> B) (l : list A) (y : B) :
  y ∈ map f l <-> exists x, f x = y /\ x ∈ l.
Proof.
  rewrite list_elem_of_In, in_map_iff.
  split; intros (x & H1 & H2); exists x; by rewrite ?list_elem_of_In in *.
Qed.

(** The tags made from the title are at most four, none of them empty. *)
Lemma fallback_tags_le (b : WebRecommend.Book) :
  (length (fallback_tags b) <= 4)%nat
  /\ forall x, x ∈ fallback_tags b -> x <> "".
Proof.
  unfold fallback_tags. split.
  - etrans; [apply filter_length_le |]. rewrite length_map, length_take. lia.
  - intros x [_ Hx]%elem_of_List_filter. by apply nonempty_iff.
Qed.

(** X20.  The tags made from the title.  They are at most four, and at
    most three when the title begins with white space (the empty piece
    before it takes one of the four places and is dropped afterwards).
    Every tag is not empty, has no white space, is in lower case, and is
    the lower-case form of a part of the title. *)
Theorem X20_fallback_tags (b : WebRecommend.Book) :
  (length (fallback_tags b) <= 4)%nat
  /\ (forall c rest,
        default "" (WebRecommend.book_title b) = String c rest ->
        is_white_space c = true -> (length (fallback_tags b) <= 3)%nat)
  /\ (forall t, t ∈ fallback_tags b ->
        t <> "" /\ Cases.has_white_space t = false /\ toLowerCase t = t
        /\ exists pre word post,
             default "" (WebRecommend.book_title b) = pre +:+ word +:+ post
             /\ t = toLowerCase word).
Proof.
  unfold fallback_tags.
  set (title := default "" (WebRecommend.book_title b)).
  split_and!.
  - etrans; [apply filter_length_le |]. rewrite length_map, length_take. lia.
  - intros c rest -> Hc. unfold split_white_space. cbn [split_runs]. rewrite Hc.
    cbn [take map List.filter toLowerCase nonempty]. cbn.
    etrans; [apply filter_length_le |]. rewrite length_map, length_take. lia.
  - intros t [Ht Hne]%elem_of_List_filter.
    apply elem_of_List_map in Ht as (word & <- & Hw).
    apply (subseteq_take 4) in Hw.
    split_and!.
    + by apply nonempty_iff.
    + rewrite has_white_space_toLowerCase.
      by apply (split_runs_no_space title "" false).
    + apply toLowerCase_idemp.
    + apply split_white_space_part in Hw as (pre & post & Hw).
      by exists pre, word, post.
Qed.

End GenerateFallbacks.

(** ** The generate route: the mock embedding and the row written *)

Section GenerateRow.
Import JS Generate.
Import PrimFloat.

Lemma hundredths_range (k : Z) :
  (0 <= k < 100)%Z ->
  (0 <=? hundredths k)%float = true /\ (hundredths k <? 1)%float = true.
Proof.
  intros Hk.
  assert (Hall : forallb (fun n =>
                   (0 <=? hundredths (Z.of_nat n))%float
                   && (hundredths (Z.of_nat n) <? 1)%float) (seq 0 100) = true)
    by (vm_compute; reflexivity).
  rewrite forallb_forall in Hall.
  specialize (Hall (Z.to_nat k)). rewrite Z2Nat.id in Hall by lia.
  apply andb_true_iff, Hall, in_seq. lia.
Qed.

Lemma mock_sum_shift (seed : string) (l : list nat) (v : Z) :
  foldl (fun v j => v + default 0 (charCodeAt seed j) mod 97)%Z v l
  = (v + foldl (fun v j => v + default 0 (charCodeAt seed j) mod 97)%Z 0%Z l)%Z.
Proof.
  revert v. induction l as [| j l IH]; intros v; cbn [foldl]; [lia |].
  rewrite (IH (v + _)%Z), (IH (0 + _)%Z). lia.
Qed.

Lemma charCodeAt_Some (seed : string) (i : nat) (code : Z) :
  charCodeAt seed i = Some code -> (i < String.length seed)%nat.
Proof.
  unfold charCodeAt. revert i.
  induction seed as [| c s IH]; intros i; [by destruct i |].
  destruct i as [| i]; cbn; [lia |]. intros H%IH. lia.
Qed.

(** X21.  The mock embedding.  It has 153 components, each the double of
    [k] hundredths for a whole [k] from 0 to 99, hence at least 0
    and below 1; the components from the length of the text on are 0 (all of
    them for an empty text).  Component [i] comes from the sum of the
    character codes modulo 97 from position [i] to the end of the text:
    the sum at [i] is the residue of the character at [i] plus the sum at
    [i + 1]. *)
Theorem X21_mock_embedding (seed : string) :
  length (mock_embedding seed) = 153%nat
  /\ (forall c, c ∈ mock_embedding seed ->
        exists k, (0 <= k <= 99)%Z /\ c = hundredths k
                  /\ (0 <=? c)%float = true /\ (c <? 1)%float = true)
  /\ (forall i, (String.length seed <= i < 153)%nat ->
        mock_embedding seed !! i = Some 0%float)
  /\ (forall i code, charCodeAt seed i = Some code ->
        mock_sum seed i = (code mod 97 + mock_sum seed (S i))%Z).
Proof.
  unfold mock_embedding. split_and!.
  - by rewrite length_map, length_seq.
  - intros c (i & <- & _)%elem_of_List_map. unfold mock_component.
    pose proof (Z.mod_pos_bound (mock_sum seed i) 100 ltac:(lia)) as Hk.
    exists (mock_sum seed i mod 100)%Z.
    split; [lia |]. split; [done |]. by apply hundredths_range.
  - intros i [Hlen Hi].
    change (map (mock_component seed) (seq 0 153))
      with (mock_component seed <$> seq 0 153).
    rewrite list_lookup_fmap, lookup_seq_lt by done.
    cbn [fmap option_fmap option_map Nat.add].
    f_equal. unfold mock_component, mock_sum.
    replace (String.length seed - i)%nat with 0%nat by lia.
    cbn [seq foldl]. vm_compute. reflexivity.
  - intros i code Hcode. pose proof (charCodeAt_Some _ _ _ Hcode) as Hi.
    unfold mock_sum.
    replace (String.length seed - i)%nat with (S (String.length seed - S i)) by lia.
    cbn [seq foldl]. rewrite mock_sum_shift, Hcode. cbn [default from_option id]. lia.
Qed.

Lemma fallback_summary_nonempty (b : WebRecommend.Book) : fallback_summary b <> "".
Proof.
  unfold fallback_summary.
  destruct (nonempty (default "" (WebRecommend.book_notes b))
            && nonempty (substring 0 200 (default "" (WebRecommend.book_notes b))))
    eqn:E.
  - apply andb_true_iff in E as [_ E]. by apply nonempty_iff.
  - discriminate.
Qed.

Lemma parsed_tags_le (s : string) :
  (length (parsed_tags s) <= 6)%nat /\ forall x, x ∈ parsed_tags s -> x <> "".
Proof.
  unfold parsed_tags.
  destruct (includes_char comma _); [| split; [cbn; lia | by intros x ?%elem_of_nil]].
  split.
  - etrans; [apply filter_length_le |]. rewrite length_map, length_take. lia.
  - intros x [_ Hx]%elem_of_List_filter. by apply nonempty_iff.
Qed.

Lemma join_cons_nonempty (sep : string) (c : ascii) (t : string)
    (rest : list string) :
  join sep (String c t :: rest) <> "".
Proof.
  destruct rest as [| p rest]; [discriminate |].
  change (String c (t +:+ sep +:+ join sep (p :: rest)) <> ""). discriminate.
Qed.

Lemma textToSummarize_empty (b : WebRecommend.Book) :
  textToSummarize b = "" -> default "" (WebRecommend.book_title b) = "".
Proof.
  unfold textToSummarize.
  destruct (WebRecommend.book_title b) as [[| c t] |]; [done | | done].
  intros H. exfalso. revert H.
  change (omap id [Some (String c t); WebRecommend.book_assignee b;
                   WebRecommend.book_notes b])
    with (String c t :: omap id [WebRecommend.book_assignee b;
                                 WebRecommend.book_notes b]).
  change (List.filter nonempty (String c t :: ?l))
    with (String c t :: List.filter nonempty l).
  apply join_cons_nonempty.
Qed.

Lemma mock_seed_text (b : WebRecommend.Book) : mock_seed b = textToSummarize b.
Proof.
  unfold mock_seed, or_string. cbn [default from_option id].
  destruct (nonempty (textToSummarize b)) eqn:E; [by rewrite E |].
  assert (Ht : textToSummarize b = "").
  { destruct (textToSummarize b); [done | discriminate]. }
  rewrite Ht, (textToSummarize_empty b Ht). done.
Qed.

Lemma payload_fields (env : Env) (id : string) (b : WebRecommend.Book) :
  book_id (payload env id b) = id
  /\ summary (payload env id b) <> ""
  /\ (length (tags (payload env id b)) <= 6)%nat
  /\ (forall x, x ∈ tags (payload env id b) -> x <> "")
  /\ updated_at (payload env id b) = now env.
Proof.
  unfold payload.
  assert (Hfb : (length (fallback_tags b) <= 6)%nat
                /\ forall x, x ∈ fallback_tags b -> x <> "").
  { destruct (fallback_tags_le b) as [H1 H2]. split; [lia | exact H2]. }
  destruct (if OPENAI_KEY env then generated (summary_call env (textToSummarize b))
            else ("", [])) as [s t] eqn:E.
  cbn [book_id summary tags updated_at].
  assert (Ht : (length t <= 6)%nat /\ forall x, x ∈ t -> x <> "").
  { destruct (OPENAI_KEY env); [| injection E as <- <-; split;
                                   [cbn; lia | by intros x ?%elem_of_nil]].
    unfold generated in E. destruct (summary_call env _) as [| text].
    - injection E as <- <-. split; [cbn; lia | by intros x ?%elem_of_nil].
    - injection E as <- <-. apply parsed_tags_le. }
  split_and!; [done | | | | done].
  - destruct (nonempty s) eqn:Hs; [by apply nonempty_iff |].
    apply fallback_summary_nonempty.
  - destruct t; [apply Hfb | apply Ht].
  - destruct t; [apply Hfb | apply Ht].
Qed.

Lemma mock_embedding_length (seed : string) : length (mock_embedding seed) = 153%nat.
Proof. unfold mock_embedding. by rewrite length_map, length_seq. Qed.

Lemma payload_without_key (env : Env) (key : string) (b : WebRecommend.Book) :
  OPENAI_KEY env = false ->
  payload env key b
  = {| book_id := key; summary := fallback_summary b; tags := fallback_tags b;
       embedding := mock_embedding (textToSummarize b); updated_at := now env |}.
Proof.
  intros Hkey. unfold payload. rewrite Hkey. cbn [nonempty default from_option id].
  by rewrite mock_seed_text.
Qed.

(** X22.  What a successful generate request writes.  The answer is a
    success exactly when a row was written; the row is the payload built
    for the book the query found, it went through the upsert, it is keyed
    by the book id of the request and carries the summary and the tags of
    the answer.  The summary is never empty, and there are at most six
    tags, none of them empty. *)
Theorem X22_generate_success (env : Env) (s : string) (t : list string) :
  fst (POST env) = Success s t ->
  exists b db book row,
    body env = Ok b /\ createClient env = Ok db
    /\ WebRecommend.data (book_query db) = Some book
    /\ WebRecommend.error (book_query db) = None
    /\ row = payload env (default "" (bookId b)) book
    /\ upsert db row = None
    /\ snd (POST env) = Some row
    /\ book_id row = default "" (bookId b) /\ book_id row <> ""
    /\ summary row = s /\ tags row = t
    /\ s <> "" /\ (length t <= 6)%nat /\ (forall x, x ∈ t -> x <> "").
Proof.
  intros H.
  destruct (generate_POST_cases env) as
    [(e & Hb & HP) | [(b & Hb & Hid & HP) | [(b & e & Hb & Hid & Hc & HP)
    | [(b & db & m & Hb & Hid & Hc & Herr & HP)
    | [(b & db & Hb & Hid & Hc & Herr & Hdata & HP)
    | [(b & db & book & m & Hb & Hid & Hc & Herr & Hdata & Hup & HP)
    | (b & db & book & Hb & Hid & Hc & Herr & Hdata & Hup & HP)]]]]]];
    rewrite HP in H |- *; cbn [fst snd] in *; try discriminate.
  injection H as <- <-.
  destruct (payload_fields env (default "" (bookId b)) book)
    as (Hk & Hs & Hn & Ht & _).
  exists b, db, book, (payload env (default "" (bookId b)) book).
  split_and!; try done.
  rewrite Hk. by apply nonempty_iff.
Qed.

Lemma X22_generate_success_witness :
  exists b db book row,
    body Cases.generate_request = Ok b
    /\ createClient Cases.generate_request = Ok db
    /\ WebRecommend.data (book_query db) = Some book
    /\ WebRecommend.error (book_query db) = None
    /\ row = payload Cases.generate_request (default "" (bookId b)) book
    /\ upsert db row = None
    /\ snd (POST Cases.generate_request) = Some row
    /\ book_id row = default "" (bookId b) /\ book_id row <> ""
    /\ summary row = "A book titled " +:+ String quote "Dune" +:+ String quote ""
    /\ tags row = ["dune"]
    /\ "A book titled " +:+ String quote "Dune" +:+ String quote "" <> ""
    /\ (length ["dune"] <= 6)%nat
    /\ (forall x, x ∈ ["dune"] -> x <> "").
Proof.
  assert (H : fst (POST Cases.generate_request)
              = Success ("A book titled " +:+ String quote "Dune" +:+ String quote "")
                        ["dune"])
    by (vm_compute; reflexivity).
  exact (X22_generate_success Cases.generate_request _ _ H).
Defined.

(** X23.  Without an OpenAI key the row is made from the book alone: the
    summary is the first 200 characters of the notes, or the sentence
    with the title when there are no notes; the tags are the ones made
    from the title; the embedding is the mock embedding of the text to
    summarise (the alternatives [|| bookData.title || ""] of the seed
    never apply: the text is empty only when the title is).  What the
    OpenAI calls would have delivered plays no part. *)
Theorem X23_generate_without_key (env : Env) (key : string)
    (b : WebRecommend.Book) :
  OPENAI_KEY env = false ->
  payload env key b
  = {| book_id := key;
       summary := fallback_summary b;
       tags := fallback_tags b;
       embedding := mock_embedding (textToSummarize b);
       updated_at := now env |}
  /\ (forall notes, WebRecommend.book_notes b = Some notes -> notes <> "" ->
        summary (payload env key b) = substring 0 200 notes)
  /\ (length (tags (payload env key b)) <= 4)%nat
  /\ length (embedding (payload env key b)) = 153%nat.
Proof.
  intros Hkey. rewrite (payload_without_key env key b Hkey).
  cbn [summary tags embedding]. split_and!.
  - done.
  - intros notes Hn Hne. unfold fallback_summary. rewrite Hn.
    cbn [default from_option id].
    assert (H1 : nonempty notes = true) by by apply nonempty_iff.
    assert (H2 : nonempty (substring 0 200 notes) = true).
    { destruct notes as [| c notes]; [done |]. done. }
    by rewrite H1, H2.
  - apply fallback_tags_le.
  - apply mock_embedding_length.
Qed.

Lemma X23_generate_without_key_witness :
  payload Cases.generate_request "b1" Scenario.dune
  = {| book_id := "b1";
       summary := fallback_summary Scenario.dune;
       tags := fallback_tags Scenario.dune;
       embedding := mock_embedding (textToSummarize Scenario.dune);
       updated_at := now Cases.generate_request |}
  /\ (forall notes, WebRecommend.book_notes Scenario.dune = Some notes ->
        notes <> "" ->
        summary (payload Cases.generate_request "b1" Scenario.dune)
        = substring 0 200 notes)
  /\ (length (tags (payload Cases.generate_request "b1" Scenario.dune)) <= 4)%nat
  /\ length (embedding (payload Cases.generate_request "b1" Scenario.dune))
     = 153%nat.
Proof.
  exact (X23_generate_without_key Cases.generate_request "b1" Scenario.dune eq_refl).
Defined.

(** X24.  A generated row serves the rank route.  When the row written by
    a successful generate request is what the rank route finds for its
    target, the rank route does not answer 404: the target has an
    embedding.  A row written without an OpenAI key also counts among
    the candidates of other requests (its embedding is not empty), and
    its tags and summary are the ones the rank route returns. *)
Theorem X24_generated_row_serves_rank
    (cosineSimilarity : list number -> list number -> number)
    (genv : Env) (row : Row) (renv : Recommend.Env) (rdb : Recommend.Supabase) :
  snd (POST genv) = Some row ->
  Recommend.createClient renv = Ok rdb ->
  Recommend.target_query rdb
  = {| Recommend.data := Some (to_ai_row row); Recommend.error := None |} ->
  (forall msg, Recommend.POST cosineSimilarity renv <> Recommend.ErrorJson 404 msg)
  /\ (OPENAI_KEY genv = false -> Recommend.valid_row (to_ai_row row) = true)
  /\ Recommend.scored_tags (Recommend.to_scored cosineSimilarity [] (to_ai_row row))
     = tags row
  /\ Recommend.scored_summary
       (Recommend.to_scored cosineSimilarity [] (to_ai_row row))
     = summary row.
Proof.
  intros Hrow Hc Ht. split_and!.
  - intros msg. unfold Recommend.POST, Recommend.handle.
    rewrite Hc, Ht. cbn [Recommend.error Recommend.data].
    destruct (Recommend.body renv) as [rb |]; [| discriminate].
    destruct (negb (nonempty _)); [discriminate |].
    cbn [to_ai_row Recommend.embedding].
    destruct (Recommend.error (Recommend.rows_query rdb)); [discriminate |].
    cbn zeta.
    destruct (bool_decide _); [discriminate |].
    by destruct (Recommend.error (Recommend.books_query rdb _)).
  - intros Hkey.
    destruct (generate_POST_cases genv) as
      [(e & _ & HP) | [(b & _ & _ & HP) | [(b & e & _ & _ & _ & HP)
      | [(b & db & m & _ & _ & _ & _ & HP)
      | [(b & db & _ & _ & _ & _ & _ & HP)
      | [(b & db & book & m & _ & _ & _ & _ & _ & _ & HP)
      | (b & db & book & _ & _ & _ & _ & _ & _ & HP)]]]]]];
      rewrite HP in Hrow; cbn [snd] in Hrow; try discriminate.
    injection Hrow as <-.
    by rewrite (payload_without_key genv (default "" (bookId b)) book Hkey).
  - done.
  - done.
Qed.

Lemma X24_generated_row_serves_rank_witness :
  (forall msg,
     Recommend.POST Scenario.constant_similarity
       (Cases.rank_request_for (to_ai_row Cases.generated_row))
     <> Recommend.ErrorJson 404 msg)
  /\ (OPENAI_KEY Cases.generate_request = false ->
      Recommend.valid_row (to_ai_row Cases.generated_row) = true)
  /\ Recommend.scored_tags
       (Recommend.to_scored Scenario.constant_similarity []
          (to_ai_row Cases.generated_row))
     = tags Cases.generated_row
  /\ Recommend.scored_summary
       (Recommend.to_scored Scenario.constant_similarity []
          (to_ai_row Cases.generated_row))
     = summary Cases.generated_row.
Proof.
  assert (H : snd (POST Cases.generate_request) = Some Cases.generated_row)
    by (vm_compute; reflexivity).
  exact (X24_generated_row_serves_rank Scenario.constant_similarity
           Cases.generate_request Cases.generated_row
           (Cases.rank_request_for (to_ai_row Cases.generated_row)) _
           H eq_refl eq_refl).
Defined.

End GenerateRow.

(** ** The client: polling the rank route *)

Section ClientRankCalls.
Import JS Client ClientRank.
Local Open Scope Z_scope.

(** The polling loop, read off its list of actions: it sleeps through a
    prefix of the delays, calling the rank route after each sleep; all
    answers before the last were not ok; the last one decides. *)
Lemma poll_spec (p : Props) (server : Server) (delays : list Z) (n : nat) :
  exists k : nat,
    (k <= length delays)%nat
    /\ snd (poll p server delays n)
       = flat_map (fun ms => [Sleep ms; post p]) (take k delays)
    /\ (forall j, (j + 1 < k)%nat ->
          exists json, recommend server (n + j) = RankResponded false json)
    /\ match fst (poll p server delays n) with
       | Ok json =>
           (0 < k)%nat
           /\ exists json', recommend server (n + (k - 1)) = RankResponded true json'
                /\ json = default empty_rank_json json'
       | Throw e =>
           ((0 < k)%nat /\ recommend server (n + (k - 1)) = RankRejected e)
           \/ (k = length delays /\ e = in_progress
               /\ ((0 < k)%nat ->
                   exists json, recommend server (n + (k - 1)) = RankResponded false json))
       end.
Proof.
  revert n. induction delays as [| ms rest IH]; intros n.
  - exists 0%nat. cbn. split; [lia |]. split; [done |]. split; [intros; lia |].
    right. split; [done |]. split; [done |]. intros; lia.
  - cbn [poll]. destruct (recommend server n) as [e | ok json] eqn:Hn.
    + exists 1%nat. cbn. split; [lia |]. split; [done |]. split; [intros; lia |].
      left. split; [lia |]. by rewrite Nat.add_0_r.
    + destruct ok.
      * exists 1%nat. cbn. split; [lia |]. split; [done |]. split; [intros; lia |].
        split; [lia |]. exists json. by rewrite Nat.add_0_r.
      * destruct (IH (S n)) as (k & Hk & Hlog & Hbefore & Hlast).
        destruct (poll p server rest (S n)) as [r log]. cbn [fst snd] in *.
        exists (S k). cbn [length take flat_map app].
        split; [| split; [| split]].
        -- lia.
        -- by rewrite Hlog.
        -- intros j Hj. destruct j as [| j].
           ++ rewrite Nat.add_0_r. by exists json.
           ++ destruct (Hbefore j ltac:(lia)) as (json' & Hj').
              exists json'. by replace (n + S j)%nat with (S n + j)%nat by lia.
        -- destruct r as [json' | e].
           ++ destruct Hlast as (Hpos & json'' & Hk' & ->). split; [lia |].
              exists json''. split; [| done].
              by replace (n + (S k - 1))%nat with (S n + (k - 1))%nat by lia.
           ++ destruct Hlast as [[Hpos Hk'] | (-> & -> & Hk')].
              ** left. split; [lia |].
                 by replace (n + (S k - 1))%nat with (S n + (k - 1))%nat by lia.
              ** right. split; [done |]. split; [done |]. intros _.
                 destruct (length rest) as [| m] eqn:Hm.
                 { exists json. by rewrite Nat.add_0_r. }
                 destruct (Hk' ltac:(lia)) as (json' & Hj').
                 exists json'.
                 by replace (n + (S (S m) - 1))%nat with (S n + (S m - 1))%nat by lia.
Qed.

Lemma sleeps_flat_map (p : Props) (l : list Z) :
  sleeps (flat_map (fun ms => [Sleep ms; post p]) l) = l.
Proof. induction l as [| ms l IH]; [done |]. cbn. f_equal. exact IH. Qed.





(** The paths through [fetchRecommendations]. *)
Lemma fetchRecommendations_cases (p : Props) (st : State) (server : Server)
    (entropy : nat -> Q) :
  let r := fetchRecommendations p st server entropy in
  (onlyWeb st = true
   /\ r = (fetchWebRecommendations p st (web server) entropy None None,
           [PostWebRecommend (request p None)]))
  \/ (onlyWeb st = false
      /\ exists e, recommend server 0 = RankRejected e
           /\ r = (failed st e, [post p]))
  \/ (onlyWeb st = false
      /\ exists json, recommend server 0 = RankResponded true json
           /\ r = (succeeded st (default empty_rank_json json), [post p]))
  \/ (onlyWeb st = false
      /\ exists json, recommend server 0 = RankResponded false json
           /\ needsGeneration false (rank_error (default empty_rank_json json)) = false
           /\ r = (failed st (Generate.or_string
                                (rank_error (default empty_rank_json json))
                                "Failed to fetch recommendations"),
                   [post p]))
  \/ (onlyWeb st = false
      /\ exists json, recommend server 0 = RankResponded false json
           /\ needsGeneration false (rank_error (default empty_rank_json json)) = true
           /\ ((exists e, generate server = GenerateRejected e
                  /\ r = (failed st e, [post p; PostGenerate (bookId p)]))
               \/ (exists gerr, generate server = GenerateResponded false gerr
                     /\ r = (failed st (Generate.or_string gerr
                                          "Failed to generate AI metadata"),
                             [post p; PostGenerate (bookId p)]))
               \/ (exists gerr, generate server = GenerateResponded true gerr
                     /\ r = (match fst (poll p server backoff 1) with
                             | Ok json => succeeded st json
                             | Throw e => failed st e
                             end,
                             post p :: PostGenerate (bookId p)
                               :: snd (poll p server backoff 1))))).
Proof.
  intros r. unfold r, fetchRecommendations.
  destruct (onlyWeb st); [by left |]. right.
  destruct (recommend server 0) as [e | ok json]; [left; split; [done |]; by exists e |].
  right. destruct ok.
  { left. split; [done |]. by exists json. }
  right. cbn zeta.
  destruct (needsGeneration false (rank_error (default empty_rank_json json))) eqn:Hneeds.
  - right. split; [done |]. exists json. split; [done |]. split; [done |].
    destruct (generate server) as [e | gok gerr]; [left; by exists e |].
    right. destruct gok; cbn [negb].
    + right. exists gerr. split; [done |].
      by destruct (poll p server backoff 1) as [[json' | e] log].
    + left. by exists gerr.
  - left. split; [done |]. by exists json.
Qed.


(** X26.  Which recommendations the rank mode shows.  Outside web-only
    mode the function leaves [loading] false and the mode as it was, and
    either no error or an empty list.  When it leaves no error, the list
    shown is that of the first answer of the rank route that was ok: the
    answer to the call made after the last sleep, all answers before it
    having been not ok. *)
Theorem X26_rank_polling_success (p : Props) (st : State) (server : Server)
    (entropy : nat -> Q) :
  onlyWeb st = false ->
  let st' := fst (fetchRecommendations p st server entropy) in
  let log := snd (fetchRecommendations p st server entropy) in
  loading st' = false /\ onlyWeb st' = false
  /\ (error st' = None \/ recs st' = Some [])
  /\ (error st' = None ->
      exists json,
        recommend server (length (sleeps log)) = RankResponded true json
        /\ recs st' = Some (default [] (rank_recommendations
                                          (default empty_rank_json json)))
        /\ forall j, (j < length (sleeps log))%nat ->
             exists json_j, recommend server j = RankResponded false json_j).
Proof.
  intros Hmode st' log. subst st' log.
  destruct (fetchRecommendations_cases p st server entropy) as
    [[Hweb Hr] | [(Hweb & e & H0 & Hr) | [(Hweb & json & H0 & Hr)
    | [(Hweb & json & H0 & Hneeds & Hr) | (Hweb & json & H0 & Hneeds & Hgen)]]]];
    cbv zeta in *; [congruence | | | |].
  - rewrite Hr. cbn. split_and!; [done | done | by right | done].
  - rewrite Hr. cbn. split_and!; [done | done | by left |].
    intros _. exists json. split_and!; [done | done | intros; lia].
  - rewrite Hr. cbn. split_and!; [done | done | by right | done].
  - destruct Hgen as [(e & Hg & Hr) | [(gerr & Hg & Hr) | (gerr & Hg & Hr)]].
    + rewrite Hr. cbn. split_and!; [done | done | by right | done].
    + rewrite Hr. cbn. split_and!; [done | done | by right | done].
    + destruct (poll_spec p server backoff 1) as (k & Hk & Hlog & Hbefore & Hlast).
      rewrite Hr. cbn [fst snd]. rewrite Hlog.
      change (length backoff) with 5%nat in Hk.
      assert (Hs : sleeps (post p :: PostGenerate (bookId p)
                           :: flat_map (fun ms => [Sleep ms; post p]) (take k backoff))
                   = take k backoff) by apply sleeps_flat_map.
      rewrite Hs, length_take. change (length backoff) with 5%nat.
      replace (Nat.min k 5) with k by lia.
      destruct (fst (poll p server backoff 1)) as [json' | e].
      * destruct Hlast as (Hpos & json'' & Hk' & ->).
        cbn. split_and!; [done | done | by left |].
        intros _. exists json''. split_and!; [| done |].
        -- by replace (1 + (k - 1))%nat with k in Hk' by lia.
        -- intros j Hj. destruct j as [| j]; [by exists json |].
           apply (Hbefore j). lia.
      * cbn. split_and!; [done | done | by right | done].
Qed.

Lemma X26_rank_polling_success_witness :
  loading (fst (fetchRecommendations (Scenario.props 5) Cases.rank_mode
                  Cases.warming_server (fun _ => 0%Q))) = false
  /\ onlyWeb (fst (fetchRecommendations (Scenario.props 5) Cases.rank_mode
                     Cases.warming_server (fun _ => 0%Q))) = false
  /\ (error (fst (fetchRecommendations (Scenario.props 5) Cases.rank_mode
                     Cases.warming_server (fun _ => 0%Q))) = None
      \/ recs (fst (fetchRecommendations (Scenario.props 5) Cases.rank_mode
                      Cases.warming_server (fun _ => 0%Q))) = Some [])
  /\ (error (fst (fetchRecommendations (Scenario.props 5) Cases.rank_mode
                     Cases.warming_server (fun _ => 0%Q))) = None ->
      exists json,
        recommend Cases.warming_server
          (length (sleeps (snd (fetchRecommendations (Scenario.props 5)
                                  Cases.rank_mode Cases.warming_server
                                  (fun _ => 0%Q)))))
        = RankResponded true json
        /\ recs (fst (fetchRecommendations (Scenario.props 5) Cases.rank_mode
                        Cases.warming_server (fun _ => 0%Q)))
           = Some (default [] (rank_recommendations
                                 (default empty_rank_json json)))
        /\ forall j,
             (j < length (sleeps (snd (fetchRecommendations (Scenario.props 5)
                                         Cases.rank_mode Cases.warming_server
                                         (fun _ => 0%Q)))))%nat ->
             exists json_j,
               recommend Cases.warming_server j = RankResponded false json_j).
Proof.
  exact (X26_rank_polling_success (Scenario.props 5) Cases.rank_mode
           Cases.warming_server (fun _ => 0%Q) eq_refl).
Defined.

(** X27.  Which error the rank mode shows.  Outside web-only mode an
    error comes with an empty list, and its text is one of: the message
    of a rejected call to the rank route; the error of the first answer
    (or "Failed to fetch recommendations") when that answer is not ok
    and does not ask for generation; the message of the rejected call to
    the generate route; the error of its answer (or "Failed to generate
    AI metadata") when that is not ok; the notice that generation is in
    progress, after five sleeps and six answers that were not ok.  The
    errors of the answers polled are never shown. *)
Theorem X27_rank_polling_failure (p : Props) (st : State) (server : Server)
    (entropy : nat -> Q) (msg : string) :
  onlyWeb st = false ->
  error (fst (fetchRecommendations p st server entropy)) = Some msg ->
  recs (fst (fetchRecommendations p st server entropy)) = Some []
  /\ ((exists n, (n <= 5)%nat /\ recommend server n = RankRejected msg)
      \/ (exists json,
            recommend server 0 = RankResponded false json
            /\ needsGeneration false
                 (rank_error (default empty_rank_json json)) = false
            /\ msg = Generate.or_string (rank_error (default empty_rank_json json))
                       "Failed to fetch recommendations")
      \/ generate server = GenerateRejected msg
      \/ (exists gerr,
            generate server = GenerateResponded false gerr
            /\ msg = Generate.or_string gerr "Failed to generate AI metadata")
      \/ (msg = in_progress
          /\ sleeps (snd (fetchRecommendations p st server entropy)) = backoff
          /\ forall n, (n <= 5)%nat ->
               exists json, recommend server n = RankResponded false json)).
Proof.
  intros Hmode.
  destruct (fetchRecommendations_cases p st server entropy) as
    [[Hweb Hr] | [(Hweb & e & H0 & Hr) | [(Hweb & json & H0 & Hr)
    | [(Hweb & json & H0 & Hneeds & Hr) | (Hweb & json & H0 & Hneeds & Hgen)]]]];
    cbv zeta in *; [congruence | | | |].
  - rewrite Hr. cbn. intros [= <-]. split; [done |]. left. exists 0%nat. split; [lia | done].
  - rewrite Hr. cbn. discriminate.
  - rewrite Hr. cbn. intros [= <-]. split; [done |]. right; left. by exists json.
  - destruct Hgen as [(e & Hg & Hr) | [(gerr & Hg & Hr) | (gerr & Hg & Hr)]].
    + rewrite Hr. cbn. intros [= <-]. split; [done |]. by right; right; left.
    + rewrite Hr. cbn. intros [= <-]. split; [done |]. right; right; right; left.
      by exists gerr.
    + destruct (poll_spec p server backoff 1) as (k & Hk & Hlog & Hbefore & Hlast).
      rewrite Hr. cbn [fst snd]. rewrite Hlog.
      change (length backoff) with 5%nat in Hk.
      destruct (fst (poll p server backoff 1)) as [json' | e]; [discriminate |].
      cbn. intros [= <-]. split; [done |].
      destruct Hlast as [[Hpos Hk'] | (-> & -> & Hk')].
      * left. exists (1 + (k - 1))%nat. split; [lia | done].
      * right; right; right; right. split; [done |]. split.
        { change (length backoff) with 5%nat. apply (sleeps_flat_map p backoff). }
        change (length backoff) with 5%nat in *.
        intros n Hn. destruct n as [| n]; [by exists json |].
        destruct (decide (n = 4%nat)) as [-> | Hne].
        -- apply Hk'. lia.
        -- apply (Hbefore n). lia.
Qed.

Lemma X27_rank_polling_failure_witness :
  recs (fst (fetchRecommendations (Scenario.props 5) Cases.rank_mode
               Cases.cold_server (fun _ => 0%Q))) = Some []
  /\ ((exists n, (n <= 5)%nat
         /\ recommend Cases.cold_server n = RankRejected in_progress)
      \/ (exists json,
            recommend Cases.cold_server 0 = RankResponded false json
            /\ needsGeneration false
                 (rank_error (default empty_rank_json json)) = false
            /\ in_progress
               = Generate.or_string (rank_error (default empty_rank_json json))
                   "Failed to fetch recommendations")
      \/ generate Cases.cold_server = GenerateRejected in_progress
      \/ (exists gerr,
            generate Cases.cold_server = GenerateResponded false gerr
            /\ in_progress
               = Generate.or_string gerr "Failed to generate AI metadata")
      \/ (in_progress = in_progress
          /\ sleeps (snd (fetchRecommendations (Scenario.props 5) Cases.rank_mode
                            Cases.cold_server (fun _ => 0%Q))) = backoff
          /\ forall n, (n <= 5)%nat ->
               exists json,
                 recommend Cases.cold_server n = RankResponded false json)).
Proof.
  assert (H : error (fst (fetchRecommendations (Scenario.props 5) Cases.rank_mode
                            Cases.cold_server (fun _ => 0%Q)))
              = Some in_progress) by (vm_compute; reflexivity).
  exact (X27_rank_polling_failure (Scenario.props 5) Cases.rank_mode
           Cases.cold_server (fun _ => 0%Q) in_progress eq_refl H).
Defined.

(** X28.  The rank route's own 404 answers ask for generation.  On a
    database whose queries report no error, the component takes an
    answer of the rank route as a request to generate exactly when the
    answer has status 404: the route's two messages for a target without
    row or without embedding match the pattern, "Missing bookId" and a
    list of recommendations do not. *)
Theorem X28_rank_404_asks_for_generation
    (cosineSimilarity : list number -> list number -> number)
    (env : Recommend.Env) (db : Recommend.Supabase) :
  Recommend.createClient env = Ok db ->
  Recommend.error (Recommend.target_query db) = None ->
  Recommend.error (Recommend.rows_query db) = None ->
  needsGeneration (answer_ok (Recommend.POST cosineSimilarity env))
                  (answer_error (Recommend.POST cosineSimilarity env)) = true
  <-> exists msg, Recommend.POST cosineSimilarity env = Recommend.ErrorJson 404 msg.
Proof.
  intros Hc Ht Hrows. unfold Recommend.POST, Recommend.handle.
  rewrite Hc, Ht, Hrows.
  destruct (Recommend.body env) as [b |].
  2: { cbn [answer_ok answer_error]. split; [by vm_compute | intros [msg [=]]]. }
  destruct (negb (nonempty _)).
  { cbn [answer_ok answer_error]. split; [by vm_compute | intros [msg [=]]]. }
  destruct (Recommend.data (Recommend.target_query db)) as [targetRow |].
  2: { split; [intros _; by eexists | intros _; by vm_compute]. }
  destruct (Recommend.embedding targetRow) as [targetEmbedding |].
  2: { split; [intros _; by eexists | intros _; by vm_compute]. }
  cbn zeta. destruct (bool_decide _).
  { split; [by vm_compute | intros [msg [=]]]. }
  destruct (Recommend.error (Recommend.books_query db _));
    (split; [by cbn | intros [msg [=]]]).
Qed.

Lemma X28_rank_404_asks_for_generation_witness :
  needsGeneration
    (answer_ok (Recommend.POST Scenario.constant_similarity
                  Cases.rank_request_without_row))
    (answer_error (Recommend.POST Scenario.constant_similarity
                     Cases.rank_request_without_row)) = true
  <-> exists msg,
        Recommend.POST Scenario.constant_similarity Cases.rank_request_without_row
        = Recommend.ErrorJson 404 msg.
Proof.
  exact (X28_rank_404_asks_for_generation Scenario.constant_similarity
           Cases.rank_request_without_row _ eq_refl eq_refl eq_refl).
Defined.

End ClientRankCalls.

(** ** The catalogue: search and creation *)

Section CatalogSearch.
Import JS Catalog.
Import ClientRank (includes).

Lemma prefix_spec (n h : string) :
  String.prefix n h = true <-> exists post, h = n +:+ post.
Proof.
  revert h. induction n as [| c n IH]; intros h.
  - split; [intros _; by exists h | by destruct h].
  - destruct h as [| c' h]; [split; [done | by intros [post [=]]] |].
    cbn [String.prefix].
    destruct (ascii_dec c c') as [<- | Hne].
    + rewrite IH. split; intros [post Hp]; exists post.
      * by rewrite Hp.
      * by injection Hp.
    + split; [done | intros [post [=]]; congruence].
Qed.

Lemma includes_spec (n h : string) :
  includes n h = true <-> exists pre post, h = pre +:+ n +:+ post.
Proof.
  induction h as [| c h IH]; cbn [includes]; rewrite orb_true_iff, prefix_spec.
  - split.
    + intros [[post Hp] | H]; [by exists "", post | done].
    + intros (pre & post & Hp). left. exists post.
      destruct pre; [done | discriminate].
  - rewrite IH. split.
    + intros [[post Hp] | (pre & post & Hp)]; [by exists "", post |].
      exists (String c pre), post. by rewrite Hp.
    + intros (pre & post & Hp). destruct pre as [| c' pre].
      * left. by exists post.
      * right. exists pre, post. by injection Hp.
Qed.

Lemma includes_trans (a b c : string) :
  includes a b = true -> includes b c = true -> includes a c = true.
Proof.
  rewrite !includes_spec. intros (p1 & q1 & ->) (p2 & q2 & ->).
  exists (p2 +:+ p1), (q1 +:+ q2). by rewrite !append_assoc.
Qed.

Lemma includes_empty (n : string) : includes n "" = true -> n = "".
Proof.
  intros (pre & post & H)%includes_spec.
  destruct pre; [| discriminate]. by destruct n.
Qed.

Lemma toLowerCase_empty (s : string) : toLowerCase s = "" <-> s = "".
Proof. by destruct s. Qed.

Lemma nonempty_toLowerCase (s : string) : nonempty (toLowerCase s) = nonempty s.
Proof. by destruct s. Qed.

Lemma trimStart_toLowerCase (s : string) :
  trimStart (toLowerCase s) = toLowerCase (trimStart s).
Proof.
  induction s as [| c s IH]; [done |]. cbn.
  rewrite is_white_space_lower_char. by destruct (is_white_space c).
Qed.

Lemma list_ascii_toLowerCase (s : string) :
  list_ascii_of_string (toLowerCase s) = map lower_char (list_ascii_of_string s).
Proof. induction s as [| c s IH]; [done |]. cbn. by rewrite IH. Qed.

Lemma toLowerCase_of_list (l : list ascii) :
  toLowerCase (string_of_list_ascii l) = string_of_list_ascii (map lower_char l).
Proof. induction l as [| c l IH]; [done |]. cbn. by rewrite IH. Qed.

Lemma reverse_toLowerCase (s : string) :
  reverse_string (toLowerCase s) = toLowerCase (reverse_string s).
Proof.
  unfold reverse_string.
  by rewrite list_ascii_toLowerCase, toLowerCase_of_list, map_rev.
Qed.

Lemma trim_toLowerCase (s : string) : trim (toLowerCase s) = toLowerCase (trim s).
Proof.
  unfold trim, trimEnd.
  by rewrite trimStart_toLowerCase, reverse_toLowerCase, trimStart_toLowerCase,
    reverse_toLowerCase.
Qed.

Lemma trim_empty : trim "" = "".
Proof. done. Qed.

Lemma List_filter_sublist {A : Type} (f : A -> bool) (l : list A) :
  List.filter f l `sublist_of` l.
Proof.
  induction l as [| x l IH]; cbn; [done |].
  destruct (f x); by constructor.
Qed.

Lemma List_filter_narrow {A : Type} (f g : A -> bool) (l : list A) :
  (forall x, f x = true -> g x = true) ->
  List.filter f l `sublist_of` List.filter g l.
Proof.
  intros Hfg. induction l as [| x l IH]; cbn; [done |].
  destruct (f x) eqn:Hf.
  - rewrite (Hfg x Hf). by constructor.
  - destruct (g x); [by constructor | done].
Qed.

Lemma matches_narrow (q1 q2 : string) (b : Book) :
  includes q1 q2 = true -> matches q2 b = true -> matches q1 b = true.
Proof.
  intros Hq. unfold matches. rewrite !orb_true_iff.
  intros [[[H | H] | H] | H]; eauto using includes_trans.
Qed.

(** The filter of the table, by the query it searches for. *)
Lemma filteredBooks_query (search : string) (books : list Book) :
  filteredBooks (Some search) books
  = if nonempty (toLowerCase (trim search))
    then List.filter (matches (toLowerCase (trim search))) books
    else books.
Proof.
  unfold filteredBooks. cbn [default from_option id].
  rewrite nonempty_toLowerCase.
  destruct search as [| c s]; [done |]. done.
Qed.

(** X29.  Searching the catalogue.  The number of results the manager
    displays is the number of rows the table shows for the same search
    and the same books.  The rows shown are a sublist of the books; a
    missing or blank search shows all of them; the search does not
    depend on the case of the search text; and a search whose query is
    part of another's shows every row the other shows. *)
Theorem X29_catalog_search (search other : string) (books : list Book) :
  filteredCount search books = length (filteredBooks (Some search) books)
  /\ filteredBooks (Some search) books `sublist_of` books
  /\ filteredBooks None books = books
  /\ (trim search = "" -> filteredBooks (Some search) books = books)
  /\ filteredBooks (Some (toLowerCase search)) books
     = filteredBooks (Some search) books
  /\ (includes (toLowerCase (trim search)) (toLowerCase (trim other)) = true ->
      filteredBooks (Some other) books
        `sublist_of` filteredBooks (Some search) books).
Proof.
  rewrite !filteredBooks_query. split_and!.
  - unfold filteredCount. by destruct (nonempty (toLowerCase (trim search))).
  - destruct (nonempty _); [apply List_filter_sublist | done].
  - done.
  - by intros ->.
  - by rewrite trim_toLowerCase, toLowerCase_idemp.
  - intros Hq.
    destruct (nonempty (toLowerCase (trim other))) eqn:Ho.
    + destruct (nonempty (toLowerCase (trim search))).
      * apply List_filter_narrow. intros b. by apply matches_narrow.
      * apply List_filter_sublist.
    + assert (Hoe : toLowerCase (trim other) = "").
      { destruct (toLowerCase (trim other)); [done | discriminate]. }
      rewrite Hoe in Hq. apply includes_empty in Hq. by rewrite Hq.
Qed.

End CatalogSearch.

Section CatalogCreation.
Import JS Catalog.

Lemma trimStart_cases (s : string) :
  trimStart s = ""
  \/ exists c r, trimStart s = String c r /\ is_white_space c = false.
Proof.
  induction s as [| c s IH]; [by left |]. cbn.
  destruct (is_white_space c) eqn:Hc; [done |]. right. by exists c, s.
Qed.

Lemma trimStart_snoc (u : list ascii) (c : ascii) :
  is_white_space c = false ->
  exists u', trimStart (string_of_list_ascii (u ++ [c]))
             = string_of_list_ascii (u' ++ [c]).
Proof.
  intros Hc. induction u as [| x u IH]; cbn.
  - rewrite Hc. by exists [].
  - destruct (is_white_space x); [done |]. by exists (x :: u).
Qed.

Lemma trimEnd_cons (c : ascii) (t : string) :
  is_white_space c = false -> exists r, trimEnd (String c t) = String c r.
Proof.
  intros Hc. unfold trimEnd, reverse_string at 2.
  cbn [list_ascii_of_string rev].
  destruct (trimStart_snoc (rev (list_ascii_of_string t)) c Hc) as [u' ->].
  unfold reverse_string. rewrite list_ascii_of_string_of_list_ascii, rev_app_distr.
  cbn. by eexists.
Qed.

(** A trimmed string that is not empty begins with a character that is
    not white space. *)
Lemma trim_cases (s : string) :
  trim s = "" \/ exists c r, trim s = String c r /\ is_white_space c = false.
Proof.
  unfold trim. destruct (trimStart_cases s) as [-> | (c & r & -> & Hc)]; [by left |].
  right. destruct (trimEnd_cons c r Hc) as [r' ->]. by exists c, r'.
Qed.

Lemma join_cons (sep : string) (c : ascii) (t : string) (rest : list string) :
  exists r, join sep (String c t :: rest) = String c r.
Proof. destruct rest as [| p rest]; by eexists. Qed.

Lemma split_runs_head (s piece : string) :
  exists w rest, Generate.split_runs s piece false = (piece +:+ w) :: rest.
Proof.
  revert piece. induction s as [| c s IH]; intros piece; cbn.
  - exists "", []. by rewrite append_empty_r.
  - destruct (is_white_space c).
    + exists "". eexists. by rewrite append_empty_r.
    + destruct (IH (piece +:+ String c "")) as (w & rest & ->).
      exists (String c w), rest. by rewrite append_assoc.
Qed.

(** X30.  A book created with the form serves both routes.  The form
    inserts a row only for a title that is not blank; the row has the
    trimmed title, which is not empty and begins with a character that is
    not white space, and an assignee that is not empty.  For such a row
    the web route builds a query text that is not empty (so it does
    search), and the generate route has a text to summarise and makes at
    least one tag from the title. *)
Theorem X30_created_book (f : Form) (b : NewBook) :
  payload f = Some b ->
  trim (form_title f) <> ""
  /\ new_title b = trim (form_title f)
  /\ (exists c r, new_title b = String c r /\ is_white_space c = false)
  /\ new_assignee b <> ""
  /\ nonempty (WebRecommend.queryText (as_book b)) = true
  /\ Generate.textToSummarize (as_book b) <> ""
  /\ Generate.fallback_tags (as_book b) <> [].
Proof.
  unfold payload.
  destruct (nonempty (trim (form_title f))) eqn:Ht; cbn [negb]; [| discriminate].
  intros [= <-]. cbn [new_title new_assignee].
  apply nonempty_iff in Ht.
  destruct (trim_cases (form_title f)) as [He | (c & r & Hcr & Hc)]; [done |].
  split_and!.
  - done.
  - done.
  - by exists c, r.
  - destruct (nonempty (trim (form_assignee f))) eqn:Ha; [by apply nonempty_iff | done].
  - unfold WebRecommend.queryText, as_book.
    cbn [WebRecommend.book_title WebRecommend.book_assignee WebRecommend.book_notes
         new_title new_assignee new_notes].
    rewrite Hcr.
    change (omap Datatypes.id (Some (String c r) :: ?l)) with (String c r :: omap Datatypes.id l).
    change (List.filter nonempty (String c r :: ?l))
      with (String c r :: List.filter nonempty l).
    destruct (join_cons " " c r (List.filter nonempty
               (omap Datatypes.id [Some (if nonempty (trim (form_assignee f))
                               then trim (form_assignee f) else "N/A");
                         Some (form_notes f)]))) as [r' ->].
    unfold trim. cbn [trimStart]. rewrite Hc.
    by destruct (trimEnd_cons c r' Hc) as [r'' ->].
  - unfold Generate.textToSummarize, as_book.
    cbn [WebRecommend.book_title WebRecommend.book_assignee WebRecommend.book_notes
         new_title new_assignee new_notes].
    rewrite Hcr.
    change (omap Datatypes.id (Some (String c r) :: ?l)) with (String c r :: omap Datatypes.id l).
    change (List.filter nonempty (String c r :: ?l))
      with (String c r :: List.filter nonempty l).
    apply join_cons_nonempty.
  - unfold Generate.fallback_tags, as_book, Generate.split_white_space.
    cbn [WebRecommend.book_title new_title default from_option Datatypes.id].
    rewrite Hcr. cbn [Generate.split_runs]. rewrite Hc.
    destruct (split_runs_head r ("" +:+ String c "")) as (w & rest & ->).
    cbn [take map]. change (("" +:+ String c "") +:+ w) with (String c w).
    cbn [toLowerCase]. change (nonempty (String ?x ?y)) with true.
    cbn [List.filter]. done.
Qed.

Lemma X30_created_book_witness :
  trim (form_title Cases.dune_form) <> ""
  /\ new_title Cases.dune_row = trim (form_title Cases.dune_form)
  /\ (exists c r, new_title Cases.dune_row = String c r
                  /\ is_white_space c = false)
  /\ new_assignee Cases.dune_row <> ""
  /\ nonempty (WebRecommend.queryText (as_book Cases.dune_row)) = true
  /\ Generate.textToSummarize (as_book Cases.dune_row) <> ""
  /\ Generate.fallback_tags (as_book Cases.dune_row) <> [].
Proof.
  assert (H : payload Cases.dune_form = Some Cases.dune_row)
    by (vm_compute; reflexivity).
  exact (X30_created_book Cases.dune_form Cases.dune_row H).
Defined.

End CatalogCreation.
